(** * The mining-run simulation core ([src/game/runtime.ts]) in Rocq

    A shallow embedding of the frame-stepped runtime: [createRuntime] builds
    the run state from a seed and the run modifiers, [stepRuntime] advances it
    by one frame.  The TypeScript mutates one [GameRuntime] object in place;
    here every function takes the runtime and returns the updated one.

    Numbers.  A JavaScript [number] is modelled as an exact rational ([Q]):
    no rounding, no NaN.  The two fields the source initialises with
    [Infinity] ([pirateTriggerAt], [pirateBoardTimer]) have the type [xnum],
    the rationals with a point at infinity.  The linear-congruential
    generator is exact in double precision (its products stay below 2^53), so
    its state is a [Z] reduced modulo 2^32.  The transcendental functions of
    [Math], [Math.PI] and [Number.prototype.toFixed] are parameters of the
    development (record [Host]); every theorem holds for all of them. *)

From Stdlib Require Import ZArith QArith Qround Lia Lqa String List Bool
  Sorted.
From stdpp Require Import gmap strings pretty.
Import ListNotations.
Open Scope Q_scope.

(** ** Numbers *)

Definition Qltb (a b : Q) : bool := negb (Qle_bool b a).
Definition Qgeb (a b : Q) : bool := Qle_bool b a.
Definition Qgtb (a b : Q) : bool := negb (Qle_bool a b).

Infix "<=?" := Qle_bool (at level 70, no associativity) : Q_scope.
Infix "<?" := Qltb (at level 70, no associativity) : Q_scope.
Infix ">=?" := Qgeb (at level 70, no associativity) : Q_scope.
Infix ">?" := Qgtb (at level 70, no associativity) : Q_scope.

(** [Math.max] and [Math.min] on two arguments. *)
Definition Math_max (a b : Q) : Q := if a <=? b then b else a.
Definition Math_min (a b : Q) : Q := if a <=? b then a else b.

(** [Math.floor]. *)
Definition Math_floor (a : Q) : Q := inject_Z (Qfloor a).

(** [MathUtils.clamp(value, min, max)] of three.js:
    [Math.max(min, Math.min(max, value))]. *)
Definition clamp (value lo hi : Q) : Q := Math_max lo (Math_min hi value).

(** Numbers that may be [Infinity]. *)
Inductive xnum : Type :=
| Fin (q : Q)
| PosInf.

(** [t - d], [t + d] and [Math.max(0, t)] for a finite [d]. *)
Definition xsub (t : xnum) (d : Q) : xnum :=
  match t with Fin q => Fin (q - d) | PosInf => PosInf end.
Definition xadd (t : xnum) (d : Q) : xnum :=
  match t with Fin q => Fin (q + d) | PosInf => PosInf end.
Definition xmax0 (t : xnum) : xnum :=
  match t with Fin q => Fin (Math_max 0 q) | PosInf => PosInf end.
(** [t <= 0] and [a >= t]. *)
Definition xle0 (t : xnum) : bool :=
  match t with Fin q => q <=? 0 | PosInf => false end.
Definition geb_x (a : Q) (t : xnum) : bool :=
  match t with Fin q => a >=? q | PosInf => false end.

(** ** The host functions *)

Record Host : Type := {
  Math_sqrt : Q -> Q;
  Math_sin : Q -> Q;
  Math_cos : Q -> Q;
  Math_exp : Q -> Q;
  Math_pow : Q -> Q -> Q;
  Math_PI : Q;
  toFixed : Q -> nat -> string
}.

(** ** three.js [Vector3] *)

Record Vector3 : Type := mkV { vx : Q; vy : Q; vz : Q }.

Definition vadd (a b : Vector3) : Vector3 :=
  mkV (vx a + vx b) (vy a + vy b) (vz a + vz b).
Definition vsub (a b : Vector3) : Vector3 :=
  mkV (vx a - vx b) (vy a - vy b) (vz a - vz b).
Definition multiplyScalar (a : Vector3) (s : Q) : Vector3 :=
  mkV (vx a * s) (vy a * s) (vz a * s).
Definition addScaledVector (a v : Vector3) (s : Q) : Vector3 :=
  mkV (vx a + vx v * s) (vy a + vy v * s) (vz a + vz v * s).
Definition dot (a b : Vector3) : Q :=
  vx a * vx b + vy a * vy b + vz a * vz b.
Definition lengthSq (a : Vector3) : Q :=
  vx a * vx a + vy a * vy a + vz a * vz a.
(** [this.x += (v.x - this.x) * alpha] *)
Definition lerp (a v : Vector3) (alpha : Q) : Vector3 :=
  mkV (vx a + (vx v - vx a) * alpha) (vy a + (vy v - vy a) * alpha)
      (vz a + (vz v - vz a) * alpha).
(** [lerpVectors(v1, v2, alpha)] *)
Definition lerpVectors (v1 v2 : Vector3) (alpha : Q) : Vector3 :=
  mkV (vx v1 + (vx v2 - vx v1) * alpha) (vy v1 + (vy v2 - vy v1) * alpha)
      (vz v1 + (vz v2 - vz v1) * alpha).

Section VectorHost.
Variable H : Host.

Definition vlength (a : Vector3) : Q := Math_sqrt H (lengthSq a).
Definition distanceTo (a b : Vector3) : Q := Math_sqrt H (lengthSq (vsub a b)).
(** [normalize()] is [divideScalar(this.length() || 1)], and
    [divideScalar(s)] is [multiplyScalar(1 / s)]. *)
Definition normalize (a : Vector3) : Vector3 :=
  let l := vlength a in
  multiplyScalar a (1 / (if Qeq_bool l 0 then 1 else l)).
Definition setLength (a : Vector3) (l : Q) : Vector3 :=
  multiplyScalar (normalize a) l.
End VectorHost.

(** ** Data model *)

Inductive ResourceId : Type :=
| scrapIron | waterIce | cobaltDust | xenoCrystal | fringeRelic.

Definition ResourceId_eqb (a b : ResourceId) : bool :=
  match a, b with
  | scrapIron, scrapIron | waterIce, waterIce | cobaltDust, cobaltDust
  | xenoCrystal, xenoCrystal | fringeRelic, fringeRelic => true
  | _, _ => false
  end.

Record ResourceDef : Type := {
  def_id : ResourceId;
  def_label : string;
  def_value : Q;
  def_volume : Q;
  def_color : string
}.

Record CargoBin : Type := {
  bin_resourceId : ResourceId;
  bin_units : Q;
  bin_volume : Q;
  bin_value : Q
}.

Inductive Tone : Type := info | alert | good.

Record EventEntry : Type := {
  ev_id : Z;
  ev_tone : Tone;
  ev_message : string
}.

Inductive GameStatus : Type := active | won | lost.

Inductive PirateState : Type := quiet | incoming | disabled | boarding.

Record AsteroidSim : Type := {
  ast_id : Z;
  ast_radius : Q;
  ast_position : Vector3;
  ast_velocity : Vector3;
  ast_rotationSpeed : Vector3;
  ast_oreReserve : Q;
  ast_maxOreReserve : Q;
  ast_primaryResourceId : ResourceId;
  ast_hasPowerball : bool;
  ast_powerballRecovered : bool;
  ast_composition : list (ResourceId * Q);
  ast_baseColor : string
}.

Inductive ShotType : Type := cargoShot | weaponShot.

Record CargoShot : Type := {
  shot_id : Z;
  shot_shotType : ShotType;
  shot_resourceId : option ResourceId;
  shot_position : Vector3;
  shot_velocity : Vector3;
  shot_life : Q;
  shot_radius : Q;
  shot_damage : Q;
  shot_delayBonus : Q;
  shot_color : string
}.

(** [Record<ResourceId, CargoBin>]: one bin per resource kind, in the order
    of the object literal of [createCargoBins] (the order of
    [Object.values]). *)
Record CargoBins : Type := {
  bin_scrapIron : CargoBin;
  bin_waterIce : CargoBin;
  bin_cobaltDust : CargoBin;
  bin_xenoCrystal : CargoBin;
  bin_fringeRelic : CargoBin
}.

Record GameRuntime : Type := mkRuntime {
  runId : Z;
  rng : Z;
  elapsed : Q;
  missionSeconds : Q;
  countdownRate : Q;
  freighterPosition : Vector3;
  playerPosition : Vector3;
  playerVelocity : Vector3;
  throttleLevel : Q;
  thrusterMultiplier : Q;
  drillMultiplier : Q;
  docked : bool;
  dockedPosition : Vector3;
  unloadAccumulator : Q;
  dockUnloadStartUnits : Q;
  dockRepairStartDeficit : Q;
  playerYaw : Q;
  playerPitch : Q;
  hull : Q;
  maxHull : Q;
  collisionGrace : Q;
  grabbedAsteroidId : option Z;
  drillActive : bool;
  drillAccumulator : Q;
  asteroidDepletionSerial : Z;
  grabberRange : Q;
  cargoBins : CargoBins;
  cargoUsed : Q;
  cargoCapacity : Q;
  cargoValue : Q;
  deliveredValue : Q;
  powerballCargo : Z;
  deliveredPowerballScore : Z;
  weaponAmmo : Q;
  weaponMaxAmmo : Q;
  weaponDamage : Q;
  rammerDamageMultiplier : Q;
  rammerSelfDamageMultiplier : Q;
  asteroids : list AsteroidSim;
  cargoShots : list CargoShot;
  cargoShotSerial : Z;
  pirateState : PirateState;
  piratePosition : Vector3;
  pirateVelocity : Vector3;
  pirateOrbitAngle : Q;
  pirateTriggerAt : xnum;
  pirateBoardTimer : xnum;
  pirateHull : Q;
  pirateMaxHull : Q;
  pirateRamGrace : Q;
  pirateAsteroidGrace : Q;
  status : GameStatus;
  outcomeReason : string;
  events : list EventEntry;
  eventSerial : Z;
  prevKeys : gmap string bool;
  cargoFullWarned : bool
}.

(** [Partial<RunModifiers>]: an absent field is [None]. *)
Record RunModifiers : Type := {
  mod_grabberRange : option Q;
  mod_thrusterMultiplier : option Q;
  mod_drillMultiplier : option Q;
  mod_maxHull : option Q;
  mod_cargoCapacity : option Q;
  mod_weaponAmmo : option Q;
  mod_weaponDamage : option Q;
  mod_rammerDamageMultiplier : option Q;
  mod_rammerSelfDamageMultiplier : option Q;
  mod_pirateEncounterChance : option Q
}.

Record ControlInput : Type := { keys : gmap string bool }.

(** ** Field updates

    [runtime.f = v] is [set_f v runtime].  The setters are read off the
    eta-expansion of the record: the projection being assigned is abstracted
    out of it and replaced by the new value. *)

Definition etaRuntime (r : GameRuntime) : GameRuntime :=
  mkRuntime (runId r) (rng r) (elapsed r) (missionSeconds r) (countdownRate r)
    (freighterPosition r) (playerPosition r) (playerVelocity r)
    (throttleLevel r) (thrusterMultiplier r) (drillMultiplier r) (docked r)
    (dockedPosition r) (unloadAccumulator r) (dockUnloadStartUnits r)
    (dockRepairStartDeficit r) (playerYaw r) (playerPitch r) (hull r)
    (maxHull r) (collisionGrace r) (grabbedAsteroidId r) (drillActive r)
    (drillAccumulator r) (asteroidDepletionSerial r) (grabberRange r)
    (cargoBins r) (cargoUsed r) (cargoCapacity r) (cargoValue r)
    (deliveredValue r) (powerballCargo r) (deliveredPowerballScore r)
    (weaponAmmo r) (weaponMaxAmmo r) (weaponDamage r)
    (rammerDamageMultiplier r) (rammerSelfDamageMultiplier r) (asteroids r)
    (cargoShots r) (cargoShotSerial r) (pirateState r) (piratePosition r)
    (pirateVelocity r) (pirateOrbitAngle r) (pirateTriggerAt r)
    (pirateBoardTimer r) (pirateHull r) (pirateMaxHull r) (pirateRamGrace r)
    (pirateAsteroidGrace r) (status r) (outcomeReason r) (events r)
    (eventSerial r) (prevKeys r) (cargoFullWarned r).

Ltac mk_setter proj :=
  let e := eval cbv delta [etaRuntime] in etaRuntime in
  match eval pattern proj in e with
  | ?s _ =>
      let t := eval cbv beta in (fun v (r : GameRuntime) => s (fun _ => v) r) in
      exact t
  end.

Definition set_rng : Z -> GameRuntime -> GameRuntime :=
  ltac:(mk_setter rng).
Definition set_elapsed : Q -> GameRuntime -> GameRuntime :=
  ltac:(mk_setter elapsed).
Definition set_missionSeconds : Q -> GameRuntime -> GameRuntime :=
  ltac:(mk_setter missionSeconds).
Definition set_freighterPosition : Vector3 -> GameRuntime -> GameRuntime :=
  ltac:(mk_setter freighterPosition).
Definition set_playerPosition : Vector3 -> GameRuntime -> GameRuntime :=
  ltac:(mk_setter playerPosition).
Definition set_playerVelocity : Vector3 -> GameRuntime -> GameRuntime :=
  ltac:(mk_setter playerVelocity).
Definition set_throttleLevel : Q -> GameRuntime -> GameRuntime :=
  ltac:(mk_setter throttleLevel).
Definition set_docked : bool -> GameRuntime -> GameRuntime :=
  ltac:(mk_setter docked).
Definition set_dockedPosition : Vector3 -> GameRuntime -> GameRuntime :=
  ltac:(mk_setter dockedPosition).
Definition set_unloadAccumulator : Q -> GameRuntime -> GameRuntime :=
  ltac:(mk_setter unloadAccumulator).
Definition set_dockUnloadStartUnits : Q -> GameRuntime -> GameRuntime :=
  ltac:(mk_setter dockUnloadStartUnits).
Definition set_dockRepairStartDeficit : Q -> GameRuntime -> GameRuntime :=
  ltac:(mk_setter dockRepairStartDeficit).
Definition set_playerYaw : Q -> GameRuntime -> GameRuntime :=
  ltac:(mk_setter playerYaw).
Definition set_playerPitch : Q -> GameRuntime -> GameRuntime :=
  ltac:(mk_setter playerPitch).
Definition set_hull : Q -> GameRuntime -> GameRuntime :=
  ltac:(mk_setter hull).
Definition set_collisionGrace : Q -> GameRuntime -> GameRuntime :=
  ltac:(mk_setter collisionGrace).
Definition set_grabbedAsteroidId : option Z -> GameRuntime -> GameRuntime :=
  ltac:(mk_setter grabbedAsteroidId).
Definition set_drillActive : bool -> GameRuntime -> GameRuntime :=
  ltac:(mk_setter drillActive).
Definition set_drillAccumulator : Q -> GameRuntime -> GameRuntime :=
  ltac:(mk_setter drillAccumulator).
Definition set_asteroidDepletionSerial : Z -> GameRuntime -> GameRuntime :=
  ltac:(mk_setter asteroidDepletionSerial).
Definition set_cargoBins : CargoBins -> GameRuntime -> GameRuntime :=
  ltac:(mk_setter cargoBins).
Definition set_cargoUsed : Q -> GameRuntime -> GameRuntime :=
  ltac:(mk_setter cargoUsed).
Definition set_cargoValue : Q -> GameRuntime -> GameRuntime :=
  ltac:(mk_setter cargoValue).
Definition set_deliveredValue : Q -> GameRuntime -> GameRuntime :=
  ltac:(mk_setter deliveredValue).
Definition set_powerballCargo : Z -> GameRuntime -> GameRuntime :=
  ltac:(mk_setter powerballCargo).
Definition set_deliveredPowerballScore : Z -> GameRuntime -> GameRuntime :=
  ltac:(mk_setter deliveredPowerballScore).
Definition set_weaponAmmo : Q -> GameRuntime -> GameRuntime :=
  ltac:(mk_setter weaponAmmo).
Definition set_asteroids : list AsteroidSim -> GameRuntime -> GameRuntime :=
  ltac:(mk_setter asteroids).
Definition set_cargoShots : list CargoShot -> GameRuntime -> GameRuntime :=
  ltac:(mk_setter cargoShots).
Definition set_cargoShotSerial : Z -> GameRuntime -> GameRuntime :=
  ltac:(mk_setter cargoShotSerial).
Definition set_pirateState : PirateState -> GameRuntime -> GameRuntime :=
  ltac:(mk_setter pirateState).
Definition set_piratePosition : Vector3 -> GameRuntime -> GameRuntime :=
  ltac:(mk_setter piratePosition).
Definition set_pirateVelocity : Vector3 -> GameRuntime -> GameRuntime :=
  ltac:(mk_setter pirateVelocity).
Definition set_pirateOrbitAngle : Q -> GameRuntime -> GameRuntime :=
  ltac:(mk_setter pirateOrbitAngle).
Definition set_pirateBoardTimer : xnum -> GameRuntime -> GameRuntime :=
  ltac:(mk_setter pirateBoardTimer).
Definition set_pirateHull : Q -> GameRuntime -> GameRuntime :=
  ltac:(mk_setter pirateHull).
Definition set_pirateRamGrace : Q -> GameRuntime -> GameRuntime :=
  ltac:(mk_setter pirateRamGrace).
Definition set_pirateAsteroidGrace : Q -> GameRuntime -> GameRuntime :=
  ltac:(mk_setter pirateAsteroidGrace).
Definition set_status : GameStatus -> GameRuntime -> GameRuntime :=
  ltac:(mk_setter status).
Definition set_outcomeReason : string -> GameRuntime -> GameRuntime :=
  ltac:(mk_setter outcomeReason).
Definition set_events : list EventEntry -> GameRuntime -> GameRuntime :=
  ltac:(mk_setter events).
Definition set_eventSerial : Z -> GameRuntime -> GameRuntime :=
  ltac:(mk_setter eventSerial).
Definition set_prevKeys : gmap string bool -> GameRuntime -> GameRuntime :=
  ltac:(mk_setter prevKeys).
Definition set_cargoFullWarned : bool -> GameRuntime -> GameRuntime :=
  ltac:(mk_setter cargoFullWarned).

Definition set_ast_position (v : Vector3) (a : AsteroidSim) : AsteroidSim :=
  {| ast_id := ast_id a; ast_radius := ast_radius a; ast_position := v;
     ast_velocity := ast_velocity a; ast_rotationSpeed := ast_rotationSpeed a;
     ast_oreReserve := ast_oreReserve a;
     ast_maxOreReserve := ast_maxOreReserve a;
     ast_primaryResourceId := ast_primaryResourceId a;
     ast_hasPowerball := ast_hasPowerball a;
     ast_powerballRecovered := ast_powerballRecovered a;
     ast_composition := ast_composition a; ast_baseColor := ast_baseColor a |}.

Definition set_ast_velocity (v : Vector3) (a : AsteroidSim) : AsteroidSim :=
  {| ast_id := ast_id a; ast_radius := ast_radius a;
     ast_position := ast_position a; ast_velocity := v;
     ast_rotationSpeed := ast_rotationSpeed a;
     ast_oreReserve := ast_oreReserve a;
     ast_maxOreReserve := ast_maxOreReserve a;
     ast_primaryResourceId := ast_primaryResourceId a;
     ast_hasPowerball := ast_hasPowerball a;
     ast_powerballRecovered := ast_powerballRecovered a;
     ast_composition := ast_composition a; ast_baseColor := ast_baseColor a |}.

Definition set_ast_oreReserve (v : Q) (a : AsteroidSim) : AsteroidSim :=
  {| ast_id := ast_id a; ast_radius := ast_radius a;
     ast_position := ast_position a; ast_velocity := ast_velocity a;
     ast_rotationSpeed := ast_rotationSpeed a; ast_oreReserve := v;
     ast_maxOreReserve := ast_maxOreReserve a;
     ast_primaryResourceId := ast_primaryResourceId a;
     ast_hasPowerball := ast_hasPowerball a;
     ast_powerballRecovered := ast_powerballRecovered a;
     ast_composition := ast_composition a; ast_baseColor := ast_baseColor a |}.

Definition set_ast_powerballRecovered (v : bool) (a : AsteroidSim)
  : AsteroidSim :=
  {| ast_id := ast_id a; ast_radius := ast_radius a;
     ast_position := ast_position a; ast_velocity := ast_velocity a;
     ast_rotationSpeed := ast_rotationSpeed a;
     ast_oreReserve := ast_oreReserve a;
     ast_maxOreReserve := ast_maxOreReserve a;
     ast_primaryResourceId := ast_primaryResourceId a;
     ast_hasPowerball := ast_hasPowerball a; ast_powerballRecovered := v;
     ast_composition := ast_composition a; ast_baseColor := ast_baseColor a |}.

(** ** Constants *)

Record Bounds : Type := {
  minX : Q; maxX : Q; minY : Q; maxY : Q; minZ : Q; maxZ : Q
}.

Definition ASTEROID_FIELD_BOUNDS : Bounds :=
  {| minX := -72; maxX := 82; minY := -35; maxY := 35; minZ := -68;
     maxZ := 68 |}.

Definition FLIGHT_BOUNDS : Bounds :=
  {| minX := -176; maxX := 176; minY := -72; maxY := 72; minZ := -176;
     maxZ := 176 |}.

Definition ASTEROID_TRAVEL_BOUNDS : Bounds :=
  {| minX := minX FLIGHT_BOUNDS - 220; maxX := maxX FLIGHT_BOUNDS + 220;
     minY := minY FLIGHT_BOUNDS - 70; maxY := maxY FLIGHT_BOUNDS + 70;
     minZ := minZ FLIGHT_BOUNDS - 220; maxZ := maxZ FLIGHT_BOUNDS + 220 |}.

Definition ASTEROID_COUNT : nat := 44.
Definition PLAYER_RADIUS : Q := 2.05.
Definition ASTEROID_DRAG : Q := 0.9992.
Definition ASTEROID_COLLISION_RESTITUTION : Q := 0.82.
Definition TOTAL_MISSION_SECONDS : Q := 320.
Definition DOCK_RADIUS : Q := 16.
Definition DOCK_APPROACH_RADIUS : Q := 30.
Definition ORE_EXTRACT_RATE : Q := 1.35.
Definition THROTTLE_STEP : Q := 0.2.
Definition PIRATE_RADIUS : Q := 2.8.
Definition CARGO_SHOT_RADIUS : Q := 0.72.
Definition CARGO_SHOT_LIFETIME : Q := 5.
Definition CARGO_SHOT_SPEED : Q := 34.
Definition RAM_DELAY_MIN_IMPACT : Q := 2.3.
Definition ASTEROID_PIRATE_IMPACT_MIN_SPEED : Q := 1.6.
Definition ASTEROID_PIRATE_IMPACT_GRACE : Q := 0.58.
Definition DOCK_REPAIR_PER_SECOND : Q := 14.
Definition DOCK_UNLOAD_UNITS_PER_SECOND : Q := 3.2.
Definition GRABBER_ANCHOR_PULL : Q := 4.4.
Definition GRABBED_ASTEROID_DAMPING_RATE : Q := 0.42.
Definition ASTEROID_FLING_BASE_SPEED : Q := 8.2.
Definition ASTEROID_FLING_FORWARD_SCALE : Q := 1.05.
Definition ASTEROID_FLING_THROTTLE_BONUS : Q := 7.
Definition ASTEROID_FLING_PLAYER_VELOCITY_SHARE : Q := 0.72.
Definition BASE_GRABBER_RANGE : Q := 7.5.
Definition BASE_THRUSTER_MULTIPLIER : Q := 1.
Definition BASE_DRILL_MULTIPLIER : Q := 1.
Definition BASE_MAX_HULL : Q := 100.
Definition BASE_CARGO_CAPACITY : Q := 130.
Definition BASE_WEAPON_AMMO : Q := 0.
Definition BASE_WEAPON_DAMAGE : Q := 0.
Definition BASE_RAMMER_DAMAGE_MULTIPLIER : Q := 1.
Definition BASE_RAMMER_SELF_DAMAGE_MULTIPLIER : Q := 1.
Definition BASE_PIRATE_ENCOUNTER_CHANCE : Q := 1.

Definition FREIGHTER_EDGE_X : Q := minX ASTEROID_FIELD_BOUNDS - 24.
Definition FREIGHTER_TRANSIT_START : Vector3 :=
  mkV FREIGHTER_EDGE_X 0 (minZ ASTEROID_FIELD_BOUNDS).
Definition FREIGHTER_TRANSIT_END : Vector3 :=
  mkV FREIGHTER_EDGE_X 0 (maxZ ASTEROID_FIELD_BOUNDS).
Definition PIRATE_HULL_MAX : Q := 120.

Definition CONTROL_CODES : list string :=
  ["KeyW"; "KeyS"; "Space"; "ArrowLeft"; "ArrowRight"; "ArrowUp";
   "ArrowDown"; "KeyG"; "KeyF"; "KeyQ"; "KeyE"; "KeyX"]%string.

Definition RESOURCES (id : ResourceId) : ResourceDef :=
  match id with
  | scrapIron =>
      {| def_id := scrapIron; def_label := "Scrap Iron"; def_value := 12;
         def_volume := 3; def_color := "#886e52" |}
  | waterIce =>
      {| def_id := waterIce; def_label := "Water Ice"; def_value := 18;
         def_volume := 5; def_color := "#c2c0b7" |}
  | cobaltDust =>
      {| def_id := cobaltDust; def_label := "Cobalt Dust"; def_value := 34;
         def_volume := 4; def_color := "#7c674f" |}
  | xenoCrystal =>
      {| def_id := xenoCrystal; def_label := "Xeno Crystal"; def_value := 88;
         def_volume := 2; def_color := "#a0ad7d" |}
  | fringeRelic =>
      {| def_id := fringeRelic; def_label := "Fringe Relic"; def_value := 240;
         def_volume := 6; def_color := "#d6bf7e" |}
  end.

Definition allResources : list ResourceId :=
  [scrapIron; waterIce; cobaltDust; xenoCrystal; fringeRelic].

(** [Math.min(...Object.values(RESOURCES).map(r => r.volume))] *)
Definition MIN_RESOURCE_VOLUME : Q :=
  fold_right Math_min (def_volume (RESOURCES scrapIron))
    (map (fun id => def_volume (RESOURCES id)) allResources).

(** ** The seeded generator

    [seededRandom(seed)] keeps [state = seed >>> 0]; each call replaces it by
    [(1664525 * state + 1013904223) >>> 0] and returns [state / 2^32]. *)

Definition seededRandom (seed : Z) : Z := (seed mod 4294967296)%Z.

Definition rngNext (state : Z) : Q * Z :=
  let state' := ((1664525 * state + 1013904223) mod 4294967296)%Z in
  (Qmake state' 4294967296, state').

Definition randomRange (state : Z) (lo hi : Q) : Q * Z :=
  let '(u, state') := rngNext state in (lo + (hi - lo) * u, state').

(** [weightedPick]: the loop over the candidates, and the fall-back to the
    last candidate. *)
Fixpoint weightedPickLoop {T : Type} (roll : Q) (weighted : list (T * Q))
  (fallback : T) : T :=
  match weighted with
  | [] => fallback
  | (item, weight) :: rest =>
      let roll' := roll - weight in
      if roll' <=? 0 then item else weightedPickLoop roll' rest fallback
  end.

Definition weightedPick {T : Type} (state : Z) (first : T * Q)
  (others : list (T * Q)) : T * Z :=
  let weighted := first :: others in
  let total := fold_left (fun acc c => acc + snd c) weighted 0 in
  let '(u, state') := rngNext state in
  (weightedPickLoop (u * total) weighted (fst (List.last weighted first)),
   state').

Definition emptyBin (id : ResourceId) : CargoBin :=
  {| bin_resourceId := id; bin_units := 0; bin_volume := 0; bin_value := 0 |}.

Definition createCargoBins : CargoBins :=
  {| bin_scrapIron := emptyBin scrapIron;
     bin_waterIce := emptyBin waterIce;
     bin_cobaltDust := emptyBin cobaltDust;
     bin_xenoCrystal := emptyBin xenoCrystal;
     bin_fringeRelic := emptyBin fringeRelic |}.

(** [runtime.cargoBins[resourceId]] and the assignment to it. *)
Definition getBin (bins : CargoBins) (id : ResourceId) : CargoBin :=
  match id with
  | scrapIron => bin_scrapIron bins
  | waterIce => bin_waterIce bins
  | cobaltDust => bin_cobaltDust bins
  | xenoCrystal => bin_xenoCrystal bins
  | fringeRelic => bin_fringeRelic bins
  end.

Definition setBin (bins : CargoBins) (id : ResourceId) (b : CargoBin)
  : CargoBins :=
  {| bin_scrapIron := if ResourceId_eqb id scrapIron then b
                      else bin_scrapIron bins;
     bin_waterIce := if ResourceId_eqb id waterIce then b
                     else bin_waterIce bins;
     bin_cobaltDust := if ResourceId_eqb id cobaltDust then b
                       else bin_cobaltDust bins;
     bin_xenoCrystal := if ResourceId_eqb id xenoCrystal then b
                        else bin_xenoCrystal bins;
     bin_fringeRelic := if ResourceId_eqb id fringeRelic then b
                        else bin_fringeRelic bins |}.

(** [Object.values(runtime.cargoBins)] *)
Definition binValues (bins : CargoBins) : list CargoBin :=
  map (getBin bins) allResources.

Definition getCargoUnitCount (r : GameRuntime) : Q :=
  fold_left (fun sum bin => sum + bin_units bin) (binValues (cargoBins r)) 0.

Definition addEvent (r : GameRuntime) (message : string) (tone : Tone)
  : GameRuntime :=
  let serial := (eventSerial r + 1)%Z in
  set_events
    (firstn 6 ({| ev_id := serial; ev_tone := tone; ev_message := message |}
               :: events r))
    (set_eventSerial serial r).

(** ** Run construction *)

Section Runtime.
Variable H : Host.

Definition createAsteroid (state : Z) (id : Z) (oreQualityBias : Q)
  : AsteroidSim * Z :=
  let qualityBias := clamp oreQualityBias 0 1 in
  let '(radius, state) := randomRange state 1.7 5.4 in
  let '(oreRoll, state) := randomRange state 6 16 in
  let initialOre := Math_max 3 (Math_floor ((oreRoll + radius * 1.5) * 0.5)) in
  let '(powerRoll, state) := rngNext state in
  let hasPowerball := powerRoll <? 0.01 in
  let '(px, state) := randomRange state (-54) 78 in
  let '(py, state) := randomRange state (-30) 30 in
  let '(pz, state) := randomRange state (-60) 60 in
  let position := mkV px py pz in
  let '(drift, state) := randomRange state 0.8 2.9 in
  let '(dx, state) := randomRange state (-1) 1 in
  let '(dy, state) := randomRange state (-1) 1 in
  let '(dz, state) := randomRange state (-1) 1 in
  let velocity := multiplyScalar (normalize H (mkV dx dy dz)) drift in
  let '(primary, state) :=
    weightedPick state
      (scrapIron, Math_max 1 (46 * (1 - 0.5 * qualityBias)))
      [ (waterIce, Math_max 1 (20 * (1 - 0.25 * qualityBias)));
        (cobaltDust, Math_max 1 (18 * (1 + 0.22 * qualityBias)));
        (xenoCrystal, Math_max 1 (12 * (1 + 0.9 * qualityBias)));
        (fringeRelic, Math_max 1 (4 * (1 + 1.7 * qualityBias))) ] in
  let composition :=
    [ (primary, 0.56 + qualityBias * 0.14);
      (scrapIron, Math_max 0.08 (0.17 - qualityBias * 0.09));
      (waterIce, Math_max 0.09 (0.13 - qualityBias * 0.04));
      (cobaltDust, 0.08 + qualityBias * 0.03);
      (xenoCrystal, 0.05 + qualityBias * 0.06);
      (fringeRelic, 0.01 + qualityBias * 0.04) ] in
  let '(rx, state) := randomRange state (-0.32) 0.32 in
  let '(ry, state) := randomRange state (-0.32) 0.32 in
  let '(rz, state) := randomRange state (-0.32) 0.32 in
  ({| ast_id := id; ast_radius := radius; ast_position := position;
      ast_velocity := velocity; ast_rotationSpeed := mkV rx ry rz;
      ast_oreReserve := initialOre; ast_maxOreReserve := initialOre;
      ast_primaryResourceId := primary; ast_hasPowerball := hasPowerball;
      ast_powerballRecovered := false; ast_composition := composition;
      ast_baseColor := def_color (RESOURCES primary) |}, state).

(** [Array.from({ length: n }, (_, id) => createAsteroid(rng, id, bias))],
    the ids counting up from [id]. *)
Fixpoint createAsteroids (n : nat) (state : Z) (id : Z) (bias : Q)
  : list AsteroidSim * Z :=
  match n with
  | O => ([], state)
  | S n' =>
      let '(a, state) := createAsteroid state id bias in
      let '(rest, state) := createAsteroids n' state (id + 1)%Z bias in
      (a :: rest, state)
  end.

(** [{ ...DEFAULT_RUN_MODIFIERS, ...modifiers }]: a field the caller gives
    replaces the default. *)
Definition modifier (given : option Q) (base : Q) : Q := default base given.

(** [MathUtils.clamp(runMods.pirateEncounterChance, 0, 1)], the encounter
    chance [createRuntime] works with. *)
Definition clampedEncounterChance (modifiers : RunModifiers) : Q :=
  clamp (modifier (mod_pirateEncounterChance modifiers)
           BASE_PIRATE_ENCOUNTER_CHANCE) 0 1.

Definition createRuntime (seed : Z) (modifiers : RunModifiers)
  : GameRuntime :=
  let state := seededRandom seed in
  let pirateEncounterChance := clampedEncounterChance modifiers in
  let '(spawnRoll, state) := rngNext state in
  let pirateWillSpawn := spawnRoll <? pirateEncounterChance in
  let oreQualityBias := clamp ((pirateEncounterChance - 0.16) / 0.68) 0 1 in
  let '(asts, state) :=
    createAsteroids ASTEROID_COUNT state 0%Z oreQualityBias in
  let freighter := FREIGHTER_TRANSIT_START in
  let '(orbitAngle, state) := randomRange state 0 (Math_PI H * 2) in
  let '(triggerAt, state) :=
    if pirateWillSpawn
    then let '(t, state) := randomRange state 70 160 in (Fin t, state)
    else (PosInf, state) in
  let runtime :=
    {| runId := seed;
       rng := state;
       elapsed := 0;
       missionSeconds := TOTAL_MISSION_SECONDS;
       countdownRate := 1;
       freighterPosition := freighter;
       playerPosition := vadd freighter (mkV 17 0 6);
       playerVelocity := mkV 0 0 0;
       throttleLevel := 0;
       thrusterMultiplier :=
         modifier (mod_thrusterMultiplier modifiers)
           BASE_THRUSTER_MULTIPLIER;
       drillMultiplier :=
         modifier (mod_drillMultiplier modifiers) BASE_DRILL_MULTIPLIER;
       docked := false;
       dockedPosition := mkV 17 0 0;
       unloadAccumulator := 0;
       dockUnloadStartUnits := 0;
       dockRepairStartDeficit := 0;
       playerYaw := Math_PI H / 2;
       playerPitch := 0;
       hull := modifier (mod_maxHull modifiers) BASE_MAX_HULL;
       maxHull := modifier (mod_maxHull modifiers) BASE_MAX_HULL;
       collisionGrace := 0;
       grabbedAsteroidId := None;
       drillActive := false;
       drillAccumulator := 0;
       asteroidDepletionSerial := 0;
       grabberRange :=
         modifier (mod_grabberRange modifiers) BASE_GRABBER_RANGE;
       cargoBins := createCargoBins;
       cargoUsed := 0;
       cargoCapacity :=
         modifier (mod_cargoCapacity modifiers) BASE_CARGO_CAPACITY;
       cargoValue := 0;
       deliveredValue := 0;
       powerballCargo := 0;
       deliveredPowerballScore := 0;
       weaponAmmo := modifier (mod_weaponAmmo modifiers) BASE_WEAPON_AMMO;
       weaponMaxAmmo :=
         modifier (mod_weaponAmmo modifiers) BASE_WEAPON_AMMO;
       weaponDamage :=
         modifier (mod_weaponDamage modifiers) BASE_WEAPON_DAMAGE;
       rammerDamageMultiplier :=
         Math_max 1
           (modifier (mod_rammerDamageMultiplier modifiers)
              BASE_RAMMER_DAMAGE_MULTIPLIER);
       rammerSelfDamageMultiplier :=
         clamp
           (modifier (mod_rammerSelfDamageMultiplier modifiers)
              BASE_RAMMER_SELF_DAMAGE_MULTIPLIER) 0.2 1;
       asteroids := asts;
       cargoShots := [];
       cargoShotSerial := 0;
       pirateState := quiet;
       piratePosition := vadd freighter (mkV 160 16 (-40));
       pirateVelocity := mkV 0 0 0;
       pirateOrbitAngle := orbitAngle;
       pirateTriggerAt := triggerAt;
       pirateBoardTimer := PosInf;
       pirateHull := PIRATE_HULL_MAX;
       pirateMaxHull := PIRATE_HULL_MAX;
       pirateRamGrace := 0;
       pirateAsteroidGrace := 0;
       status := active;
       outcomeReason := "";
       events := [];
       eventSerial := 0;
       prevKeys := ∅;
       cargoFullWarned := false |} in
  addEvent runtime
    "Freighter hails: launch window open. Mine fast before we pass beyond the belt."
    info.

(** ** Input edges *)

Definition isDown (ks : gmap string bool) (code : string) : bool :=
  default false (ks !! code).

Definition justPressed (r : GameRuntime) (ks : gmap string bool)
  (code : string) : bool :=
  isDown ks code && negb (default false (prevKeys r !! code)).

Definition updatePrevKeys (r : GameRuntime) (ks : gmap string bool)
  : GameRuntime :=
  set_prevKeys
    (fold_left (fun prev code => <[code := isDown ks code]> prev)
       CONTROL_CODES (prevKeys r)) r.

(** ** Flight *)

Definition getForwardVector (yaw pitch : Q) : Vector3 :=
  let cp := Math_cos H pitch in
  normalize H
    (mkV (Math_sin H yaw * cp) (Math_sin H pitch) (Math_cos H yaw * cp)).

Definition getPlayerForward (r : GameRuntime) : Vector3 :=
  getForwardVector (playerYaw r) (playerPitch r).

(** One axis of [clampPlayerToField]: the two tests in sequence, on the
    coordinate [p] and the velocity component [v]. *)
Definition clampAxis (p v lo hi : Q) : Q * Q :=
  let '(p, v) := if p <? lo then (lo, v * -0.45) else (p, v) in
  if p >? hi then (hi, v * -0.45) else (p, v).

Definition clampPlayerToField (r : GameRuntime) : GameRuntime :=
  let p := playerPosition r in
  let v := playerVelocity r in
  let '(px, wx) :=
    clampAxis (vx p) (vx v) (minX FLIGHT_BOUNDS) (maxX FLIGHT_BOUNDS) in
  let '(py, wy) :=
    clampAxis (vy p) (vy v) (minY FLIGHT_BOUNDS) (maxY FLIGHT_BOUNDS) in
  let '(pz, wz) :=
    clampAxis (vz p) (vz v) (minZ FLIGHT_BOUNDS) (maxZ FLIGHT_BOUNDS) in
  set_playerVelocity (mkV wx wy wz) (set_playerPosition (mkV px py pz) r).

Definition updateFreighterTransit (r : GameRuntime) : GameRuntime :=
  let progress :=
    clamp ((TOTAL_MISSION_SECONDS - missionSeconds r)
           / TOTAL_MISSION_SECONDS) 0 1 in
  set_freighterPosition
    (lerpVectors FREIGHTER_TRANSIT_START FREIGHTER_TRANSIT_END progress) r.

Definition applyFreighterDockActions (r : GameRuntime)
  (ks : gmap string bool) : GameRuntime :=
  if negb (justPressed r ks "KeyE") then r
  else if docked r then
    addEvent
      (set_dockRepairStartDeficit 0
         (set_dockUnloadStartUnits 0
            (set_unloadAccumulator 0 (set_docked false r))))
      "Dock clamps released. You are clear to launch." info
  else
    let distanceToFreighter :=
      distanceTo H (playerPosition r) (freighterPosition r) in
    if distanceToFreighter >? DOCK_APPROACH_RADIUS then
      addEvent r "Too far from freighter docking collar." alert
    else
      let dockVector0 := vsub (playerPosition r) (freighterPosition r) in
      let dockVector :=
        if lengthSq dockVector0 <? 0.0001 then mkV 1 0 0
        else normalize H dockVector0 in
      let r :=
        if distanceToFreighter >? DOCK_RADIUS then
          addEvent
            (set_playerPosition
               (addScaledVector (freighterPosition r) dockVector
                  (DOCK_RADIUS - 1.6)) r)
            "Docking assist engaged. Clamp locks secured." good
        else r in
      let r := set_docked true r in
      let r :=
        set_dockedPosition
          (vsub (playerPosition r) (freighterPosition r)) r in
      let r := set_playerVelocity (mkV 0 0 0) r in
      let r := set_throttleLevel 0 r in
      let r := set_grabbedAsteroidId None r in
      let r := set_unloadAccumulator 0 r in
      let r :=
        set_dockUnloadStartUnits
          (getCargoUnitCount r + inject_Z (powerballCargo r)) r in
      let r :=
        set_dockRepairStartDeficit (Math_max 0 (maxHull r - hull r)) r in
      addEvent r "Docking complete. Cargo transfer and repairs underway."
        good.

(** ** The pirate *)

Definition triggerPirateEvent (r : GameRuntime) : GameRuntime :=
  let r := set_pirateState incoming r in
  let '(timer, state) := randomRange (rng r) 40 68 in
  let r := set_pirateBoardTimer (Fin timer) (set_rng state r) in
  let r := set_pirateHull (pirateMaxHull r) r in
  let r := set_pirateRamGrace 0 r in
  let r := set_pirateAsteroidGrace 0 r in
  let r :=
    set_piratePosition (vadd (freighterPosition r) (mkV 22 9 (-18))) r in
  let r := set_pirateVelocity (mkV 0 0 0) r in
  addEvent r
    "Distress call: pirate raider inbound. Hold it off before boarding."
    alert.

Definition PirateState_eqb (a b : PirateState) : bool :=
  match a, b with
  | quiet, quiet | incoming, incoming | disabled, disabled
  | boarding, boarding => true
  | _, _ => false
  end.

Definition GameStatus_eqb (a b : GameStatus) : bool :=
  match a, b with
  | active, active | won, won | lost, lost => true
  | _, _ => false
  end.

Definition boardedReason : string :=
  "Pirates boarded the freighter before it cleared the belt.".

Definition updatePirate (r : GameRuntime) (dt : Q) : GameRuntime :=
  let r :=
    if PirateState_eqb (pirateState r) quiet
       && geb_x (elapsed r) (pirateTriggerAt r)
    then triggerPirateEvent r else r in
  if negb (PirateState_eqb (pirateState r) incoming) then r
  else
    let r := set_pirateBoardTimer (xmax0 (xsub (pirateBoardTimer r) dt)) r in
    let r := set_pirateOrbitAngle (pirateOrbitAngle r + dt * 0.85) r in
    let orbitRadius := 16 + Math_sin H (elapsed r * 0.55) * 2.8 in
    let pirateTarget :=
      vadd (freighterPosition r)
        (mkV (Math_cos H (pirateOrbitAngle r) * orbitRadius)
             (2.4 + Math_sin H (pirateOrbitAngle r * 2.2) * 1.7)
             (Math_sin H (pirateOrbitAngle r) * orbitRadius)) in
    let toTarget := vsub pirateTarget (piratePosition r) in
    let distance := vlength H toTarget in
    let r :=
      if distance >? 0.001 then
        let toTarget := normalize H toTarget in
        let r :=
          set_pirateVelocity
            (lerp (pirateVelocity r) (multiplyScalar toTarget 18)
               (1 - Math_exp H (- dt * 2.3))) r in
        set_piratePosition
          (addScaledVector (piratePosition r) (pirateVelocity r) dt) r
      else r in
    if xle0 (pirateBoardTimer r) then
      let r := set_pirateState boarding r in
      let r :=
        set_piratePosition
          (vadd (freighterPosition r) (mkV 5 0.2 (-2))) r in
      let r := set_pirateVelocity (mkV 0 0 0) r in
      let r := set_status lost r in
      let r := set_outcomeReason boardedReason r in
      addEvent r (outcomeReason r) alert
    else r.

Definition disablePirate (r : GameRuntime) : GameRuntime :=
  let r := set_pirateState disabled r in
  let r := set_pirateVelocity (mkV 0 0 0) r in
  let r := set_pirateBoardTimer PosInf r in
  addEvent r "Pirate drive core disabled. Boarding threat neutralized." good.

(** [applyPirateDamage] returns whether the pirate was disabled. *)
Definition applyPirateDamage (r : GameRuntime) (damage : Q)
  : GameRuntime * bool :=
  if negb (PirateState_eqb (pirateState r) incoming) || (damage <=? 0)
  then (r, false)
  else
    let r := set_pirateHull (Math_max 0 (pirateHull r - damage)) r in
    if pirateHull r >? 0 then (r, false) else (disablePirate r, true).

Definition smoothAxis (current target rate dt : Q) : Q :=
  let alpha := 1 - Math_exp H (- rate * dt) in
  current + (target - current) * alpha.

Definition b2q (b : bool) : Q := if b then 1 else 0.

Definition updatePlayerControlWithInput (r : GameRuntime) (dt : Q)
  (input : ControlInput) : GameRuntime :=
  let ks := keys input in
  let hullFactor := clamp (hull r / maxHull r) 0.25 1 in
  let keyboardYaw := b2q (isDown ks "ArrowLeft") - b2q (isDown ks "ArrowRight") in
  let keyboardPitch := b2q (isDown ks "ArrowUp") - b2q (isDown ks "ArrowDown") in
  let yawRate := 1.7 * hullFactor + 0.35 in
  let pitchRate := 1.3 * hullFactor + 0.3 in
  let r := set_playerYaw (playerYaw r + keyboardYaw * yawRate * dt) r in
  let r := set_playerPitch (playerPitch r + keyboardPitch * pitchRate * dt) r in
  let r := set_playerPitch (clamp (playerPitch r) (-1.1) 1.1) r in
  let forward := getPlayerForward r in
  let brake := isDown ks "KeyX" in
  let r :=
    if justPressed r ks "KeyW"
    then set_throttleLevel (clamp (throttleLevel r + THROTTLE_STEP) 0 1) r
    else r in
  let r :=
    if justPressed r ks "KeyS"
    then set_throttleLevel (clamp (throttleLevel r - THROTTLE_STEP) 0 1) r
    else r in
  if brake then set_playerVelocity (mkV 0 0 0) (set_throttleLevel 0 r)
  else
    let targetForwardSpeed :=
      16 * hullFactor * throttleLevel r * thrusterMultiplier r in
    let currentForwardSpeed := Math_max 0 (dot (playerVelocity r) forward) in
    let lateralVelocity :=
      addScaledVector (playerVelocity r) forward
        (- dot (playerVelocity r) forward) in
    let accelRate := 10 * hullFactor + 4 in
    let coastDecelRate := 5 + (1 - throttleLevel r) * 4 in
    let speedRate :=
      if targetForwardSpeed >=? currentForwardSpeed then accelRate
      else coastDecelRate in
    let nextForwardSpeed :=
      smoothAxis currentForwardSpeed targetForwardSpeed speedRate dt in
    let lateralVelocity :=
      multiplyScalar lateralVelocity (Math_exp H (- dt * 10)) in
    let r :=
      set_playerVelocity
        (vadd (multiplyScalar forward nextForwardSpeed) lateralVelocity) r in
    let maxSpeed := (6 + hullFactor * 13) * thrusterMultiplier r in
    let r :=
      if lengthSq (playerVelocity r) >? maxSpeed * maxSpeed
      then set_playerVelocity (setLength H (playerVelocity r) maxSpeed) r
      else r in
    let r :=
      set_playerPosition
        (addScaledVector (playerPosition r) (playerVelocity r) dt) r in
    clampPlayerToField r.

(** ** Asteroid bodies *)

(** One axis of the travel-bounds test of [updateAsteroidBody]. *)
Definition bounceAxis (p v lo hi : Q) : Q * Q :=
  let '(p, v) :=
    if p <? lo then (lo, if v <? 0 then 0 else v) else (p, v) in
  if p >? hi then (hi, if v >? 0 then 0 else v) else (p, v).

Definition updateAsteroidBody (a : AsteroidSim) (dt : Q) : AsteroidSim :=
  let p := addScaledVector (ast_position a) (ast_velocity a) dt in
  let v :=
    multiplyScalar (ast_velocity a) (Math_pow H ASTEROID_DRAG (dt * 60)) in
  let rad := ast_radius a in
  let '(px, wx) :=
    bounceAxis (vx p) (vx v) (minX ASTEROID_TRAVEL_BOUNDS + rad)
      (maxX ASTEROID_TRAVEL_BOUNDS - rad) in
  let '(py, wy) :=
    bounceAxis (vy p) (vy v) (minY ASTEROID_TRAVEL_BOUNDS + rad)
      (maxY ASTEROID_TRAVEL_BOUNDS - rad) in
  let '(pz, wz) :=
    bounceAxis (vz p) (vz v) (minZ ASTEROID_TRAVEL_BOUNDS + rad)
      (maxZ ASTEROID_TRAVEL_BOUNDS - rad) in
  set_ast_velocity (mkV wx wy wz) (set_ast_position (mkV px py pz) a).

(** ** Grabber *)

(** [runtime.asteroids.find(c => c.id === id)], and the in-place update of
    the asteroid it returns (the first one with that id). *)
Definition findAsteroid (id : Z) (l : list AsteroidSim)
  : option AsteroidSim :=
  List.find (fun c => Z.eqb (ast_id c) id) l.

Fixpoint updateAsteroid (id : Z) (f : AsteroidSim -> AsteroidSim)
  (l : list AsteroidSim) : list AsteroidSim :=
  match l with
  | [] => []
  | c :: rest =>
      if Z.eqb (ast_id c) id then f c :: rest
      else c :: updateAsteroid id f rest
  end.

(** The loop of [findNearestAsteroidForGrabber]; [None] stands for the
    initial [nearest = null], [nearestDistance = Infinity]. *)
Definition nearestStep (player : Vector3) (best : option (AsteroidSim * Q))
  (a : AsteroidSim) : option (AsteroidSim * Q) :=
  let surfaceDistance := distanceTo H (ast_position a) player - ast_radius a in
  match best with
  | None => Some (a, surfaceDistance)
  | Some (_, nearestDistance) =>
      if surfaceDistance <? nearestDistance then Some (a, surfaceDistance)
      else best
  end.

Definition findNearestAsteroidForGrabber (r : GameRuntime)
  : option (AsteroidSim * Q) :=
  fold_left (nearestStep (playerPosition r)) (asteroids r) None.

Definition updateGrabber (r : GameRuntime) (ks : gmap string bool)
  : GameRuntime :=
  if negb (justPressed r ks "KeyG") then r
  else
    match grabbedAsteroidId r with
    | Some id =>
        let r :=
          match findAsteroid id (asteroids r) with
          | Some asteroid =>
              let forward := getPlayerForward r in
              let forwardSpeed :=
                Math_max 0 (dot (playerVelocity r) forward) in
              let flingSpeed :=
                ASTEROID_FLING_BASE_SPEED
                + forwardSpeed * ASTEROID_FLING_FORWARD_SCALE
                + throttleLevel r * ASTEROID_FLING_THROTTLE_BONUS in
              let fling (a : AsteroidSim) : AsteroidSim :=
                let v := addScaledVector (ast_velocity a) forward flingSpeed in
                let v :=
                  addScaledVector v (playerVelocity r)
                    ASTEROID_FLING_PLAYER_VELOCITY_SHARE in
                let maxFlingSpeed := 46 + ast_radius a * 4.5 in
                set_ast_velocity
                  (if lengthSq v >? maxFlingSpeed * maxFlingSpeed
                   then setLength H v maxFlingSpeed else v) a in
              addEvent
                (set_asteroids (updateAsteroid id fling (asteroids r)) r)
                ("Grabber disengaged. Asteroid #" +:+ pretty (ast_id asteroid)
                 +:+ " slung forward.") info
          | None => addEvent r "Grabber disengaged." info
          end in
        set_grabbedAsteroidId None r
    | None =>
        match findNearestAsteroidForGrabber r with
        | Some (asteroid, surfaceDistance) =>
            if surfaceDistance <=? grabberRange r then
              addEvent
                (set_drillAccumulator 0
                   (set_grabbedAsteroidId (Some (ast_id asteroid)) r))
                ("Grabber latched asteroid #" +:+ pretty (ast_id asteroid)
                 +:+ ".") good
            else addEvent r "No asteroid in grabber range." alert
        | None => addEvent r "No asteroid in grabber range." alert
        end
    end.

Definition moveGrabbedAsteroid (r : GameRuntime) (dt : Q) : GameRuntime :=
  match grabbedAsteroidId r with
  | None => r
  | Some id =>
      match findAsteroid id (asteroids r) with
      | None => set_grabbedAsteroidId None r
      | Some _ =>
          let forward := getPlayerForward r in
          let pull (a : AsteroidSim) : AsteroidSim :=
            let anchorPoint :=
              addScaledVector (playerPosition r) forward
                (ast_radius a + 4.2) in
            let toAnchor := vsub anchorPoint (ast_position a) in
            let v :=
              addScaledVector (ast_velocity a) toAnchor
                (dt * GRABBER_ANCHOR_PULL) in
            set_ast_velocity
              (multiplyScalar v
                 (Math_exp H (- dt * GRABBED_ASTEROID_DAMPING_RATE))) a in
          set_asteroids (updateAsteroid id pull (asteroids r)) r
      end
  end.

(** ** Cargo *)

Fixpoint sampleLoop (roll cursor : Q) (composition : list (ResourceId * Q))
  (fallback : ResourceId) : ResourceId :=
  match composition with
  | [] => fallback
  | (resourceId, weight) :: rest =>
      let cursor := cursor + weight in
      if roll <=? cursor then resourceId
      else sampleLoop roll cursor rest fallback
  end.

(** [sampleAsteroidResource]; the fall-back is the last entry of the
    composition table, which [createAsteroid] always fills with six
    entries (the primary resource stands in for an empty table). *)
Definition sampleAsteroidResource (r : GameRuntime) (a : AsteroidSim)
  : GameRuntime * ResourceId :=
  let '(roll, state) := rngNext (rng r) in
  (set_rng state r,
   sampleLoop roll 0 (ast_composition a)
     (fst (List.last (ast_composition a) (ast_primaryResourceId a, 0)))).

Definition cargoFullMessage : string :=
  "Cargo hold at capacity. Return to freighter to unload.".

(** [addCargo] returns the number of units accepted. *)
Definition addCargo (r : GameRuntime) (resourceId : ResourceId) (units : Q)
  : GameRuntime * Q :=
  let def := RESOURCES resourceId in
  let remainingCapacity := Math_max 0 (cargoCapacity r - cargoUsed r) in
  let maxUnitsByCapacity := Math_floor (remainingCapacity / def_volume def) in
  let acceptedUnits := Math_min units maxUnitsByCapacity in
  if acceptedUnits <=? 0 then
    ((if negb (cargoFullWarned r)
      then set_cargoFullWarned true (addEvent r cargoFullMessage alert)
      else r), 0)
  else
    let volume := acceptedUnits * def_volume def in
    let bin := getBin (cargoBins r) resourceId in
    let bin :=
      {| bin_resourceId := bin_resourceId bin;
         bin_units := bin_units bin + acceptedUnits;
         bin_volume := bin_volume bin + volume;
         bin_value := bin_value bin + acceptedUnits * def_value def |} in
    let r := set_cargoBins (setBin (cargoBins r) resourceId bin) r in
    let r := set_cargoUsed (cargoUsed r + volume) r in
    let r := set_cargoValue (cargoValue r + acceptedUnits * def_value def) r in
    (r, acceptedUnits).

(** [Array.prototype.sort(compare)]: a stable sort; [compare a b <= 0]
    leaves [a] before [b]. *)
Fixpoint insertBy {A : Type} (compare : A -> A -> Q) (x : A) (l : list A)
  : list A :=
  match l with
  | [] => [x]
  | y :: rest =>
      if compare x y <=? 0 then x :: l else y :: insertBy compare x rest
  end.

Definition sortBy {A : Type} (compare : A -> A -> Q) (l : list A) : list A :=
  fold_right (insertBy compare) [] l.

(** The bins of the hold together with the key each is stored under: the
    sort of the take functions reorders references to the bins, and the
    updates go to the bin object that was picked. *)
Definition binEntries (bins : CargoBins) : list (ResourceId * CargoBin) :=
  map (fun id => (id, getBin bins id)) allResources.

Definition launchOrder (a b : ResourceId * CargoBin) : Q :=
  bin_value (snd b) / Math_max 1 (bin_units (snd b))
  - bin_value (snd a) / Math_max 1 (bin_units (snd a)).

Definition unloadOrder (a b : ResourceId * CargoBin) : Q :=
  def_value (RESOURCES (bin_resourceId (snd b)))
  - def_value (RESOURCES (bin_resourceId (snd a))).

Definition pickCandidate (compare : ResourceId * CargoBin ->
                                    ResourceId * CargoBin -> Q)
  (bins : CargoBins) : option (ResourceId * CargoBin) :=
  head (sortBy compare
          (List.filter (fun e => bin_units (snd e) >? 0) (binEntries bins))).

(** The common body of [takeCargoUnitForLaunch] and
    [takeCargoUnitForUnload] once the candidate is picked. *)
Definition takeUnit (r : GameRuntime) (candidate : ResourceId * CargoBin)
  : GameRuntime * ResourceId :=
  let '(key, bin) := candidate in
  let def := RESOURCES (bin_resourceId bin) in
  let bin :=
    {| bin_resourceId := bin_resourceId bin;
       bin_units := bin_units bin - 1;
       bin_volume := Math_max 0 (bin_volume bin - def_volume def);
       bin_value := Math_max 0 (bin_value bin - def_value def) |} in
  let r := set_cargoBins (setBin (cargoBins r) key bin) r in
  let r := set_cargoUsed (Math_max 0 (cargoUsed r - def_volume def)) r in
  let r := set_cargoValue (Math_max 0 (cargoValue r - def_value def)) r in
  let r := set_cargoFullWarned false r in
  (r, bin_resourceId bin).

Definition takeCargoUnitForLaunch (r : GameRuntime)
  : GameRuntime * option ResourceId :=
  match pickCandidate launchOrder (cargoBins r) with
  | None => (r, None)
  | Some candidate =>
      let '(r, id) := takeUnit r candidate in (r, Some id)
  end.

Definition takeCargoUnitForUnload (r : GameRuntime)
  : GameRuntime * option ResourceId :=
  match pickCandidate unloadOrder (cargoBins r) with
  | None => (r, None)
  | Some candidate =>
      let '(r, id) := takeUnit r candidate in (r, Some id)
  end.

(** ** Docked systems *)

(** The [while (runtime.unloadAccumulator >= 1)] loop.  Every iteration
    that does not leave the loop takes 1 off the accumulator, so the floor
    of the accumulator bounds the number of iterations. *)
Fixpoint unloadLoop (fuel : nat) (r : GameRuntime) : GameRuntime :=
  match fuel with
  | O => r
  | S fuel' =>
      if negb (unloadAccumulator r >=? 1) then r
      else if (0 <? powerballCargo r)%Z then
        let r := set_powerballCargo (powerballCargo r - 1)%Z r in
        let r :=
          set_deliveredPowerballScore (deliveredPowerballScore r + 1)%Z r in
        let r := set_unloadAccumulator (unloadAccumulator r - 1) r in
        let r :=
          addEvent r
            "Powerball transferred to freighter vault. Delivered score +1."
            good in
        unloadLoop fuel' r
      else
        match takeCargoUnitForUnload r with
        | (r, None) => r
        | (r, Some resourceId) =>
            let r := set_unloadAccumulator (unloadAccumulator r - 1) r in
            let r :=
              set_deliveredValue
                (deliveredValue r + def_value (RESOURCES resourceId)) r in
            unloadLoop fuel' r
        end
  end.

Definition loopBound (accumulator : Q) : nat := Z.to_nat (Qfloor accumulator).

Definition updateDockedSystems (r : GameRuntime) (dt : Q) : GameRuntime :=
  if negb (docked r) then r
  else
    let r :=
      set_playerPosition (vadd (freighterPosition r) (dockedPosition r)) r in
    let r := set_playerVelocity (mkV 0 0 0) r in
    let r := set_throttleLevel 0 r in
    let r := set_grabbedAsteroidId None r in
    let r := set_drillActive false r in
    let hadCargoBefore := (cargoValue r >? 0) || (0 <? powerballCargo r)%Z in
    let r :=
      set_unloadAccumulator
        (unloadAccumulator r + dt * DOCK_UNLOAD_UNITS_PER_SECOND) r in
    let r := unloadLoop (loopBound (unloadAccumulator r)) r in
    let r :=
      if hadCargoBefore && (cargoValue r <=? 0)
         && (powerballCargo r <=? 0)%Z
      then addEvent r "Cargo unload complete. Hold is now empty." good
      else r in
    let hullBefore := hull r in
    let r :=
      set_hull (Math_min (maxHull r) (hull r + DOCK_REPAIR_PER_SECOND * dt)) r in
    if (hullBefore <? maxHull r) && (hull r >=? maxHull r)
    then addEvent r "Hull repairs complete." good
    else r.

(** ** Launches *)

Definition launchCargoShot (r : GameRuntime) (ks : gmap string bool)
  : GameRuntime :=
  if negb (justPressed r ks "Space") then r
  else
    match takeCargoUnitForLaunch r with
    | (r, None) => addEvent r "Cargo launch failed. Hold is empty." alert
    | (r, Some resourceId) =>
        let r := set_cargoShotSerial (cargoShotSerial r + 1)%Z r in
        let forward := getPlayerForward r in
        let def := RESOURCES resourceId in
        let damage := 8 + def_value def / 12 in
        let shot :=
          {| shot_id := cargoShotSerial r;
             shot_shotType := cargoShot;
             shot_resourceId := Some resourceId;
             shot_position :=
               addScaledVector (playerPosition r) forward
                 (PLAYER_RADIUS + 1.1);
             shot_velocity :=
               vadd (multiplyScalar forward CARGO_SHOT_SPEED)
                 (playerVelocity r);
             shot_life := CARGO_SHOT_LIFETIME;
             shot_radius := CARGO_SHOT_RADIUS;
             shot_damage := damage;
             shot_delayBonus := 2 + damage * 0.16;
             shot_color := def_color def |} in
        let r := set_cargoShots (cargoShots r ++ [shot]) r in
        addEvent r (def_label def +:+ " canister launched.") info
    end.

Definition launchWeaponShot (r : GameRuntime) (ks : gmap string bool)
  : GameRuntime :=
  if negb (justPressed r ks "KeyQ") then r
  else if (weaponMaxAmmo r <=? 0) || (weaponDamage r <=? 0) then
    addEvent r "No weapon system installed." alert
  else if weaponAmmo r <=? 0 then
    addEvent r "Weapon ammo depleted." alert
  else
    let r := set_weaponAmmo (weaponAmmo r - 1) r in
    let r := set_cargoShotSerial (cargoShotSerial r + 1)%Z r in
    let forward := getPlayerForward r in
    let damage := weaponDamage r in
    let shot :=
      {| shot_id := cargoShotSerial r;
         shot_shotType := weaponShot;
         shot_resourceId := None;
         shot_position :=
           addScaledVector (playerPosition r) forward (PLAYER_RADIUS + 1.1);
         shot_velocity :=
           vadd (multiplyScalar forward (CARGO_SHOT_SPEED * 1.25))
             (playerVelocity r);
         shot_life := CARGO_SHOT_LIFETIME;
         shot_radius := CARGO_SHOT_RADIUS * 0.85;
         shot_damage := damage;
         shot_delayBonus := 1.2 + damage * 0.06;
         shot_color := "#ff955a" |} in
    set_cargoShots (cargoShots r ++ [shot]) r.

(** ** Drill *)

(** The [while (runtime.drillAccumulator >= 1)] loop on the grabbed
    asteroid [a]; the asteroid is written back by [updateDrill]. *)
Fixpoint drillLoop (fuel : nat) (r : GameRuntime) (a : AsteroidSim)
  : GameRuntime * AsteroidSim :=
  match fuel with
  | O => (r, a)
  | S fuel' =>
      if negb (drillAccumulator r >=? 1) then (r, a)
      else
        let r := set_drillAccumulator (drillAccumulator r - 1) r in
        let '(r, resourceId) := sampleAsteroidResource r a in
        let '(units, r) :=
          if ResourceId_eqb resourceId fringeRelic then (1, r)
          else
            let '(u, state) := rngNext (rng r) in
            (1 + Math_floor (u * 2), set_rng state r) in
        let '(r, minedUnits) := addCargo r resourceId units in
        if minedUnits <=? 0 then (set_drillActive false r, a)
        else
          let '(r, a) :=
            if ast_hasPowerball a && negb (ast_powerballRecovered a) then
              (addEvent (set_powerballCargo (powerballCargo r + 1)%Z r)
                 "Powerball recovered. Stowed aboard for delivery." good,
               set_ast_powerballRecovered true a)
            else (r, a) in
          let a := set_ast_oreReserve (ast_oreReserve a - 1) a in
          if ast_oreReserve a <=? 0 then
            let a := set_ast_oreReserve 0 a in
            let r :=
              set_asteroidDepletionSerial
                (asteroidDepletionSerial r + 1)%Z r in
            let r := set_grabbedAsteroidId None r in
            (addEvent r "Target asteroid depleted. Grabber auto-released."
               info, a)
          else drillLoop fuel' r a
  end.

Definition updateDrill (r : GameRuntime) (dt : Q) (ks : gmap string bool)
  : GameRuntime :=
  match grabbedAsteroidId r with
  | None => set_drillActive false r
  | Some id =>
      if negb (isDown ks "KeyF") then set_drillActive false r
      else
        let remainingCapacity := cargoCapacity r - cargoUsed r in
        if remainingCapacity <? MIN_RESOURCE_VOLUME then
          let r :=
            if negb (cargoFullWarned r) then
              set_cargoFullWarned true
                (addEvent r
                   "Cargo hold has no usable space left. Return to freighter to unload."
                   alert)
            else r in
          set_drillActive false r
        else
          match findAsteroid id (asteroids r) with
          | None => set_drillActive false (set_grabbedAsteroidId None r)
          | Some asteroid =>
              if ast_oreReserve asteroid <=? 0 then
                addEvent
                  (set_drillActive false (set_grabbedAsteroidId None r))
                  "Target asteroid depleted. Seek another vein." info
              else
                let r := set_drillActive true r in
                let r :=
                  set_drillAccumulator
                    (drillAccumulator r
                     + dt * ORE_EXTRACT_RATE * drillMultiplier r) r in
                let '(r, asteroid) :=
                  drillLoop (loopBound (drillAccumulator r)) r asteroid in
                set_asteroids
                  (updateAsteroid id (fun _ => asteroid) (asteroids r)) r
          end
  end.

(** ** Collisions *)

(** The body of the inner loop of [resolveAsteroidCollisions] for the
    pair [(a, b)]. *)
Definition collidePair (a b : AsteroidSim) : AsteroidSim * AsteroidSim :=
  let delta := vsub (ast_position a) (ast_position b) in
  let distance := Math_max (vlength H delta) 0.0001 in
  let minDistance := ast_radius a + ast_radius b in
  if distance >=? minDistance then (a, b)
  else
    let normal := multiplyScalar delta (1 / distance) in
    let overlap := minDistance - distance in
    let a :=
      set_ast_position
        (addScaledVector (ast_position a) normal (overlap * 0.5)) a in
    let b :=
      set_ast_position
        (addScaledVector (ast_position b) normal (- overlap * 0.5)) b in
    let relativeSpeed :=
      dot (vsub (ast_velocity a) (ast_velocity b)) normal in
    if relativeSpeed <? 0 then
      let impulse :=
        (- (1 + ASTEROID_COLLISION_RESTITUTION) * relativeSpeed) / 2 in
      (set_ast_velocity (addScaledVector (ast_velocity a) normal impulse) a,
       set_ast_velocity (addScaledVector (ast_velocity b) normal (- impulse))
         b)
    else (a, b).

(** The inner loop: [a] against every later asteroid, in order. *)
Fixpoint collideWith (a : AsteroidSim) (rest : list AsteroidSim)
  : AsteroidSim * list AsteroidSim :=
  match rest with
  | [] => (a, [])
  | b :: rest' =>
      let '(a, b) := collidePair a b in
      let '(a, rest') := collideWith a rest' in
      (a, b :: rest')
  end.

(** The outer loop, one asteroid per unit of [n]. *)
Fixpoint collideAll (n : nat) (l : list AsteroidSim) : list AsteroidSim :=
  match n, l with
  | S n', a :: rest =>
      let '(a, rest) := collideWith a rest in
      a :: collideAll n' rest
  | _, _ => l
  end.

Definition resolveAsteroidCollisions (r : GameRuntime) : GameRuntime :=
  set_asteroids (collideAll (List.length (asteroids r)) (asteroids r)) r.

(** The loop of [resolveAsteroidPirateImpacts] over the asteroids still to
    visit; it returns them as the loop leaves them. *)
Fixpoint asteroidPirateLoop (l : list AsteroidSim) (r : GameRuntime)
  : list AsteroidSim * GameRuntime :=
  match l with
  | [] => ([], r)
  | asteroid :: rest =>
      let delta := vsub (ast_position asteroid) (piratePosition r) in
      let distance := Math_max (vlength H delta) 0.0001 in
      let minDistance := ast_radius asteroid + PIRATE_RADIUS in
      if distance >=? minDistance then
        let '(rest, r) := asteroidPirateLoop rest r in (asteroid :: rest, r)
      else
        let normal := multiplyScalar delta (1 / distance) in
        let overlap := minDistance - distance in
        let asteroid :=
          set_ast_position
            (addScaledVector (ast_position asteroid) normal (overlap * 0.72))
            asteroid in
        let r :=
          set_piratePosition
            (addScaledVector (piratePosition r) normal (- overlap * 0.28))
            r in
        let relative := vsub (ast_velocity asteroid) (pirateVelocity r) in
        let impact := Math_max 0 (- dot relative normal) in
        let r :=
          if (pirateAsteroidGrace r <=? 0)
             && (impact >? ASTEROID_PIRATE_IMPACT_MIN_SPEED)
          then
            let massFactor := 0.7 + ast_radius asteroid * 0.32 in
            let '(roll, state) := randomRange (rng r) 14 21 in
            let r := set_rng state r in
            let pirateDamage := impact * roll * massFactor in
            let '(r, pirateDisabled) := applyPirateDamage r pirateDamage in
            let r :=
              if pirateDisabled then
                addEvent r
                  ("Asteroid strike shredded pirate hull (-"
                   +:+ toFixed H pirateDamage 0
                   +:+ "). Boarding threat ended.") good
              else
                let delay :=
                  Math_min 18
                    (4 + impact * 1.85 + ast_radius asteroid * 0.55) in
                let r :=
                  set_pirateBoardTimer (xadd (pirateBoardTimer r) delay) r in
                addEvent r
                  ("Asteroid impact on pirate: -"
                   +:+ toFixed H pirateDamage 0
                   +:+ " hull, boarding delayed +" +:+ toFixed H delay 1
                   +:+ "s.") good in
            set_pirateAsteroidGrace ASTEROID_PIRATE_IMPACT_GRACE r
          else r in
        let asteroid :=
          set_ast_velocity
            (addScaledVector (ast_velocity asteroid) normal (impact * 0.45))
            asteroid in
        if PirateState_eqb (pirateState r) incoming then
          let r :=
            set_pirateVelocity
              (addScaledVector (pirateVelocity r) normal (- impact * 0.9))
              r in
          let '(rest, r) := asteroidPirateLoop rest r in
          (asteroid :: rest, r)
        else (asteroid :: rest, r)
  end.

Definition resolveAsteroidPirateImpacts (r : GameRuntime) (dt : Q)
  : GameRuntime :=
  if negb (PirateState_eqb (pirateState r) incoming) then r
  else
    let r :=
      set_pirateAsteroidGrace (Math_max 0 (pirateAsteroidGrace r - dt)) r in
    let '(asts, r) := asteroidPirateLoop (asteroids r) r in
    set_asteroids asts r.

(** The loop of [resolvePlayerAsteroidImpacts]; the asteroids are only
    read. *)
Fixpoint playerAsteroidLoop (l : list AsteroidSim) (r : GameRuntime)
  : GameRuntime :=
  match l with
  | [] => r
  | asteroid :: rest =>
      let delta := vsub (playerPosition r) (ast_position asteroid) in
      let distance := Math_max (vlength H delta) 0.0001 in
      let minDistance := PLAYER_RADIUS + ast_radius asteroid in
      if distance >=? minDistance then playerAsteroidLoop rest r
      else
        let normal := multiplyScalar delta (1 / distance) in
        let overlap := minDistance - distance in
        let r :=
          set_playerPosition
            (addScaledVector (playerPosition r) normal (overlap + 0.05)) r in
        let relative := vsub (playerVelocity r) (ast_velocity asteroid) in
        let impact := Math_max 0 (- dot relative normal) in
        let r :=
          if (collisionGrace r <=? 0) && (impact >? 0.75) then
            let '(roll, state) := randomRange (rng r) 6.4 9.8 in
            let r := set_rng state r in
            let damage := impact * roll in
            let r := set_hull (Math_max 0 (hull r - damage)) r in
            let r := set_collisionGrace 0.33 r in
            addEvent r
              ("Hull impact registered (-" +:+ toFixed H damage 0 +:+ ").")
              alert
          else r in
        let r :=
          set_playerVelocity
            (addScaledVector (playerVelocity r) normal (impact * 0.45)) r in
        playerAsteroidLoop rest r
  end.

Definition resolvePlayerAsteroidImpacts (r : GameRuntime) (dt : Q)
  : GameRuntime :=
  let r := set_collisionGrace (Math_max 0 (collisionGrace r - dt)) r in
  playerAsteroidLoop (asteroids r) r.

Definition resolvePlayerPirateImpact (r : GameRuntime) (dt : Q)
  : GameRuntime :=
  if negb (PirateState_eqb (pirateState r) incoming) then r
  else
    let r := set_pirateRamGrace (Math_max 0 (pirateRamGrace r - dt)) r in
    let delta := vsub (playerPosition r) (piratePosition r) in
    let distance := Math_max (vlength H delta) 0.0001 in
    let minDistance := PLAYER_RADIUS + PIRATE_RADIUS in
    if distance >=? minDistance then r
    else
      let normal := multiplyScalar delta (1 / distance) in
      let overlap := minDistance - distance in
      let r :=
        set_playerPosition
          (addScaledVector (playerPosition r) normal (overlap * 0.65)) r in
      let r :=
        set_piratePosition
          (addScaledVector (piratePosition r) normal (- overlap * 0.35)) r in
      let relative := vsub (playerVelocity r) (pirateVelocity r) in
      let impact := Math_max 0 (- dot relative normal) in
      let r :=
        if (pirateRamGrace r <=? 0) && (impact >? RAM_DELAY_MIN_IMPACT) then
          let '(selfRoll, state) := randomRange (rng r) 4.6 7.2 in
          let r := set_rng state r in
          let playerDamage :=
            impact * selfRoll * rammerSelfDamageMultiplier r in
          let r := set_hull (Math_max 0 (hull r - playerDamage)) r in
          let '(ramRoll, state) := randomRange (rng r) 7.8 11.2 in
          let r := set_rng state r in
          let pirateDamage := impact * ramRoll * rammerDamageMultiplier r in
          let '(r, pirateDisabled) := applyPirateDamage r pirateDamage in
          let delay := Math_min 12 (3 + impact * 1.4) in
          let r := set_pirateBoardTimer (xadd (pirateBoardTimer r) delay) r in
          let r := set_pirateRamGrace 0.75 r in
          let delayLabel :=
            if pirateDisabled then "Boarding threat ended."
            else "Boarding delayed +" +:+ toFixed H delay 1 +:+ "s." in
          addEvent r
            ("Ramming impact: pirate -" +:+ toFixed H pirateDamage 0
             +:+ " hull, you -" +:+ toFixed H playerDamage 0 +:+ " hull. "
             +:+ delayLabel)
            (if pirateDisabled then good else alert)
        else r in
      let r :=
        set_playerVelocity
          (addScaledVector (playerVelocity r) normal (impact * 0.6)) r in
      if PirateState_eqb (pirateState r) incoming then
        set_pirateVelocity
          (addScaledVector (pirateVelocity r) normal (- impact * 0.5)) r
      else r.

(** ** Projectiles *)

Definition shotInBounds (p : Vector3) : bool :=
  (vx p >=? minX FLIGHT_BOUNDS - 28) && (vx p <=? maxX FLIGHT_BOUNDS + 28)
  && (vy p >=? minY FLIGHT_BOUNDS - 28) && (vy p <=? maxY FLIGHT_BOUNDS + 28)
  && (vz p >=? minZ FLIGHT_BOUNDS - 28) && (vz p <=? maxZ FLIGHT_BOUNDS + 28).

Definition advanceShot (shot : CargoShot) (dt : Q) : CargoShot :=
  {| shot_id := shot_id shot; shot_shotType := shot_shotType shot;
     shot_resourceId := shot_resourceId shot;
     shot_position :=
       addScaledVector (shot_position shot) (shot_velocity shot) dt;
     shot_velocity := shot_velocity shot;
     shot_life := shot_life shot - dt;
     shot_radius := shot_radius shot; shot_damage := shot_damage shot;
     shot_delayBonus := shot_delayBonus shot;
     shot_color := shot_color shot |}.

(** The loop of [updateCargoShots]; it returns [activeShots]. *)
Fixpoint cargoShotLoop (shots : list CargoShot) (dt : Q) (r : GameRuntime)
  : list CargoShot * GameRuntime :=
  match shots with
  | [] => ([], r)
  | shot :: rest =>
      let shot := advanceShot shot dt in
      if (shot_life shot <=? 0) || negb (shotInBounds (shot_position shot))
      then cargoShotLoop rest dt r
      else
        let '(hitPirate, r) :=
          if PirateState_eqb (pirateState r) incoming then
            let distance :=
              distanceTo H (shot_position shot) (piratePosition r) in
            if distance <=? shot_radius shot + PIRATE_RADIUS then
              let '(r, pirateDisabled) :=
                applyPirateDamage r (shot_damage shot) in
              let r :=
                set_pirateBoardTimer
                  (xadd (pirateBoardTimer r) (shot_delayBonus shot)) r in
              let r :=
                match shot_shotType shot, shot_resourceId shot with
                | weaponShot, _ =>
                    addEvent r
                      ("Weapon hit confirmed. Boarding delayed +"
                       +:+ toFixed H (shot_delayBonus shot) 1 +:+ "s.") good
                | cargoShot, Some resourceId =>
                    addEvent r
                      ("Pirate hit with "
                       +:+ def_label (RESOURCES resourceId)
                       +:+ ". Boarding delayed +"
                       +:+ toFixed H (shot_delayBonus shot) 1 +:+ "s.") good
                | cargoShot, None => r
                end in
              let r :=
                if pirateDisabled then set_pirateBoardTimer PosInf r
                else r in
              (true, r)
            else (false, r)
          else (false, r) in
        let '(activeShots, r) := cargoShotLoop rest dt r in
        (if hitPirate then activeShots else shot :: activeShots, r)
  end.

Definition updateCargoShots (r : GameRuntime) (dt : Q) : GameRuntime :=
  let '(activeShots, r) := cargoShotLoop (cargoShots r) dt r in
  set_cargoShots activeShots r.

(** ** Outcome *)

Definition hullBreachReason : string :=
  "Your mining craft vented atmosphere and went dark.".
Definition dockedWinReason : string :=
  "Freighter cleared the belt with you secured in docking clamps. You survived this run.".
Definition leftBehindReason : string :=
  "Freighter cleared the belt while you were undocked. You were left in the rocks.".

Definition evaluateMissionOutcome (r : GameRuntime) : GameRuntime :=
  if negb (GameStatus_eqb (status r) active) then r
  else if hull r <=? 0 then
    let r := set_outcomeReason hullBreachReason (set_status lost r) in
    addEvent r (outcomeReason r) alert
  else if missionSeconds r <=? 0 then
    if docked r then
      let r := set_outcomeReason dockedWinReason (set_status won r) in
      addEvent r (outcomeReason r) good
    else
      let r := set_outcomeReason leftBehindReason (set_status lost r) in
      addEvent r (outcomeReason r) alert
  else r.

(** ** The frame step *)

Definition stepRuntime (r : GameRuntime) (dtRaw : Q)
  (controlInput : ControlInput) : GameRuntime :=
  let ks := keys controlInput in
  if negb (GameStatus_eqb (status r) active) then updatePrevKeys r ks
  else
    let dt := Math_min dtRaw 0.05 in
    let r := set_elapsed (elapsed r + dt) r in
    let r := set_missionSeconds (missionSeconds r - dt * countdownRate r) r in
    let r := set_drillActive false r in
    let r := updateFreighterTransit r in
    let r := applyFreighterDockActions r ks in
    let r :=
      if docked r then updateDockedSystems r dt
      else
        let r := updatePlayerControlWithInput r dt controlInput in
        let r := updateGrabber r ks in
        let r := moveGrabbedAsteroid r dt in
        let r := launchCargoShot r ks in
        launchWeaponShot r ks in
    let r :=
      set_asteroids (map (fun a => updateAsteroidBody a dt) (asteroids r)) r in
    let r := resolveAsteroidCollisions r in
    let r := resolveAsteroidPirateImpacts r dt in
    let r :=
      if negb (docked r) then
        let r := resolvePlayerAsteroidImpacts r dt in
        let r := resolvePlayerPirateImpact r dt in
        updateDrill r dt ks
      else r in
    let r := updateCargoShots r dt in
    let r := updatePirate r dt in
    let r := evaluateMissionOutcome r in
    updatePrevKeys r ks.

(** A run: [createRuntime] followed by one [stepRuntime] call per recorded
    frame [(dt, input)]. *)
Definition stepAll (r : GameRuntime) (frames : list (Q * ControlInput))
  : GameRuntime :=
  fold_left (fun r frame => stepRuntime r (fst frame) (snd frame)) frames r.

Definition run (seed : Z) (modifiers : RunModifiers)
  (frames : list (Q * ControlInput)) : GameRuntime :=
  stepAll (createRuntime seed modifiers) frames.

End Runtime.

(** ** A reference host

    Rational approximations of the host functions, used to run the model on
    concrete inputs. *)

Definition fixedPoint : Z := 1000000.

(** Round to six decimals. *)
Definition roundQ (q : Q) : Q :=
  Qmake (Qfloor (q * inject_Z fixedPoint)) (Z.to_pos fixedPoint).

(** Keep the leading 96 bits of the denominator (and as many bits of the
    numerator below them): a cheap rational approximation. *)
Definition truncateQ (q : Q) : Q :=
  let shift := Z.max 0 (Z.log2 (Zpos (Qden q)) - 96) in
  Qmake (Z.shiftr (Qnum q) shift) (Z.to_pos (Z.shiftr (Zpos (Qden q)) shift)).

Definition refSqrt (q : Q) : Q :=
  Qmake (Z.sqrt (Qfloor (truncateQ q * inject_Z (fixedPoint * fixedPoint))))
    (Z.to_pos fixedPoint).

(** Truncated power series, evaluated by Horner's rule; the intermediate
    sums keep 24 decimals. *)
Definition roundFine (q : Q) : Q :=
  Qmake (Qfloor (q * inject_Z (10 ^ 24))) (10 ^ 24).

Fixpoint hornerSum (coefficient : nat -> Q) (x : Q) (n k : nat) : Q :=
  match n with
  | O => 0
  | S n' =>
      roundFine (coefficient k + x * hornerSum coefficient x n' (S k))
  end.

Definition series (coefficient : nat -> Q) (x : Q) (n k : nat) : Q :=
  roundQ (hornerSum coefficient x n k).

Definition refPI : Q := 3.141593.

(** Reduce an angle to [-PI, PI]. *)
Definition reduceAngle (x : Q) : Q :=
  x - inject_Z (Qfloor ((x + refPI) / (2 * refPI))) * (2 * refPI).

Fixpoint factorial (n : nat) : Z :=
  match n with O => 1 | S n' => (Z.of_nat n * factorial n')%Z end.

Definition sinCoefficient (k : nat) : Q :=
  if Nat.even k then 0
  else Qmake (if Nat.even (Nat.div2 k) then 1 else -1)
         (Z.to_pos (factorial k)).

Definition cosCoefficient (k : nat) : Q :=
  if Nat.even k
  then Qmake (if Nat.even (Nat.div2 k) then 1 else -1)
         (Z.to_pos (factorial k))
  else 0.

Definition expCoefficient (k : nat) : Q := Qmake 1 (Z.to_pos (factorial k)).

Definition refSin (x : Q) : Q := series sinCoefficient (roundQ (reduceAngle x)) 24 0.
Definition refCos (x : Q) : Q := series cosCoefficient (roundQ (reduceAngle x)) 24 0.

(** [exp] for the small arguments the runtime passes: the series on the
    fractional part, times a power of [e] for the integer part. *)
Definition refE : Q := 2.718282.
Definition refExp (x : Q) : Q :=
  let n := Qfloor x in
  let frac := series expCoefficient (roundQ (x - inject_Z n)) 14 0 in
  roundQ (frac * Qpower refE n).

(** [pow] near the only base the runtime uses, by
    [b^e = exp (e * ln b)] with [ln b] from its series around 1. *)
Definition refLn (b : Q) : Q :=
  let u := b - 1 in
  roundQ (u - u * u / 2 + u * u * u / 3 - u * u * u * u / 4).
Definition refPow (b e : Q) : Q := refExp (e * refLn b).

(** Decimal rendering of a number rounded to [digits] decimals. *)
Definition refToFixed (q : Q) (digits : nat) : string :=
  let scale := (10 ^ Z.of_nat digits)%Z in
  let n := Qfloor (q * inject_Z scale + 0.5) in
  let whole := (Z.abs n / scale)%Z in
  let part := (Z.abs n mod scale)%Z in
  ((if (n <? 0)%Z then "-" else "") +:+ pretty whole
   +:+ (match digits with
        | O => ""
        | _ =>
            "." +:+ String.concat ""
                      (List.repeat "0"
                         (digits - String.length (pretty part)))
            +:+ pretty part
        end))%string.

Definition refHost : Host :=
  {| Math_sqrt := refSqrt; Math_sin := refSin; Math_cos := refCos;
     Math_exp := refExp; Math_pow := refPow; Math_PI := refPI;
     toFixed := refToFixed |}.

Definition noModifiers : RunModifiers :=
  {| mod_grabberRange := None; mod_thrusterMultiplier := None;
     mod_drillMultiplier := None; mod_maxHull := None;
     mod_cargoCapacity := None; mod_weaponAmmo := None;
     mod_weaponDamage := None; mod_rammerDamageMultiplier := None;
     mod_rammerSelfDamageMultiplier := None;
     mod_pirateEncounterChance := None |}.

Definition pressed (codes : list string) : ControlInput :=
  {| keys := list_to_map (map (fun c => (c, true)) codes) |}.

(** ** Invariants *)

(** A number that is a non-negative integer. *)
Definition isCount (q : Q) : Prop := exists n : Z, (0 <= n)%Z /\ q == inject_Z n.

(** The bin stored under [key] is the bin of that resource, holds a whole
    number of units, and its aggregates agree with the unit count. *)
Definition BinOk (key : ResourceId) (b : CargoBin) : Prop :=
  bin_resourceId b = key /\ isCount (bin_units b)
  /\ bin_volume b == bin_units b * def_volume (RESOURCES key)
  /\ bin_value b == bin_units b * def_value (RESOURCES key).

Definition BinsOk (bins : CargoBins) : Prop :=
  forall key, BinOk key (getBin bins key).

(** The sum over all bins of [bin.units] times the unit volume of the bin's
    resource. *)
Definition holdVolume (bins : CargoBins) : Q :=
  fold_right
    (fun bin acc =>
       bin_units bin * def_volume (RESOURCES (bin_resourceId bin)) + acc)
    0 (binValues bins).

Definition CargoInv (r : GameRuntime) : Prop :=
  BinsOk (cargoBins r) /\ cargoUsed r == holdVolume (cargoBins r)
  /\ (0 <= cargoCapacity r -> cargoUsed r <= cargoCapacity r).

Definition HullInv (r : GameRuntime) : Prop :=
  0 <= hull r /\ hull r <= maxHull r
  /\ 0 <= rammerSelfDamageMultiplier r.

Definition terminalPirate (s : PirateState) : Prop :=
  s = disabled \/ s = boarding.

(** The fields no function assigns after construction. *)
Definition fixedFields (r : GameRuntime) :=
  (cargoCapacity r, maxHull r, weaponMaxAmmo r, weaponDamage r,
   rammerDamageMultiplier r, rammerSelfDamageMultiplier r, grabberRange r,
   thrusterMultiplier r, drillMultiplier r, pirateTriggerAt r,
   pirateMaxHull r, countdownRate r, runId r).

(** What a frame keeps true of the runtime [r] it produces from [r0];
    [timeOk] stands for the frame's time step being non-negative. *)
Definition Keeps (timeOk : Prop) (r0 r : GameRuntime) : Prop :=
  fixedFields r = fixedFields r0
  /\ (CargoInv r0 -> CargoInv r)
  /\ (timeOk -> HullInv r0 -> HullInv r)
  /\ weaponAmmo r <= weaponAmmo r0
  /\ (isCount (weaponAmmo r0) -> isCount (weaponAmmo r))
  /\ (terminalPirate (pirateState r0) -> pirateState r = pirateState r0).

(** The same for the part of a frame before the outcome is evaluated, where
    the status can only turn to [lost]. *)
Definition Evolves (timeOk : Prop) (r0 r : GameRuntime) : Prop :=
  Keeps timeOk r0 r /\ (status r = status r0 \/ status r = lost).

(** ** Runs and the properties claimed of them *)



(** Every recorded time step is non-negative. *)
Definition nonNegativeSteps (frames : list (Q * ControlInput)) : Prop :=
  Forall (fun frame => 0 <= fst frame) frames.



(** The pirate has boarded and the run is lost. *)
Definition boardedAndLost (r : GameRuntime) : Prop :=
  pirateState r = boarding /\ status r = lost.

(** The field read by [field] holds [v]. *)
Definition fieldIs {A : Type} (field : GameRuntime -> A) (v : A)
  (r : GameRuntime) : Prop :=
  field r = v.




(** The first statements of one iteration of the drill loop on the grabbed
    asteroid [a]: the accumulator gives up one unit of progress, a resource
    is sampled, a unit count is rolled and [addCargo] is called.  The result
    is the runtime after [addCargo] and the number of units it accepted. *)
Definition extractionTick (r : GameRuntime) (a : AsteroidSim)
  : GameRuntime * Q :=
  let r := set_drillAccumulator (drillAccumulator r - 1) r in
  let '(r, resourceId) := sampleAsteroidResource r a in
  let '(units, r) :=
    if ResourceId_eqb resourceId fringeRelic then (1, r)
    else
      let '(u, state) := rngNext (rng r) in
      (1 + Math_floor (u * 2), set_rng state r) in
  addCargo r resourceId units.

(** What [createRuntime] writes into the fields the invariants read. *)
Definition initialFields (modifiers : RunModifiers) (r : GameRuntime)
  : Prop :=
  grabberRange r = modifier (mod_grabberRange modifiers) BASE_GRABBER_RANGE
  /\ thrusterMultiplier r
     = modifier (mod_thrusterMultiplier modifiers) BASE_THRUSTER_MULTIPLIER
  /\ drillMultiplier r
     = modifier (mod_drillMultiplier modifiers) BASE_DRILL_MULTIPLIER
  /\ maxHull r = modifier (mod_maxHull modifiers) BASE_MAX_HULL
  /\ hull r = modifier (mod_maxHull modifiers) BASE_MAX_HULL
  /\ cargoCapacity r
     = modifier (mod_cargoCapacity modifiers) BASE_CARGO_CAPACITY
  /\ weaponAmmo r = modifier (mod_weaponAmmo modifiers) BASE_WEAPON_AMMO
  /\ weaponMaxAmmo r = modifier (mod_weaponAmmo modifiers) BASE_WEAPON_AMMO
  /\ weaponDamage r = modifier (mod_weaponDamage modifiers) BASE_WEAPON_DAMAGE
  /\ rammerDamageMultiplier r
     = Math_max 1
         (modifier (mod_rammerDamageMultiplier modifiers)
            BASE_RAMMER_DAMAGE_MULTIPLIER)
  /\ rammerSelfDamageMultiplier r
     = clamp
         (modifier (mod_rammerSelfDamageMultiplier modifiers)
            BASE_RAMMER_SELF_DAMAGE_MULTIPLIER) 0.2 1
  /\ cargoBins r = createCargoBins /\ cargoUsed r = 0
  /\ status r = active /\ pirateState r = quiet.

(** *** Concrete inputs *)



Definition withWeapon (ammo damage : Q) : RunModifiers :=
  {| mod_grabberRange := None; mod_thrusterMultiplier := None;
     mod_drillMultiplier := None; mod_maxHull := None;
     mod_cargoCapacity := None; mod_weaponAmmo := Some ammo;
     mod_weaponDamage := Some damage; mod_rammerDamageMultiplier := None;
     mod_rammerSelfDamageMultiplier := None;
     mod_pirateEncounterChance := None |}.


(** The run of the reference host with seed 1 and the default modifiers. *)
Definition sampleRuntime : GameRuntime := createRuntime refHost 1 noModifiers.

(** Two recorded frames: thrust, then thrust and a cargo launch. *)
Definition sampleFrames : list (Q * ControlInput) :=
  [(0.016, pressed ["KeyW"]); (0.016, pressed ["KeyW"; "Space"])].


(** [n] single units of water ice mined into the hold. *)
Definition loadIce (n : nat) (r : GameRuntime) : GameRuntime :=
  Nat.iter n (fun s => fst (addCargo s waterIce 1)) r.

(** A hold with 125 of 130 volume units used, the same hold after a fringe
    relic was refused, and the call that then stows one xeno crystal. *)
Definition nearlyFull : GameRuntime := loadIce 25 sampleRuntime.
Definition warned : GameRuntime := fst (addCargo nearlyFull fringeRelic 1).
Definition topped : GameRuntime * Q := addCargo warned xenoCrystal 1.

(** A full hold with one unit of drill progress, and an asteroid of scrap
    iron. *)
Definition fullHold : GameRuntime :=
  set_drillAccumulator 1 (loadIce 26 sampleRuntime).

Definition sampleAsteroid : AsteroidSim :=
  {| ast_id := 0; ast_radius := 2; ast_position := mkV 0 0 0;
     ast_velocity := mkV 0 0 0; ast_rotationSpeed := mkV 0 0 0;
     ast_oreReserve := 7; ast_maxOreReserve := 7;
     ast_primaryResourceId := scrapIron; ast_hasPowerball := false;
     ast_powerballRecovered := false;
     ast_composition := [(scrapIron, 1)]; ast_baseColor := "#7c674f" |}.

(** A hold with two units of water ice and one xeno crystal. *)
Definition loadedRuntime : GameRuntime :=
  fst (addCargo (fst (addCargo sampleRuntime waterIce 2)) xenoCrystal 1).

(** A pirate about to board, a breached hull, a finished run and a disabled
    pirate. *)
Definition boardingRuntime : GameRuntime :=
  set_pirateBoardTimer (Fin 0.01) (set_pirateState incoming sampleRuntime).
Definition breachedRuntime : GameRuntime := set_hull 0 sampleRuntime.
Definition wonRuntime : GameRuntime := set_status won sampleRuntime.
Definition disabledRuntime : GameRuntime :=
  set_pirateState disabled sampleRuntime.

(** ** Further definitions: loops, frames, the event log, the hangar and the
    HUD *)

(** The result of the [n+1]-th call of the generator, with the state after
    it. *)
Fixpoint drawN (n : nat) (state : Z) : Q * Z :=
  match n with
  | O => rngNext state
  | S n' => drawN n' (snd (rngNext state))
  end.



(** The [while] loop of the docked unload has nothing more to do: less than
    one unit of progress is left, or no powerball and no cargo unit is. *)
Definition unloadDone (r : GameRuntime) : Prop :=
  unloadAccumulator r < 1
  \/ ((powerballCargo r <= 0)%Z
      /\ forall key, ~ 0 < bin_units (getBin (cargoBins r) key)).

(** The [while] loop of the drill has nothing more to do: less than one
    unit of progress is left, the hold refused the ore, or the asteroid is
    depleted and released. *)
Definition drillDone (p : GameRuntime * AsteroidSim) : Prop :=
  drillAccumulator (fst p) < 1
  \/ drillActive (fst p) = false
  \/ (ast_oreReserve (snd p) = 0 /\ grabbedAsteroidId (fst p) = None).

(** The value of the units in the bins. *)
Definition holdValue (bins : CargoBins) : Q :=
  fold_right
    (fun bin acc =>
       bin_units bin * def_value (RESOURCES (bin_resourceId bin)) + acc)
    0 (binValues bins).

(** [cargoValue] is the value of the units in the bins. *)
Definition ValueInv (r : GameRuntime) : Prop :=
  BinsOk (cargoBins r) /\ cargoValue r == holdValue (cargoBins r).

(** What a collision leaves alone in an asteroid. *)
Definition asteroidBody (a : AsteroidSim) :=
  (ast_id a, ast_radius a, ast_oreReserve a, ast_maxOreReserve a,
   ast_primaryResourceId a, ast_hasPowerball a, ast_powerballRecovered a).

(** The sum of the velocities of the asteroids (they have one mass). *)
Definition totalVelocity (l : list AsteroidSim) : Vector3 :=
  fold_right (fun a acc => vadd (ast_velocity a) acc) (mkV 0 0 0) l.

(** Equality of vectors, component by component. *)
Definition veq (u v : Vector3) : Prop :=
  vx u == vx v /\ vy u == vy v /\ vz u == vz v.

(** The test of [updateCargoShots] that keeps a projectile. *)
Definition shotAlive (shot : CargoShot) : bool :=
  negb ((shot_life shot <=? 0) || negb (shotInBounds (shot_position shot))).

(** The total weight of a composition table. *)
Definition totalWeight (composition : list (ResourceId * Q)) : Q :=
  fold_right (fun c acc => snd c + acc) 0 composition.

(** An asteroid as [createAsteroid] makes it. *)
Definition freshAsteroid (a : AsteroidSim) : Prop :=
  1.7 <= ast_radius a /\ ast_radius a <= 5.4
  /\ 3 <= ast_oreReserve a /\ isCount (ast_oreReserve a)
  /\ ast_maxOreReserve a = ast_oreReserve a
  /\ ast_powerballRecovered a = false
  /\ -54 <= vx (ast_position a) /\ vx (ast_position a) <= 78
  /\ -30 <= vy (ast_position a) /\ vy (ast_position a) <= 30
  /\ -60 <= vz (ast_position a) /\ vz (ast_position a) <= 60
  /\ List.length (ast_composition a) = 6%nat
  /\ Forall (fun c => 0 < snd c) (ast_composition a)
  /\ 1 <= totalWeight (ast_composition a)
  /\ ast_baseColor a = def_color (RESOURCES (ast_primaryResourceId a)).

(** The ids of the asteroids, in the order of the list. *)
Definition asteroidIds (r : GameRuntime) : list Z := map ast_id (asteroids r).

(** The event log holds at most six events, newest first with strictly
    decreasing ids, none above [eventSerial]. *)
Definition LogOk (r : GameRuntime) : Prop :=
  (List.length (events r) <= 6)%nat
  /\ StronglySorted (fun a b => (ev_id b < ev_id a)%Z) (events r)
  /\ Forall (fun e => (ev_id e <= eventSerial r)%Z) (events r).

(** What the functions of a frame keep from [r0] to [r]: the clock, the
    asteroid ids, the shape of the event log, counters that only grow, and
    the value invariant.  Four more clauses hold for most functions and are
    switched on by a flag each: the freighter stays where it is ([fr]); the
    docking state stays, and nothing is banked while undocked ([dk]); a
    quiet pirate stays quiet and the status stays ([pr]); the recorded keys
    stay ([ky]). *)
Definition Steady (fr dk pr ky : Prop) (r0 r : GameRuntime) : Prop :=
  elapsed r = elapsed r0 /\ missionSeconds r = missionSeconds r0
  /\ pirateTriggerAt r = pirateTriggerAt r0
  /\ asteroidIds r = asteroidIds r0
  /\ (LogOk r0 -> LogOk r)
  /\ (eventSerial r0 <= eventSerial r)%Z
  /\ (cargoShotSerial r0 <= cargoShotSerial r)%Z
  /\ deliveredValue r0 <= deliveredValue r
  /\ (deliveredPowerballScore r0 <= deliveredPowerballScore r)%Z
  /\ (ValueInv r0 -> ValueInv r)
  /\ (fr -> freighterPosition r = freighterPosition r0)
  /\ (dk -> docked r = docked r0)
  /\ (dk -> docked r0 = false -> deliveredValue r = deliveredValue r0)
  /\ (dk -> docked r0 = false ->
      deliveredPowerballScore r = deliveredPowerballScore r0)
  /\ (pr -> pirateState r0 = quiet -> pirateState r = quiet)
  /\ (pr -> status r = status r0)
  /\ (ky -> prevKeys r = prevKeys r0).

(** The first assignments of an active frame: the clock advances by [dt],
    the countdown by [dt] times its rate, and the drill is switched off. *)
Definition frameStart (r : GameRuntime) (dt : Q) : GameRuntime :=
  let r := set_elapsed (elapsed r + dt) r in
  let r := set_missionSeconds (missionSeconds r - dt * countdownRate r) r in
  set_drillActive false r.

(** The runtime after the freighter has moved and the dock key was
    handled. *)
Definition afterDocking (H : Host) (r : GameRuntime) (dt : Q)
  (ks : gmap string bool) : GameRuntime :=
  applyFreighterDockActions H (updateFreighterTransit (frameStart r dt)) ks.

(** The last three calls of an active frame, on the runtime [s] the others
    leave. *)
Definition frameEnd (H : Host) (s : GameRuntime) (dt : Q)
  (ks : gmap string bool) : GameRuntime :=
  updatePrevKeys (evaluateMissionOutcome (updatePirate H s dt)) ks.

(** [out] is the end of a frame whose middle part, from [start], is
    steady. *)
Definition reaches (H : Host) (dt : Q) (ks : gmap string bool)
  (start out : GameRuntime) : Prop :=
  exists s, out = frameEnd H s dt ks /\ Steady True True True True start s.

(** The pirate is incoming with the boarding timer [timer], and the status
    is [st]. *)
Definition armedPirate (st : GameStatus) (timer : xnum) (r : GameRuntime)
  : Prop :=
  pirateState r = incoming /\ status r = st /\ pirateBoardTimer r = timer.

(** The status is [st], or the pirate has boarded and the run is lost. *)
Definition boardedOr (st : GameStatus) (r : GameRuntime) : Prop :=
  status r = st \/ boardedAndLost r.

(** What holds of every reachable runtime besides the bounds on cargo, hull
    and ammunition: the event log is well formed and not empty in its numbering, the cargo
    value is the value of the units in the bins, and the asteroids are the
    initial ones, in their order. *)
Definition RunInv (r : GameRuntime) : Prop :=
  LogOk r /\ (1 <= eventSerial r)%Z /\ ValueInv r
  /\ asteroidIds r = map Z.of_nat (seq 0 ASTEROID_COUNT)
  /\ 0 <= deliveredValue r /\ (0 <= deliveredPowerballScore r)%Z.

(** ** Upgrade levels and the launch of a run ([game/upgrades.ts], [App.tsx]) *)

(** [UpgradeLevels]: a level for each upgrade key. *)
Record UpgradeLevels : Type := {
  lv_grabber : Q;
  lv_thruster : Q;
  lv_drill : Q;
  lv_hull : Q;
  lv_cargo : Q;
  lv_weapons : Q
}.

Definition createBaseUpgradeLevels : UpgradeLevels :=
  {| lv_grabber := 0; lv_thruster := 0; lv_drill := 0; lv_hull := 0;
     lv_cargo := 0; lv_weapons := 0 |}.

(** The object [buildRunModifiers] returns has no rammer field. *)
Definition buildRunModifiers (levels : UpgradeLevels) : RunModifiers :=
  let weaponLevel := lv_weapons levels in
  {| mod_grabberRange := Some (7.5 + lv_grabber levels * 1.3);
     mod_thrusterMultiplier := Some (1 + lv_thruster levels * 0.13);
     mod_drillMultiplier := Some (1 + lv_drill levels * 0.17);
     mod_maxHull := Some (100 + lv_hull levels * 18);
     mod_cargoCapacity := Some (130 + lv_cargo levels * 26);
     mod_weaponAmmo :=
       Some (if weaponLevel >? 0 then 6 + weaponLevel * 6 else 0);
     mod_weaponDamage :=
       Some (if weaponLevel >? 0 then 14 + weaponLevel * 10 else 0);
     mod_rammerDamageMultiplier := None;
     mod_rammerSelfDamageMultiplier := None;
     mod_pirateEncounterChance := Some 1 |}.

(** The modifiers [launchRun] of [App.tsx] gives to [createRuntime]:
    [{ ...buildRunModifiers(loadoutLevels), pirateEncounterChance }]. *)
Definition launchModifiers (levels : UpgradeLevels) (encounterChance : Q)
  : RunModifiers :=
  let built := buildRunModifiers levels in
  {| mod_grabberRange := mod_grabberRange built;
     mod_thrusterMultiplier := mod_thrusterMultiplier built;
     mod_drillMultiplier := mod_drillMultiplier built;
     mod_maxHull := mod_maxHull built;
     mod_cargoCapacity := mod_cargoCapacity built;
     mod_weaponAmmo := mod_weaponAmmo built;
     mod_weaponDamage := mod_weaponDamage built;
     mod_rammerDamageMultiplier := mod_rammerDamageMultiplier built;
     mod_rammerSelfDamageMultiplier := mod_rammerSelfDamageMultiplier built;
     mod_pirateEncounterChance := Some encounterChance |}.

(** Levels as the hangar has them: whole and not negative. *)
Definition wholeLevels (levels : UpgradeLevels) : Prop :=
  isCount (lv_grabber levels) /\ isCount (lv_thruster levels)
  /\ isCount (lv_drill levels) /\ isCount (lv_hull levels)
  /\ isCount (lv_cargo levels) /\ isCount (lv_weapons levels).

(** ** The HUD snapshot *)

Record HudResourceBin : Type := {
  hb_resourceId : ResourceId;
  hb_label : string;
  hb_units : Q;
  hb_volume : Q;
  hb_value : Q;
  hb_color : string
}.

Record HudSnapshot : Type := {
  hud_runId : Z;
  hud_status : GameStatus;
  hud_outcomeReason : string;
  hud_elapsed : Q;
  hud_missionSeconds : Q;
  hud_hull : Q;
  hud_maxHull : Q;
  hud_throttleLevel : Q;
  hud_cargoUsed : Q;
  hud_cargoCapacity : Q;
  hud_cargoValue : Q;
  hud_deliveredValue : Q;
  hud_powerballCargo : Z;
  hud_deliveredPowerballScore : Z;
  hud_distanceToFreighter : Q;
  hud_freighterRelativeAngleDeg : Q;
  hud_docked : bool;
  hud_dockUnloadProgress : Q;
  hud_dockRepairProgress : Q;
  hud_dockUnloadRemainingUnits : Q;
  hud_dockRepairRemainingHull : Q;
  hud_grabbedAsteroidId : option Z;
  hud_drillActive : bool;
  hud_grabberRange : Q;
  hud_grabberReady : bool;
  hud_grabberTargetId : option Z;
  hud_grabberTargetDistance : option Q;
  hud_pirateState : PirateState;
  hud_pirateBoardEta : xnum;
  hud_pirateHull : Q;
  hud_pirateMaxHull : Q;
  hud_weaponAmmo : Q;
  hud_weaponMaxAmmo : Q;
  hud_resourceBins : list HudResourceBin;
  hud_events : list EventEntry
}.

Definition toProgress (value : Q) : Q := clamp value 0 1.

(** [Vector3.setY] *)
Definition setY (a : Vector3) (y : Q) : Vector3 := mkV (vx a) y (vz a).

(** The comparator of [createHudResourceBins]: [b.value - a.value]. *)
Definition hudOrder (a b : CargoBin) : Q := bin_value b - bin_value a.

Definition hudBin (bin : CargoBin) : HudResourceBin :=
  {| hb_resourceId := bin_resourceId bin;
     hb_label := def_label (RESOURCES (bin_resourceId bin));
     hb_units := bin_units bin;
     hb_volume := bin_volume bin;
     hb_value := bin_value bin;
     hb_color := def_color (RESOURCES (bin_resourceId bin)) |}.

Definition createHudResourceBins (r : GameRuntime) : list HudResourceBin :=
  map hudBin
    (sortBy hudOrder
       (List.filter (fun bin => bin_units bin >? 0) (binValues (cargoBins r)))).

Section Hud.
Variable H : Host.
(** [Math.atan2] *)
Variable Math_atan2 : Q -> Q -> Q.

Definition freighterRelativeAngle (r : GameRuntime) : Q :=
  let toFreighterFlat :=
    setY (vsub (freighterPosition r) (playerPosition r)) 0 in
  let playerForwardFlat := setY (getPlayerForward H r) 0 in
  if (lengthSq toFreighterFlat >? 0.0001)
     && (lengthSq playerForwardFlat >? 0.0001)
  then
    let toFreighterFlat := normalize H toFreighterFlat in
    let playerForwardFlat := normalize H playerForwardFlat in
    let crossY :=
      vx playerForwardFlat * vz toFreighterFlat
      - vz playerForwardFlat * vx toFreighterFlat in
    let d := clamp (dot playerForwardFlat toFreighterFlat) (-1) 1 in
    Math_atan2 crossY d * (180 / Math_PI H)
  else 0.

Definition createHudSnapshot (r : GameRuntime) : HudSnapshot :=
  let pirateBoardEta :=
    if PirateState_eqb (pirateState r) incoming
    then xmax0 (pirateBoardTimer r) else PosInf in
  let cargoUnits := getCargoUnitCount r + inject_Z (powerballCargo r) in
  let currentHullDeficit := Math_max 0 (maxHull r - hull r) in
  let dockUnloadProgress :=
    if dockUnloadStartUnits r <=? 0 then 1
    else toProgress ((dockUnloadStartUnits r - cargoUnits)
                     / dockUnloadStartUnits r) in
  let dockRepairProgress :=
    if dockRepairStartDeficit r <=? 0 then 1
    else toProgress ((dockRepairStartDeficit r - currentHullDeficit)
                     / dockRepairStartDeficit r) in
  let freighterRelativeAngleDeg := freighterRelativeAngle r in
  let nearestGrabberTarget := findNearestAsteroidForGrabber H r in
  let grabberReady :=
    match nearestGrabberTarget with
    | Some (_, surfaceDistance) => surfaceDistance <=? grabberRange r
    | None => false
    end in
  {| hud_runId := runId r;
     hud_status := status r;
     hud_outcomeReason := outcomeReason r;
     hud_elapsed := elapsed r;
     hud_missionSeconds := Math_max 0 (missionSeconds r);
     hud_hull := hull r;
     hud_maxHull := maxHull r;
     hud_throttleLevel := throttleLevel r;
     hud_cargoUsed := cargoUsed r;
     hud_cargoCapacity := cargoCapacity r;
     hud_cargoValue := cargoValue r;
     hud_deliveredValue := deliveredValue r;
     hud_powerballCargo := powerballCargo r;
     hud_deliveredPowerballScore := deliveredPowerballScore r;
     hud_distanceToFreighter :=
       distanceTo H (playerPosition r) (freighterPosition r);
     hud_freighterRelativeAngleDeg := freighterRelativeAngleDeg;
     hud_docked := docked r;
     hud_dockUnloadProgress := dockUnloadProgress;
     hud_dockRepairProgress := dockRepairProgress;
     hud_dockUnloadRemainingUnits := cargoUnits;
     hud_dockRepairRemainingHull := currentHullDeficit;
     hud_grabbedAsteroidId := grabbedAsteroidId r;
     hud_drillActive := drillActive r;
     hud_grabberRange := grabberRange r;
     hud_grabberReady := grabberReady;
     hud_grabberTargetId :=
       match nearestGrabberTarget with
       | Some (asteroid, _) => Some (ast_id asteroid)
       | None => None
       end;
     hud_grabberTargetDistance :=
       match nearestGrabberTarget with
       | Some (_, surfaceDistance) => Some (Math_max 0 surfaceDistance)
       | None => None
       end;
     hud_pirateState := pirateState r;
     hud_pirateBoardEta := pirateBoardEta;
     hud_pirateHull := pirateHull r;
     hud_pirateMaxHull := pirateMaxHull r;
     hud_weaponAmmo := weaponAmmo r;
     hud_weaponMaxAmmo := weaponMaxAmmo r;
     hud_resourceBins := createHudResourceBins r;
     hud_events := events r |}.

End Hud.

(** The distance from the player to the surface of an asteroid, as
    [findNearestAsteroidForGrabber] measures it. *)
Definition surfaceDistanceOf (H : Host) (r : GameRuntime) (a : AsteroidSim)
  : Q :=
  distanceTo H (ast_position a) (playerPosition r) - ast_radius a.

(** A rational approximation of [Math.atan2] for concrete inputs:
    [atan t] is [t / (1 + 0.28125 t^2)] on [[-1, 1]], extended by
    quadrant. *)
Definition refAtan (t : Q) : Q := roundQ (t / (1 + 0.28125 * t * t)).

Definition refAtan2 (y x : Q) : Q :=
  let ay := Math_max y (- y) in
  let ax := Math_max x (- x) in
  if Qeq_bool x 0 && Qeq_bool y 0 then 0
  else if ay <=? ax then
    let a := refAtan (y / x) in
    if 0 <=? x then a else if 0 <=? y then a + refPI else a - refPI
  else
    let a := refAtan (x / y) in
    if 0 <=? y then refPI / 2 - a else - (refPI / 2) - a.

(** Upgrade levels of a career in progress. *)
Definition sampleLevels : UpgradeLevels :=
  {| lv_grabber := 1; lv_thruster := 2; lv_drill := 0; lv_hull := 3;
     lv_cargo := 1; lv_weapons := 2 |}.

(** No pirate encounter: the chance is 0. *)
Definition calmModifiers : RunModifiers :=
  launchModifiers createBaseUpgradeLevels 0.

(** A runtime with drill progress for two extraction ticks. *)
Definition drillingRuntime : GameRuntime :=
  set_drillAccumulator 2 sampleRuntime.

(** The loaded runtime docked, with unload progress for two units. *)
Definition unloadingRuntime : GameRuntime :=
  set_unloadAccumulator 2 (set_docked true loadedRuntime).

(** The loaded runtime after a cargo launch: one projectile in flight. *)
Definition firedRuntime : GameRuntime :=
  launchCargoShot refHost loadedRuntime (keys (pressed ["Space"%string])).

(** The player at the centre of the first asteroid. *)
Definition besideAsteroid : GameRuntime :=
  match asteroids sampleRuntime with
  | a :: _ => set_playerPosition (ast_position a) sampleRuntime
  | [] => sampleRuntime
  end.

(** ** Basic facts

    Boolean tests and comparisons of the source as propositions. *)

Lemma PirateState_eqb_eq a b : PirateState_eqb a b = true <-> a = b.
Proof. destruct a, b; simpl; split; congruence. Qed.

Lemma GameStatus_eqb_eq a b : GameStatus_eqb a b = true <-> a = b.
Proof. destruct a, b; simpl; split; congruence. Qed.

Lemma ResourceId_eqb_eq a b : ResourceId_eqb a b = true <-> a = b.
Proof. destruct a, b; simpl; split; congruence. Qed.

Lemma live_not_terminal s :
  s = quiet \/ s = incoming -> ~ terminalPirate s.
Proof. unfold terminalPirate. intros [->| ->] [?|?]; discriminate. Qed.

Lemma Qleb_le a b : (a <=? b) = true <-> a <= b.
Proof. apply Qle_bool_iff. Qed.

Lemma Qleb_gt a b : (a <=? b) = false <-> b < a.
Proof.
  rewrite <- not_true_iff_false, Qleb_le. split; intros; lra.
Qed.

Lemma Qgtb_lt a b : (a >? b) = true <-> b < a.
Proof. unfold Qgtb. rewrite negb_true_iff. apply Qleb_gt. Qed.

Lemma Qgtb_le a b : (a >? b) = false <-> a <= b.
Proof. unfold Qgtb. rewrite negb_false_iff. apply Qleb_le. Qed.

Lemma Qltb_lt a b : (a <? b) = true <-> a < b.
Proof. unfold Qltb. rewrite negb_true_iff. apply Qleb_gt. Qed.

Lemma Qltb_ge a b : (a <? b) = false <-> b <= a.
Proof. unfold Qltb. rewrite negb_false_iff. apply Qleb_le. Qed.

Lemma Qgeb_le a b : (a >=? b) = true <-> b <= a.
Proof. apply Qleb_le. Qed.

Lemma Qgeb_lt a b : (a >=? b) = false <-> a < b.
Proof. apply Qleb_gt. Qed.

Lemma Math_max_cases a b :
  (a <= b /\ Math_max a b = b) \/ (b < a /\ Math_max a b = a).
Proof.
  unfold Math_max. destruct (a <=? b) eqn:E.
  - left. split; [apply Qleb_le, E | reflexivity].
  - right. split; [apply Qleb_gt, E | reflexivity].
Qed.

Lemma Math_min_cases a b :
  (a <= b /\ Math_min a b = a) \/ (b < a /\ Math_min a b = b).
Proof.
  unfold Math_min. destruct (a <=? b) eqn:E.
  - left. split; [apply Qleb_le, E | reflexivity].
  - right. split; [apply Qleb_gt, E | reflexivity].
Qed.

Lemma Math_max_0_nonneg z : 0 <= z -> Math_max 0 z = z.
Proof.
  intros Z. unfold Math_max. destruct (0 <=? z) eqn:E; [reflexivity|].
  apply Qleb_gt in E. lra.
Qed.

(** The generator returns a number in [0, 1). *)
Lemma rngNext_range state : 0 <= fst (rngNext state) /\ fst (rngNext state) < 1.
Proof.
  unfold rngNext. cbn [fst].
  pose proof (Z.mod_pos_bound (1664525 * state + 1013904223) 4294967296
                ltac:(lia)) as [Lo Hi].
  unfold Qle, Qlt. cbn [Qnum Qden]. split; lia.
Qed.

Lemma randomRange_range state lo hi :
  lo <= hi ->
  lo <= fst (randomRange state lo hi) /\ fst (randomRange state lo hi) <= hi.
Proof.
  intros L. unfold randomRange.
  pose proof (rngNext_range state) as [Lo Hi].
  destruct (rngNext state) as [u state']. cbn [fst] in *. split; nra.
Qed.

(** Turn the tests and the draws recorded in the context into facts. *)
Ltac facts :=
  repeat match goal with
    | G : (_ && _) = true |- _ => apply andb_true_iff in G as [? ?]
    | G : (_ <=? _) = true |- _ => apply Qleb_le in G
    | G : (_ <=? _) = false |- _ => apply Qleb_gt in G
    | G : (_ >? _) = true |- _ => apply Qgtb_lt in G
    | G : (_ >? _) = false |- _ => apply Qgtb_le in G
    | G : (_ <? _) = true |- _ => apply Qltb_lt in G
    | G : (_ <? _) = false |- _ => apply Qltb_ge in G
    | G : (_ >=? _) = true |- _ => apply Qgeb_le in G
    | G : (_ >=? _) = false |- _ => apply Qgeb_lt in G
    | G : randomRange ?s ?lo ?hi = (?u, _) |- _ =>
        let Lo := fresh "Lo" in
        let Hi := fresh "Hi" in
        pose proof (randomRange_range s lo hi ltac:(lra)) as [Lo Hi];
        rewrite G in Lo, Hi; cbn [fst] in Lo, Hi; clear G
    | G : rngNext ?s = (?u, _) |- _ =>
        let Lo := fresh "Lo" in
        let Hi := fresh "Hi" in
        pose proof (rngNext_range s) as [Lo Hi];
        rewrite G in Lo, Hi; cbn [fst] in Lo, Hi; clear G
    end.

(** *** Whole numbers *)

Lemma isCount_1 : isCount 1.
Proof. exists 1%Z. split; [lia|reflexivity]. Qed.

Lemma isCount_nonneg q : isCount q -> 0 <= q.
Proof.
  intros (n & N & ->). unfold Qle. simpl. lia.
Qed.

Lemma isCount_ge1 q : isCount q -> 0 < q -> 1 <= q.
Proof.
  intros (n & N & Q) P. rewrite Q in *.
  unfold Qlt in P. unfold Qle. simpl in *. lia.
Qed.

Lemma isCount_plus a b : isCount a -> isCount b -> isCount (a + b).
Proof.
  intros (n & N & A) (m & M & B). exists (n + m)%Z. split; [lia|].
  rewrite A, B, inject_Z_plus. reflexivity.
Qed.

Lemma isCount_pred q : isCount q -> 0 < q -> isCount (q - 1).
Proof.
  intros (n & N & Q) P. exists (n - 1)%Z. rewrite Q in P.
  assert (0 < n)%Z by (unfold Qlt in P; simpl in P; lia).
  split; [lia|]. rewrite Q. unfold Z.sub.
  rewrite inject_Z_plus, inject_Z_opp. reflexivity.
Qed.

Lemma isCount_floor q : 0 < Math_floor q -> isCount (Math_floor q).
Proof.
  unfold Math_floor. intros P. exists (Qfloor q). split; [|reflexivity].
  unfold Qlt in P. simpl in P. lia.
Qed.

Lemma isCount_roll state u state' :
  rngNext state = (u, state') -> isCount (1 + Math_floor (u * 2)).
Proof.
  intros E. pose proof (rngNext_range state) as [Lo _]. rewrite E in Lo.
  cbn [fst] in Lo. apply isCount_plus; [apply isCount_1|].
  exists (Qfloor (u * 2)). split; [|reflexivity].
  change 0%Z with (Qfloor 0). apply Qfloor_resp_le. lra.
Qed.

(** ** Symbolic execution of the runtime functions

    A goal [P prog], where [prog] is the body of a runtime function, is
    walked from the outside in: a [let] is replaced by a fresh variable that
    is only known to satisfy [P], a conditional is split, and an assignment
    to a field [P] does not read is skipped.  What is left are the
    assignments that matter to [P]. *)

Lemma let_intro {A B : Type} (P : B -> Prop) (e : A) (b : A -> B) :
  (forall x, x = e -> P (b x)) -> P (let x := e in b x).
Proof. intros Hb. exact (Hb e eq_refl). Qed.

(** A predicate on the runtime component of a pair. *)
Definition onFst {A B : Type} (Q : A -> Prop) (p : A * B) : Prop := Q (fst p).
Definition onSnd {A B : Type} (Q : B -> Prop) (p : A * B) : Prop := Q (snd p).

Create HintDb rt discriminated.

Ltac peel :=
  lazymatch goal with
  | |- ?P (addEvent ?s _ _) => change (P s)
  | |- ?P (?g ?v ?s) =>
      lazymatch type of s with GameRuntime => change (P s) end
  end.

(** [exec_with I]: the intermediate runtimes are known to satisfy [I]; the
    goal is about the runtime the program returns. *)
Ltac exec_with I :=
  lazymatch goal with
  | |- ?P (let x := ?e in @?b x) =>
      refine (let_intro P e b _);
      let x := fresh "x" in
      let Hx := fresh "Hx" in
      intros x Hx; cbv beta;
      lazymatch type of x with
      | GameRuntime =>
          let Px := fresh "Px" in
          assert (Px : I x); [ subst x; exec_with I | clear Hx; exec_with I ]
      | _ => exec_with I
      end
  | |- ?P (let '(_, _) := (if ?c then _ else _) in _) =>
      destruct c eqn:?; exec_with I
  | |- ?P (let '(_, _) := (let '(_, _) := ?e in _) in _) =>
      destruct e eqn:?; cbv iota; exec_with I
  | |- ?P (let '(_, _) := (_, _) in _) => cbv iota; exec_with I
  | |- ?P (let '(_, _) := ?e in _) =>
      let E := fresh "E" in
      let a := fresh "a" in
      let b := fresh "b" in
      destruct e as [a b] eqn:E;
      lazymatch type of a with
      | GameRuntime =>
          assert (I a);
          [ change (onFst I (a, b)); rewrite <- E; exec_with I
          | exec_with I ]
      | _ =>
          lazymatch type of b with
          | GameRuntime =>
              assert (I b);
              [ change (onSnd I (a, b)); rewrite <- E; exec_with I
              | exec_with I ]
          | _ => exec_with I
          end
      end
  | |- ?P (if ?c then _ else _) => destruct c eqn:?; exec_with I
  | |- ?P (match ?e with Some _ => _ | None => _ end) =>
      destruct e eqn:?; exec_with I
  | |- _ =>
      unfold onFst, onSnd; cbn [fst snd];
      first [ assumption | reflexivity | peel; exec_with I
            | solve [eauto 4 with rt nocore] | idtac ]
  end.

(** The leading [let]s only, up to the evaluation of the outcome. *)
Ltac exec_lets I :=
  lazymatch goal with
  | |- ?P (let x := evaluateMissionOutcome _ in _) => idtac
  | |- ?P (let x := ?e in @?b x) =>
      refine (let_intro P e b _);
      let x := fresh "x" in
      let Hx := fresh "Hx" in
      intros x Hx; cbv beta;
      lazymatch type of x with
      | GameRuntime =>
          let Px := fresh "Px" in
          assert (Px : I x); [ subst x; exec_with I | clear Hx; exec_lets I ]
      | _ => subst x; exec_lets I
      end
  | |- _ => idtac
  end.

Ltac exec :=
  lazymatch goal with
  | |- onFst ?P _ => exec_with P
  | |- onSnd ?P _ => exec_with P
  | |- ?P _ => exec_with P
  end.

Ltac open f := cbv beta delta [f].

(** One [let], by hand. *)
Ltac let_step x Hx :=
  lazymatch goal with
  | |- ?P (let y := ?e in @?b y) =>
      refine (let_intro P e b _); intros x Hx; cbv beta
  end.

(** *** Cargo accounting *)

Lemma def_volume_pos id : 0 < def_volume (RESOURCES id).
Proof. destruct id; reflexivity. Qed.

Lemma def_value_pos id : 0 < def_value (RESOURCES id).
Proof. destruct id; reflexivity. Qed.

Lemma getBin_setBin bins id b key :
  getBin (setBin bins id b) key
  = if ResourceId_eqb id key then b else getBin bins key.
Proof. destruct id, key; reflexivity. Qed.

Lemma BinsOk_setBin bins id b :
  BinsOk bins -> BinOk id b -> BinsOk (setBin bins id b).
Proof.
  intros Ok Hb key. rewrite getBin_setBin.
  destruct (ResourceId_eqb id key) eqn:E; [|apply Ok].
  apply ResourceId_eqb_eq in E. subst. exact Hb.
Qed.

Lemma holdVolume_setBin bins id b :
  BinsOk bins -> bin_resourceId b = id ->
  holdVolume (setBin bins id b)
  == holdVolume bins
     + (bin_units b - bin_units (getBin bins id)) * def_volume (RESOURCES id).
Proof.
  intros Ok Hb.
  pose proof (Ok scrapIron) as (I1 & _). pose proof (Ok waterIce) as (I2 & _).
  pose proof (Ok cobaltDust) as (I3 & _).
  pose proof (Ok xenoCrystal) as (I4 & _).
  pose proof (Ok fringeRelic) as (I5 & _).
  cbn [getBin] in I1, I2, I3, I4, I5.
  destruct id; unfold holdVolume, binValues; cbn -[Qplus Qmult Qminus];
    rewrite ?Hb, ?I1, ?I2, ?I3, ?I4, ?I5; cbn -[Qplus Qmult Qminus]; ring.
Qed.

Lemma holdVolume_ge bins id :
  BinsOk bins ->
  bin_units (getBin bins id) * def_volume (RESOURCES id) <= holdVolume bins.
Proof.
  intros Ok.
  pose proof (Ok scrapIron) as (I1 & N1 & _).
  pose proof (Ok waterIce) as (I2 & N2 & _).
  pose proof (Ok cobaltDust) as (I3 & N3 & _).
  pose proof (Ok xenoCrystal) as (I4 & N4 & _).
  pose proof (Ok fringeRelic) as (I5 & N5 & _).
  apply isCount_nonneg in N1, N2, N3, N4, N5.
  cbn [getBin] in *.
  destruct id; unfold holdVolume, binValues; cbn -[Qplus Qmult Qminus];
    rewrite ?I1, ?I2, ?I3, ?I4, ?I5; cbn -[Qplus Qmult Qminus]; lra.
Qed.

(** The units [addCargo] accepts fit in the remaining capacity. *)
Lemma accepted_fits capacity used volume units :
  0 < volume ->
  0 < Math_min units (Math_floor (Math_max 0 (capacity - used) / volume)) ->
  used
  + Math_min units (Math_floor (Math_max 0 (capacity - used) / volume))
    * volume <= capacity.
Proof.
  intros V P.
  set (rem := Math_max 0 (capacity - used)) in *.
  pose proof (Qfloor_le (rem / volume)) as F. fold (Math_floor (rem / volume)) in F.
  assert (M : Math_min units (Math_floor (rem / volume)) <= rem / volume).
  { destruct (Math_min_cases units (Math_floor (rem / volume)))
      as [[? ->]|[? ->]]; lra. }
  assert (D : volume * (rem / volume) == rem)
    by (apply Qmult_div_r; lra).
  assert (R : Math_min units (Math_floor (rem / volume)) * volume <= rem)
    by nra.
  assert (0 < rem) by nra.
  subst rem. destruct (Math_max_cases 0 (capacity - used)) as [[? Q]|[? Q]];
    rewrite Q in *; lra.
Qed.

Lemma addCargo_cargo r id units :
  isCount units -> CargoInv r -> CargoInv (fst (addCargo r id units)).
Proof.
  intros U (Ok & Used & Cap). open addCargo. cbv zeta.
  set (accepted :=
         Math_min units
           (Math_floor
              (Math_max 0 (cargoCapacity r - cargoUsed r)
               / def_volume (RESOURCES id)))).
  destruct (accepted <=? 0) eqn:A.
  { cbn [fst]. destruct (negb (cargoFullWarned r)); split; auto. }
  apply Qleb_gt in A. cbn [fst].
  assert (N : isCount accepted).
  { unfold accepted in *.
    destruct (Math_min_cases units
                (Math_floor
                   (Math_max 0 (cargoCapacity r - cargoUsed r)
                    / def_volume (RESOURCES id)))) as [[? Q]|[? Q]];
      rewrite Q in *; [exact U | apply isCount_floor; exact A]. }
  destruct (Ok id) as (I & Nb & Vol & Val).
  unfold CargoInv.
  cbn [cargoBins cargoUsed cargoCapacity set_cargoValue set_cargoUsed
       set_cargoBins].
  split; [|split].
  - apply BinsOk_setBin; [exact Ok|].
    split; [|split; [|split]]; cbn [bin_resourceId bin_units bin_volume bin_value].
    + exact I.
    + apply isCount_plus; assumption.
    + rewrite Vol. ring.
    + rewrite Val. ring.
  - rewrite holdVolume_setBin by (exact Ok || exact I).
    cbn [bin_units]. rewrite Used. ring.
  - intros _. apply accepted_fits; [apply def_volume_pos | exact A].
Qed.

Lemma binEntries_in bins key bin :
  In (key, bin) (binEntries bins) -> bin = getBin bins key.
Proof.
  unfold binEntries, allResources. cbn [map In].
  intros [E|[E|[E|[E|[E|[]]]]]]; inversion E; reflexivity.
Qed.

Lemma takeUnit_cargo r key bin :
  CargoInv r -> In (key, bin) (binEntries (cargoBins r)) ->
  0 < bin_units bin -> CargoInv (fst (takeUnit r (key, bin))).
Proof.
  intros (Ok & Used & Cap) I P. apply binEntries_in in I. subst bin.
  destruct (Ok key) as (Ik & Nb & Vol & Val).
  pose proof (isCount_ge1 _ Nb P) as G.
  pose proof (def_volume_pos key) as Vp. pose proof (def_value_pos key) as Wp.
  pose proof (holdVolume_ge _ key Ok) as Hg.
  open takeUnit. cbv zeta. cbn [fst]. unfold CargoInv.
  cbn [cargoBins cargoUsed cargoCapacity set_cargoValue set_cargoUsed
       set_cargoBins set_cargoFullWarned].
  rewrite Ik.
  rewrite (Math_max_0_nonneg (cargoUsed r - _)) by nra.
  split; [|split].
  - apply BinsOk_setBin; [exact Ok|].
    split; [|split; [|split]];
      cbn [bin_resourceId bin_units bin_volume bin_value].
    + reflexivity.
    + apply isCount_pred; assumption.
    + rewrite Math_max_0_nonneg by nra. rewrite Vol. ring.
    + rewrite Math_max_0_nonneg by nra. rewrite Val. ring.
  - rewrite holdVolume_setBin by (exact Ok || reflexivity).
    cbn [bin_units]. rewrite Used. ring.
  - intros C. specialize (Cap C). lra.
Qed.

(** *** The sort of the take functions *)

Lemma insertBy_in {A : Type} (compare : A -> A -> Q) x y l :
  In x (insertBy compare y l) <-> x = y \/ In x l.
Proof.
  induction l as [|z l IH]; cbn [insertBy In].
  - intuition congruence.
  - destruct (compare y z <=? 0); cbn [In]; [intuition congruence|].
    rewrite IH. intuition congruence.
Qed.

Lemma sortBy_in {A : Type} (compare : A -> A -> Q) x l :
  In x (sortBy compare l) <-> In x l.
Proof.
  induction l as [|y l IH]; cbn [sortBy fold_right In]; [tauto|].
  fold (sortBy compare l). rewrite insertBy_in, IH. intuition congruence.
Qed.

(** A comparator that orders by decreasing [key] puts a greatest element
    first. *)
Lemma sortBy_head {A : Type} (compare : A -> A -> Q) (key : A -> Q) l h :
  (forall a b, compare a b == key b - key a) ->
  head (sortBy compare l) = Some h ->
  In h l /\ forall x, In x l -> key x <= key h.
Proof.
  intros C. revert h. induction l as [|y l IH]; intros h Hh.
  - discriminate.
  - cbn [sortBy fold_right] in Hh. fold (sortBy compare l) in Hh.
    destruct (sortBy compare l) as [|z rest] eqn:S.
    + cbn in Hh. inversion Hh; subst h.
      assert (l = []) as ->.
      { destruct l as [|w l]; [reflexivity|].
        assert (In w (sortBy compare (w :: l)))
          by (apply sortBy_in; left; reflexivity).
        rewrite S in *. contradiction. }
      split; [left; reflexivity|]. intros x [->|[]]. lra.
    + destruct (IH z eq_refl) as [Iz Mz].
      cbn [insertBy] in Hh. destruct (compare y z <=? 0) eqn:E.
      * cbn in Hh. inversion Hh; subst h. apply Qleb_le in E.
        rewrite C in E. split; [left; reflexivity|].
        intros x [->|Ix]; [lra|]. specialize (Mz x Ix). lra.
      * cbn in Hh. inversion Hh; subst h. apply Qleb_gt in E.
        rewrite C in E. split; [right; exact Iz|].
        intros x [->|Ix]; [lra|]. exact (Mz x Ix).
Qed.

Lemma pickCandidate_in compare bins c :
  pickCandidate compare bins = Some c ->
  In c (binEntries bins) /\ 0 < bin_units (snd c).
Proof.
  unfold pickCandidate. intros Hh.
  assert (I : In c (sortBy compare
                      (List.filter (fun e => bin_units (snd e) >? 0)
                         (binEntries bins)))).
  { destruct (sortBy compare _); [discriminate|].
    inversion Hh. left. reflexivity. }
  apply sortBy_in, filter_In in I as [I P]. split; [exact I|].
  apply Qgtb_lt in P. exact P.
Qed.

Lemma takeCargoUnitForUnload_cargo r :
  CargoInv r -> CargoInv (fst (takeCargoUnitForUnload r)).
Proof.
  intros C. open takeCargoUnitForUnload.
  destruct (pickCandidate unloadOrder (cargoBins r)) as [[key bin]|] eqn:E;
    [|exact C].
  apply pickCandidate_in in E as [I P].
  pose proof (takeUnit_cargo r key bin C I P) as T.
  destruct (takeUnit r (key, bin)). exact T.
Qed.

Lemma takeCargoUnitForLaunch_cargo r :
  CargoInv r -> CargoInv (fst (takeCargoUnitForLaunch r)).
Proof.
  intros C. open takeCargoUnitForLaunch.
  destruct (pickCandidate launchOrder (cargoBins r)) as [[key bin]|] eqn:E;
    [|exact C].
  apply pickCandidate_in in E as [I P].
  pose proof (takeUnit_cargo r key bin C I P) as T.
  destruct (takeUnit r (key, bin)). exact T.
Qed.

(** ** What a frame keeps *)

Section Frames.
Variable H : Host.
Variable timeOk : Prop.
Local Abbreviation Ev := (Evolves timeOk).
Local Abbreviation Kp := (Keeps timeOk).
#[local] Hint Resolve isCount_1 isCount_roll : rt.

Lemma Keeps_refl r : Kp r r.
Proof.
  unfold Keeps.
  repeat match goal with |- _ /\ _ => split end; auto. apply Qle_refl.
Qed.

Lemma Evolves_refl r : Ev r r.
Proof. split; [apply Keeps_refl | left; reflexivity]. Qed.

Lemma updateFreighterTransit_ev r0 r : Ev r0 r -> Ev r0 (updateFreighterTransit r).
Proof. intros. open updateFreighterTransit. exec. Qed.

Lemma applyFreighterDockActions_ev r0 r ks :
  Ev r0 r -> Ev r0 (applyFreighterDockActions H r ks).
Proof. intros. open applyFreighterDockActions. exec. Qed.

Lemma clampPlayerToField_ev r0 r : Ev r0 r -> Ev r0 (clampPlayerToField r).
Proof. intros. open clampPlayerToField. exec. Qed.
#[local] Hint Resolve clampPlayerToField_ev : rt.

Lemma updatePlayerControlWithInput_ev r0 r dt i :
  Ev r0 r -> Ev r0 (updatePlayerControlWithInput H r dt i).
Proof. intros. open updatePlayerControlWithInput. exec. Qed.

Lemma updateGrabber_ev r0 r ks : Ev r0 r -> Ev r0 (updateGrabber H r ks).
Proof. intros. open updateGrabber. exec. Qed.

Lemma moveGrabbedAsteroid_ev r0 r dt : Ev r0 r -> Ev r0 (moveGrabbedAsteroid H r dt).
Proof. intros. open moveGrabbedAsteroid. exec. Qed.

Lemma resolveAsteroidCollisions_ev r0 r : Ev r0 r -> Ev r0 (resolveAsteroidCollisions H r).
Proof. intros. open resolveAsteroidCollisions. exec. Qed.

Lemma updatePrevKeys_ev r0 r ks : Ev r0 r -> Ev r0 (updatePrevKeys r ks).
Proof. intros. open updatePrevKeys. exec. Qed.

Lemma Keeps_trans r0 s s' : Kp r0 s -> Kp s s' -> Kp r0 s'.
Proof.
  unfold Keeps.
  intros (F1 & C1 & H1 & A1 & N1 & P1) (F2 & C2 & H2 & A2 & N2 & P2).
  repeat match goal with |- _ /\ _ => split end; auto.
  - congruence.
  - eapply Qle_trans; eauto.
  - intros T. rewrite P2; auto. rewrite P1; auto.
Qed.

Lemma Evolves_trans r0 s s' : Ev r0 s -> Ev s s' -> Ev r0 s'.
Proof.
  intros [K1 S1] [K2 S2]. split; [eapply Keeps_trans; eauto|].
  destruct S2 as [S2|S2]; [rewrite S2; exact S1 | right; exact S2].
Qed.

Ltac ev_local :=
  unfold Evolves, Keeps; repeat match goal with |- _ /\ _ => split end;
  try first [ reflexivity | apply Qle_refl | assumption
            | (intros; assumption) | (intros; reflexivity)
            | (left; reflexivity) ].

(** An update of [s] into [s'] extends what holds since [r0]. *)
Ltac ev_then := eapply Evolves_trans; [ eassumption | ].

(** Assigning the pirate state of a pirate that is still live. *)
Lemma set_pirateState_ev r0 s v :
  Ev r0 s -> pirateState s = quiet \/ pirateState s = incoming ->
  Ev r0 (set_pirateState v s).
Proof.
  intros E L. ev_then. ev_local.
  intros T. exfalso. exact (live_not_terminal _ L T).
Qed.

Lemma set_status_lost_ev r0 s : Ev r0 s -> Ev r0 (set_status lost s).
Proof. intros E. ev_then. ev_local. right. reflexivity. Qed.

Lemma disablePirate_ev r0 r :
  Ev r0 r -> pirateState r = incoming -> Ev r0 (disablePirate r).
Proof.
  intros E L. open disablePirate.
  exec. apply set_pirateState_ev; auto.
Qed.

Lemma applyPirateDamage_ev r0 r damage :
  Ev r0 r -> Ev r0 (fst (applyPirateDamage r damage)).
Proof.
  intros E. change (onFst (Ev r0) (applyPirateDamage r damage)).
  open applyPirateDamage.
  destruct (negb (PirateState_eqb (pirateState r) incoming)) eqn:L; [exact E|].
  apply negb_false_iff, PirateState_eqb_eq in L.
  cbn [orb]. exec. apply disablePirate_ev; auto.
Qed.
#[local] Hint Resolve applyPirateDamage_ev : rt.

Lemma triggerPirateEvent_ev r0 r :
  Ev r0 r -> pirateState r = quiet -> Ev r0 (triggerPirateEvent r).
Proof.
  intros E L. open triggerPirateEvent. exec.
  apply set_pirateState_ev; auto.
Qed.

Definition EvLive (r0 r : GameRuntime) : Prop :=
  Ev r0 r /\ pirateState r = incoming.

Lemma updatePirate_ev r0 r dt : Ev r0 r -> Ev r0 (updatePirate H r dt).
Proof.
  intros E. open updatePirate.
  let_step x Hx.
  assert (Px : Ev r0 x).
  { subst x. exec. apply triggerPirateEvent_ev; auto.
    apply andb_true_iff in Heqb as [Q _]. apply PirateState_eqb_eq in Q.
    exact Q. }
  clear Hx. destruct (negb (PirateState_eqb (pirateState x) incoming)) eqn:L.
  { exact Px. }
  apply negb_false_iff, PirateState_eqb_eq in L.
  assert (Lx : EvLive r0 x) by (split; assumption).
  exec_lets (EvLive r0).
  match goal with
  | L : EvLive r0 ?s |- Ev r0 (if xle0 (pirateBoardTimer ?s) then _ else _) =>
      destruct L as [E6 L6]; destruct (xle0 (pirateBoardTimer s));
      [|exact E6]
  end.
  exec.
  - apply set_pirateState_ev; auto.
  - apply set_status_lost_ev; auto.
Qed.
#[local] Hint Resolve updateFreighterTransit_ev applyFreighterDockActions_ev
  updatePlayerControlWithInput_ev updateGrabber_ev moveGrabbedAsteroid_ev
  resolveAsteroidCollisions_ev updatePrevKeys_ev updatePirate_ev : rt.

Lemma asteroidPirateLoop_ev r0 l : forall r,
  Ev r0 r -> Ev r0 (snd (asteroidPirateLoop H l r)).
Proof.
  induction l as [|a l IH]; intros r E; [exact E|].
  change (onSnd (Ev r0) (asteroidPirateLoop H (a :: l) r)).
  cbn beta iota delta [asteroidPirateLoop]. exec.
Qed.
#[local] Hint Resolve asteroidPirateLoop_ev : rt.

Lemma resolveAsteroidPirateImpacts_ev r0 r dt :
  Ev r0 r -> Ev r0 (resolveAsteroidPirateImpacts H r dt).
Proof. intros E. open resolveAsteroidPirateImpacts. exec. Qed.

Lemma cargoShotLoop_ev r0 dt l : forall r,
  Ev r0 r -> Ev r0 (snd (cargoShotLoop H l dt r)).
Proof.
  induction l as [|a l IH]; intros r E; [exact E|].
  change (onSnd (Ev r0) (cargoShotLoop H (a :: l) dt r)).
  cbn beta iota delta [cargoShotLoop]. exec.
Qed.
#[local] Hint Resolve cargoShotLoop_ev : rt.

Lemma updateCargoShots_ev r0 r dt :
  Ev r0 r -> Ev r0 (updateCargoShots H r dt).
Proof. intros E. open updateCargoShots. exec. Qed.
#[local] Hint Resolve resolveAsteroidPirateImpacts_ev updateCargoShots_ev : rt.

Lemma set_hull_ev r0 s v :
  Ev r0 s -> (timeOk -> HullInv s -> 0 <= v /\ v <= maxHull s) ->
  Ev r0 (set_hull v s).
Proof.
  intros E Hv. ev_then. ev_local.
  intros T Hs. destruct (Hv T Hs). split; [|split]; auto. apply Hs.
Qed.

(** Damage taken from a hull within its bounds leaves it within bounds. *)
Lemma damaged_hull_ok s damage :
  (HullInv s -> 0 <= damage) -> timeOk -> HullInv s ->
  0 <= Math_max 0 (hull s - damage)
  /\ Math_max 0 (hull s - damage) <= maxHull s.
Proof.
  intros D _ Hs. specialize (D Hs). destruct Hs as (H0 & H1 & _).
  destruct (Math_max_cases 0 (hull s - damage)) as [[? ->]|[? ->]];
    split; lra.
Qed.

Lemma playerAsteroidLoop_ev r0 l : forall r,
  Ev r0 r -> Ev r0 (playerAsteroidLoop H l r).
Proof.
  induction l as [|a l IH]; intros r E; [exact E|].
  cbn beta iota delta [playerAsteroidLoop]. exec.
  apply set_hull_ev; [assumption|]. apply damaged_hull_ok.
  intros _. facts. subst. repeat apply Qmult_le_0_compat; lra.
Qed.
#[local] Hint Resolve playerAsteroidLoop_ev : rt.

Lemma resolvePlayerAsteroidImpacts_ev r0 r dt :
  Ev r0 r -> Ev r0 (resolvePlayerAsteroidImpacts H r dt).
Proof. intros E. open resolvePlayerAsteroidImpacts. exec. Qed.

Lemma resolvePlayerPirateImpact_ev r0 r dt :
  Ev r0 r -> Ev r0 (resolvePlayerPirateImpact H r dt).
Proof.
  intros E. open resolvePlayerPirateImpact. exec.
  apply set_hull_ev; [assumption|]. apply damaged_hull_ok.
  intros (_ & _ & R). facts. subst.
  unfold RAM_DELAY_MIN_IMPACT in *.
  repeat apply Qmult_le_0_compat; lra.
Qed.

Lemma launchWeaponShot_ev r0 r ks :
  Ev r0 r -> Ev r0 (launchWeaponShot H r ks).
Proof.
  intros E. open launchWeaponShot. exec.
  ev_then. ev_local.
  - cbn. lra.
  - cbn. intros N. facts. apply isCount_pred; assumption.
Qed.
#[local] Hint Resolve resolvePlayerAsteroidImpacts_ev resolvePlayerPirateImpact_ev
  launchWeaponShot_ev : rt.

Lemma addCargo_ev r0 r id units :
  isCount units -> Ev r0 r -> Ev r0 (fst (addCargo r id units)).
Proof.
  intros U E. ev_then. pose proof (addCargo_cargo r id units U) as C.
  revert C. open addCargo. cbv zeta.
  destruct (_ <=? 0); cbn [fst]; [destruct (negb _)|]; intros C; ev_local.
Qed.

Lemma takeCargoUnitForUnload_ev r0 r :
  Ev r0 r -> Ev r0 (fst (takeCargoUnitForUnload r)).
Proof.
  intros E. ev_then. pose proof (takeCargoUnitForUnload_cargo r) as C.
  revert C. open takeCargoUnitForUnload.
  destruct (pickCandidate _ _) as [[key bin]|]; cbn [fst]; intros C; ev_local.
Qed.

Lemma takeCargoUnitForLaunch_ev r0 r :
  Ev r0 r -> Ev r0 (fst (takeCargoUnitForLaunch r)).
Proof.
  intros E. ev_then. pose proof (takeCargoUnitForLaunch_cargo r) as C.
  revert C. open takeCargoUnitForLaunch.
  destruct (pickCandidate _ _) as [[key bin]|]; cbn [fst]; intros C; ev_local.
Qed.
#[local] Hint Resolve addCargo_ev takeCargoUnitForUnload_ev takeCargoUnitForLaunch_ev
  : rt.

Lemma launchCargoShot_ev r0 r ks :
  Ev r0 r -> Ev r0 (launchCargoShot H r ks).
Proof. intros E. open launchCargoShot. exec. Qed.

Lemma unloadLoop_ev r0 fuel : forall r,
  Ev r0 r -> Ev r0 (unloadLoop fuel r).
Proof.
  induction fuel as [|fuel IH]; intros r E; [exact E|].
  cbn beta iota delta [unloadLoop]. exec.
Qed.
#[local] Hint Resolve launchCargoShot_ev unloadLoop_ev : rt.

Lemma updateDockedSystems_ev r0 r dt :
  (timeOk -> 0 <= dt) -> Ev r0 r -> Ev r0 (updateDockedSystems r dt).
Proof.
  intros T E. open updateDockedSystems. exec.
  apply set_hull_ev; [assumption|]. intros Ok (H0 & H1 & _).
  specialize (T Ok). unfold DOCK_REPAIR_PER_SECOND.
  match goal with
  | |- context [Math_min ?a ?b] =>
      destruct (Math_min_cases a b) as [[? ->]|[? ->]]
  end; split; nra.
Qed.
#[local] Hint Resolve updateDockedSystems_ev : rt.

Lemma sampleAsteroidResource_ev r0 r a :
  Ev r0 r -> Ev r0 (fst (sampleAsteroidResource r a)).
Proof.
  intros E. change (onFst (Ev r0) (sampleAsteroidResource r a)).
  open sampleAsteroidResource. exec.
Qed.
#[local] Hint Resolve sampleAsteroidResource_ev : rt.

Lemma drillLoop_ev r0 fuel : forall r a,
  Ev r0 r -> Ev r0 (fst (drillLoop fuel r a)).
Proof.
  induction fuel as [|fuel IH]; intros r a E; [exact E|].
  change (onFst (Ev r0) (drillLoop (S fuel) r a)).
  cbn beta iota delta [drillLoop]. exec.
Qed.
#[local] Hint Resolve drillLoop_ev : rt.

Lemma updateDrill_ev r0 r dt ks :
  Ev r0 r -> Ev r0 (updateDrill r dt ks).
Proof. intros E. open updateDrill. exec. Qed.
#[local] Hint Resolve updateDrill_ev : rt.

Lemma evaluateMissionOutcome_keeps r0 r :
  Kp r0 r -> Kp r0 (evaluateMissionOutcome r).
Proof. intros K. open evaluateMissionOutcome. exec. Qed.

End Frames.

#[local] Hint Resolve
  isCount_1
  isCount_roll
  clampPlayerToField_ev
  applyPirateDamage_ev
  updateFreighterTransit_ev
  applyFreighterDockActions_ev
  updatePlayerControlWithInput_ev
  updateGrabber_ev
  moveGrabbedAsteroid_ev
  resolveAsteroidCollisions_ev
  updatePrevKeys_ev
  updatePirate_ev
  asteroidPirateLoop_ev
  cargoShotLoop_ev
  resolveAsteroidPirateImpacts_ev
  updateCargoShots_ev
  playerAsteroidLoop_ev
  resolvePlayerAsteroidImpacts_ev
  resolvePlayerPirateImpact_ev
  launchWeaponShot_ev
  addCargo_ev
  takeCargoUnitForUnload_ev
  takeCargoUnitForLaunch_ev
  launchCargoShot_ev
  unloadLoop_ev
  updateDockedSystems_ev
  sampleAsteroidResource_ev
  drillLoop_ev
  updateDrill_ev : rt.


Lemma clamped_step_nonneg (timeOk : Prop) dtRaw :
  (timeOk -> 0 <= dtRaw) -> timeOk -> 0 <= Math_min dtRaw 0.05.
Proof.
  intros T Ok. specialize (T Ok).
  destruct (Math_min_cases dtRaw 0.05) as [[? ->]|[? ->]]; lra.
Qed.

(** An active frame, up to the evaluation of the outcome. *)
Ltac run_frame timeOk r :=
  open stepRuntime;
  match goal with
  | A : status r = active |- _ =>
      let G := fresh "G" in
      destruct (negb (GameStatus_eqb (status r) active)) eqn:G;
      [ rewrite A in G; discriminate G | clear G ]
  end;
  pose proof (Evolves_refl timeOk r);
  exec_lets (Evolves timeOk r).

(** A frame on a runtime whose outcome is set. *)
Ltac skip_frame r :=
  open stepRuntime;
  match goal with
  | A : status r = _ |- _ =>
      let G := fresh "G" in
      destruct (negb (GameStatus_eqb (status r) active)) eqn:G;
      [ clear G | rewrite A in G; discriminate G ]
  end.

Lemma stepRuntime_keeps (H : Host) (timeOk : Prop) r dtRaw input :
  (timeOk -> 0 <= dtRaw) -> Keeps timeOk r (stepRuntime H r dtRaw input).
Proof.
  intros T. pose proof (clamped_step_nonneg timeOk dtRaw T) as T'.
  destruct (status r) eqn:A.
  - run_frame timeOk r. cbv zeta.
    match goal with
    | E : Evolves timeOk r ?x
      |- Keeps timeOk r (updatePrevKeys (evaluateMissionOutcome ?x) _) =>
        apply evaluateMissionOutcome_keeps, E
    end.
  - skip_frame r. exact (Keeps_refl timeOk r).
  - skip_frame r. exact (Keeps_refl timeOk r).
Qed.


(** ** Runs *)

Section Runs.
Variable H : Host.

Lemma createRuntime_initial seed modifiers :
  initialFields modifiers (createRuntime H seed modifiers).
Proof.
  open createRuntime. exec; unfold initialFields; repeat split; reflexivity.
Qed.

Lemma stepAll_cons r dt input rest :
  stepAll H r ((dt, input) :: rest)
  = stepAll H (stepRuntime H r dt input) rest.
Proof. reflexivity. Qed.

Lemma stepAll_keeps timeOk frames : forall r,
  (timeOk -> nonNegativeSteps frames) -> Keeps timeOk r (stepAll H r frames).
Proof.
  induction frames as [|[dt input] rest IH]; intros r T.
  - apply Keeps_refl.
  - rewrite stepAll_cons. eapply Keeps_trans.
    + apply stepRuntime_keeps. intros Ok.
      exact (List.Forall_inv (T Ok)).
    + apply IH. intros Ok. exact (List.Forall_inv_tail (T Ok)).
Qed.




Lemma createRuntime_cargo seed modifiers :
  CargoInv (createRuntime H seed modifiers).
Proof.
  destruct (createRuntime_initial seed modifiers)
    as (_ & _ & _ & _ & _ & _ & _ & _ & _ & _ & _ & B & U & _).
  unfold CargoInv. rewrite B, U. split; [|split].
  - intros key. destruct key; repeat split; try reflexivity;
      exists 0%Z; split; (lia || reflexivity).
  - reflexivity.
  - intros C. exact C.
Qed.

Lemma createRuntime_hull seed modifiers :
  0 <= modifier (mod_maxHull modifiers) BASE_MAX_HULL ->
  HullInv (createRuntime H seed modifiers).
Proof.
  intros M.
  destruct (createRuntime_initial seed modifiers)
    as (_ & _ & _ & Mx & Hl & _ & _ & _ & _ & _ & Rs & _).
  unfold HullInv. rewrite Mx, Hl, Rs. split; [exact M|]. split; [lra|].
  unfold clamp.
  match goal with
  | |- _ <= Math_max ?a ?b =>
      destruct (Math_max_cases a b) as [[? ->]|[? ->]]; lra
  end.
Qed.

(** ** The claims *)


(** C4 (pirate state monotonicity).  From a runtime whose pirate is
    [disabled] or [boarding], no sequence of [stepRuntime] calls, with any
    time steps and inputs, changes [pirateState]; a step that changes
    [pirateState] starts from [quiet] or [incoming]. *)
Theorem pirate_state_monotone r frames dt input :
  (pirateState r = disabled \/ pirateState r = boarding ->
   pirateState (stepAll H r frames) = pirateState r)
  /\ (pirateState (stepRuntime H r dt input) <> pirateState r ->
      pirateState r = quiet \/ pirateState r = incoming).
Proof.
  split.
  - intros T.
    destruct (stepAll_keeps False frames r ltac:(tauto))
      as (_ & _ & _ & _ & _ & P).
    exact (P T).
  - intros C.
    destruct (stepRuntime_keeps H False r dt input ltac:(tauto))
      as (_ & _ & _ & _ & _ & P).
    destruct (pirateState r) eqn:S; auto; exfalso; apply C, P;
      unfold terminalPirate; auto.
Qed.

(** C5 (terminal outcome freeze).  On a runtime whose status is [won] or
    [lost], [stepRuntime] with any time step and input returns the runtime
    with [prevKeys] replaced and every other field as it was. *)
Theorem terminal_outcome_freeze r dt input :
  status r = won \/ status r = lost ->
  let r' := stepRuntime H r dt input in
  r' = set_prevKeys (prevKeys r') r
  /\ prevKeys r' = prevKeys (updatePrevKeys r (keys input))
  /\ elapsed r' = elapsed r /\ missionSeconds r' = missionSeconds r
  /\ freighterPosition r' = freighterPosition r
  /\ playerPosition r' = playerPosition r
  /\ playerVelocity r' = playerVelocity r
  /\ asteroids r' = asteroids r
  /\ cargoBins r' = cargoBins r /\ cargoUsed r' = cargoUsed r
  /\ cargoValue r' = cargoValue r /\ deliveredValue r' = deliveredValue r
  /\ hull r' = hull r
  /\ pirateState r' = pirateState r /\ piratePosition r' = piratePosition r
  /\ pirateVelocity r' = pirateVelocity r
  /\ pirateBoardTimer r' = pirateBoardTimer r /\ pirateHull r' = pirateHull r
  /\ cargoShots r' = cargoShots r
  /\ events r' = events r /\ eventSerial r' = eventSerial r
  /\ status r' = status r /\ outcomeReason r' = outcomeReason r
  /\ rng r' = rng r.
Proof.
  intros T r'.
  assert (E : r' = updatePrevKeys r (keys input)).
  { subst r'. destruct T as [T|T]; skip_frame r; reflexivity. }
  rewrite E. repeat split.
Qed.





Lemma boardedAndLost_outcome r :
  boardedAndLost r -> boardedAndLost (evaluateMissionOutcome r).
Proof.
  intros [P S]. open evaluateMissionOutcome. rewrite S.
  cbn [GameStatus_eqb negb]. split; assumption.
Qed.

(** C6 (mission outcome rules).  On an active runtime
    [evaluateMissionOutcome] sets the status to [lost] when the hull is at or
    below 0; otherwise, when the countdown is at or below 0, to [won] if
    docked and to [lost] if undocked.  When the pirate is [incoming] and its
    boarding timer reaches 0 in [updatePirate], the pirate state becomes
    [boarding] and the status [lost], whatever the countdown, and the outcome
    evaluation of the same frame leaves both in place. *)
Theorem mission_outcome_rules r dt timer :
  (status r = active ->
   (hull r <= 0 -> status (evaluateMissionOutcome r) = lost)
   /\ (0 < hull r -> missionSeconds r <= 0 -> docked r = true ->
       status (evaluateMissionOutcome r) = won)
   /\ (0 < hull r -> missionSeconds r <= 0 -> docked r = false ->
       status (evaluateMissionOutcome r) = lost))
  /\ (pirateState r = incoming -> pirateBoardTimer r = Fin timer ->
      timer - dt <= 0 ->
      boardedAndLost (updatePirate H r dt)
      /\ boardedAndLost (evaluateMissionOutcome (updatePirate H r dt))).
Proof.
  split.
  - intros A. open evaluateMissionOutcome. rewrite A.
    cbn [GameStatus_eqb negb]. split; [|split].
    + intros Hh. apply Qleb_le in Hh. rewrite Hh. reflexivity.
    + intros Hh M D. apply Qleb_gt in Hh. apply Qleb_le in M.
      rewrite Hh, M, D. reflexivity.
    + intros Hh M D. apply Qleb_gt in Hh. apply Qleb_le in M.
      rewrite Hh, M, D. reflexivity.
  - intros P T L.
    assert (B : boardedAndLost (updatePirate H r dt)).
    { open updatePirate.
      destruct (PirateState_eqb (pirateState r) quiet
                && geb_x (elapsed r) (pirateTriggerAt r)) eqn:Q;
        [rewrite P in Q; discriminate Q|].
      let_step x Hx. change (x = r) in Hx. subst x.
      destruct (negb (PirateState_eqb (pirateState r) incoming)) eqn:G;
        [rewrite P in G; discriminate G | clear G].
      exec_lets (fieldIs pirateBoardTimer (Fin (Math_max 0 (timer - dt)))).
      - unfold fieldIs. cbn [pirateBoardTimer set_pirateBoardTimer].
        rewrite T. reflexivity.
      - match goal with
        | F : fieldIs pirateBoardTimer _ ?s |- _ =>
            unfold fieldIs in F; rewrite F
        end.
        assert (Z : xle0 (Fin (Math_max 0 (timer - dt))) = true).
        { cbn [xle0]. apply Qleb_le.
          destruct (Math_max_cases 0 (timer - dt)) as [[? ->]|[? ->]]; lra. }
        rewrite Z. split; reflexivity. }
    split; [exact B | apply boardedAndLost_outcome, B].
Qed.


(** C8 (cargo-full behaviour), as the code has it.  When [addCargo] accepts
    zero units it emits the cargo-full warning only if the latch
    [cargoFullWarned] is clear, and sets the latch; with the latch set it
    returns the runtime unchanged.  An [addCargo] that accepts units changes
    the cargo and leaves the latch as it was.  Taking a unit out of the hold,
    for a launch or for a docked unload, clears the latch.  An iteration of
    the drill loop whose [addCargo] accepts zero units sets [drillActive] to
    false and ends the loop. *)
Theorem cargo_full_latch r resourceId units a fuel :
  (snd (addCargo r resourceId units) <= 0 ->
   (cargoFullWarned r = false ->
    fst (addCargo r resourceId units)
    = set_cargoFullWarned true (addEvent r cargoFullMessage alert))
   /\ (cargoFullWarned r = true -> fst (addCargo r resourceId units) = r))
  /\ (0 < snd (addCargo r resourceId units) ->
      cargoFullWarned (fst (addCargo r resourceId units))
      = cargoFullWarned r)
  /\ (forall id, snd (takeCargoUnitForLaunch r) = Some id ->
      cargoFullWarned (fst (takeCargoUnitForLaunch r)) = false)
  /\ (forall id, snd (takeCargoUnitForUnload r) = Some id ->
      cargoFullWarned (fst (takeCargoUnitForUnload r)) = false)
  /\ (1 <= drillAccumulator r -> snd (extractionTick r a) <= 0 ->
      drillLoop (S fuel) r a
      = (set_drillActive false (fst (extractionTick r a)), a)).
Proof.
  repeat match goal with |- _ /\ _ => split end.
  - open addCargo. cbv zeta.
    destruct (Math_min units _ <=? 0) eqn:Z; cbn [fst snd].
    + intros _. split; intros W; rewrite W; reflexivity.
    + apply Qleb_gt in Z. intros L. lra.
  - open addCargo. cbv zeta.
    destruct (Math_min units _ <=? 0) eqn:Z; cbn [fst snd].
    + intros L. lra.
    + intros _. reflexivity.
  - intros id. open takeCargoUnitForLaunch.
    destruct (pickCandidate launchOrder (cargoBins r)) as [[key bin]|];
      [|discriminate].
    intros _. reflexivity.
  - intros id. open takeCargoUnitForUnload.
    destruct (pickCandidate unloadOrder (cargoBins r)) as [[key bin]|];
      [|discriminate].
    intros _. reflexivity.
  - intros Acc. apply Qgeb_le in Acc.
    cbn beta iota delta [drillLoop]. rewrite Acc. cbn [negb].
    open extractionTick. cbv zeta.
    destruct (sampleAsteroidResource _ a) as [r1 id].
    destruct (if ResourceId_eqb id fringeRelic then _ else _) as [n r2].
    destruct (addCargo r2 id n) as [r3 mined]. cbn [fst snd].
    intros Z. apply Qleb_le in Z. rewrite Z. reflexivity.
Qed.

Lemma pickCandidate_none compare bins :
  pickCandidate compare bins = None ->
  forall key, ~ 0 < bin_units (getBin bins key).
Proof.
  unfold pickCandidate. intros N key P.
  assert (I : In (key, getBin bins key)
                (sortBy compare
                   (List.filter (fun e => bin_units (snd e) >? 0)
                      (binEntries bins)))).
  { apply sortBy_in, filter_In. split.
    - unfold binEntries, allResources. destruct key; cbn [map In]; tauto.
    - apply Qgtb_lt. exact P. }
  destruct (sortBy compare _); [destruct I | discriminate N].
Qed.

(** Under the bin invariant the value density the launch order compares is
    the unit value of the resource. *)
Lemma launch_density bins e :
  BinsOk bins -> In e (binEntries bins) -> 0 < bin_units (snd e) ->
  bin_value (snd e) / Math_max 1 (bin_units (snd e))
  == def_value (RESOURCES (fst e)).
Proof.
  destruct e as [key bin]. cbn [fst snd]. intros Ok I P.
  apply binEntries_in in I. subst bin.
  destruct (Ok key) as (_ & N & _ & V).
  pose proof (isCount_ge1 _ N P) as G.
  destruct (Math_max_cases 1 (bin_units (getBin bins key))) as [[_ ->]|[L _]];
    [|lra].
  rewrite V. field. lra.
Qed.

(** C9 (cargo launch selection).  When the launch key edge-fires on a
    runtime whose bins satisfy the cargo invariant: if some bin holds a
    unit, one unit leaves a bin that holds units and whose resource has the
    greatest unit value among the bins that hold units, the other bins stay
    as they were, and one projectile of that resource is appended whose
    damage is 8 + value / 12 and whose boarding-delay bonus is
    2 + damage * 0.16; if no bin holds a unit, the bins, the used volume and
    the projectiles stay as they were. *)
Theorem cargo_launch_selection r ks :
  BinsOk (cargoBins r) -> justPressed r ks "Space" = true ->
  let r' := launchCargoShot H r ks in
  ((exists key, 0 < bin_units (getBin (cargoBins r) key)) ->
   exists key shot,
     0 < bin_units (getBin (cargoBins r) key)
     /\ (forall other, 0 < bin_units (getBin (cargoBins r) other) ->
         def_value (RESOURCES other) <= def_value (RESOURCES key))
     /\ bin_units (getBin (cargoBins r') key)
        = bin_units (getBin (cargoBins r) key) - 1
     /\ (forall other, other <> key ->
         getBin (cargoBins r') other = getBin (cargoBins r) other)
     /\ cargoShots r' = cargoShots r ++ [shot]
     /\ shot_shotType shot = cargoShot
     /\ shot_resourceId shot = Some key
     /\ shot_damage shot = 8 + def_value (RESOURCES key) / 12
     /\ shot_delayBonus shot = 2 + shot_damage shot * 0.16)
  /\ ((forall key, ~ 0 < bin_units (getBin (cargoBins r) key)) ->
      cargoBins r' = cargoBins r /\ cargoUsed r' = cargoUsed r
      /\ cargoValue r' = cargoValue r /\ cargoShots r' = cargoShots r).
Proof.
  intros Ok J r'. subst r'. open launchCargoShot. rewrite J. cbn [negb].
  open takeCargoUnitForLaunch.
  destruct (pickCandidate launchOrder (cargoBins r)) as [[key bin]|] eqn:Pk.
  - pose proof (pickCandidate_in _ _ _ Pk) as [I P]. cbn [snd] in P.
    pose proof (binEntries_in _ _ _ I) as B.
    destruct (Ok key) as (Id & _).
    assert (Best : forall other,
               0 < bin_units (getBin (cargoBins r) other) ->
               def_value (RESOURCES other) <= def_value (RESOURCES key)).
    { intros other Po.
      destruct (sortBy_head launchOrder
                  (fun e => bin_value (snd e) / Math_max 1 (bin_units (snd e)))
                  _ _ ltac:(intros; reflexivity) Pk) as [_ Mx].
      assert (Io : In (other, getBin (cargoBins r) other)
                     (binEntries (cargoBins r))).
      { unfold binEntries, allResources. destruct other; cbn [map In]; tauto. }
      specialize (Mx (other, getBin (cargoBins r) other)).
      rewrite (launch_density _ (other, _) Ok Io Po) in Mx.
      rewrite (launch_density _ (key, bin) Ok I P) in Mx.
      apply Mx. apply filter_In. split; [exact Io|].
      apply Qgtb_lt. exact Po. }
    subst bin. split.
    + intros _. exists key. eexists.
      repeat match goal with |- _ /\ _ => split end.
      * exact P.
      * exact Best.
      * cbv beta iota zeta delta [takeUnit]. cbn. rewrite getBin_setBin.
        rewrite (proj2 (ResourceId_eqb_eq key key) eq_refl). reflexivity.
      * intros other Ne. cbv beta iota zeta delta [takeUnit]. cbn.
        rewrite getBin_setBin.
        destruct (ResourceId_eqb key other) eqn:E; [|reflexivity].
        apply ResourceId_eqb_eq in E. congruence.
      * cbv beta iota zeta delta [takeUnit]. cbn. reflexivity.
      * reflexivity.
      * cbn. rewrite Id. reflexivity.
      * cbn. rewrite Id. reflexivity.
      * reflexivity.
    + intros E. exfalso. exact (E key P).
  - split.
    + intros [key P]. exfalso.
      exact (pickCandidate_none _ _ Pk key P).
    + intros _. repeat split.
Qed.

End Runs.

(** ** The theorems on concrete runs *)








Lemma pirate_state_monotone_witness :
  pirateState (stepAll refHost disabledRuntime sampleFrames)
  = pirateState disabledRuntime.
Proof.
  refine (proj1 (pirate_state_monotone refHost disabledRuntime sampleFrames
                   0 (pressed [])) _).
  left. vm_compute. reflexivity.
Defined.

Lemma terminal_outcome_freeze_witness :
  let r' := stepRuntime refHost wonRuntime 0.016 (pressed ["KeyW"]) in
  r' = set_prevKeys (prevKeys r') wonRuntime.
Proof.
  refine (proj1 (terminal_outcome_freeze refHost wonRuntime 0.016
                   (pressed ["KeyW"]) _)).
  left. vm_compute. reflexivity.
Defined.

Lemma mission_outcome_rules_witness :
  status (evaluateMissionOutcome breachedRuntime) = lost
  /\ boardedAndLost (updatePirate refHost boardingRuntime 0.05).
Proof.
  split.
  - refine (proj1 (proj1 (mission_outcome_rules refHost breachedRuntime 0 0)
                     _) _).
    + vm_compute. reflexivity.
    + vm_compute. discriminate.
  - refine (proj1 (proj2 (mission_outcome_rules refHost boardingRuntime 0.05
                            0.01) _ _ _)).
    + vm_compute. reflexivity.
    + vm_compute. reflexivity.
    + vm_compute. discriminate.
Defined.


Lemma cargo_full_latch_witness :
  fst (addCargo nearlyFull fringeRelic 1)
  = set_cargoFullWarned true (addEvent nearlyFull cargoFullMessage alert)
  /\ drillLoop 1 fullHold sampleAsteroid
     = (set_drillActive false (fst (extractionTick fullHold sampleAsteroid)),
        sampleAsteroid).
Proof.
  split.
  - refine (proj1 (proj1 (cargo_full_latch nearlyFull fringeRelic 1
                            sampleAsteroid 0) _) _).
    + vm_compute. discriminate.
    + vm_compute. reflexivity.
  - refine (proj2 (proj2 (proj2 (proj2
              (cargo_full_latch fullHold fringeRelic 1 sampleAsteroid 0))))
              _ _).
    + vm_compute. discriminate.
    + vm_compute. discriminate.
Defined.

(** With 125 of 130 volume units used a fringe relic (6) is refused and the
    latch is set.  A xeno crystal (2) then fits: the cargo changes and the
    latch stays set, so the next refusal emits no event. *)
Lemma cargo_full_latch_counterexample :
  cargoFullWarned warned = true
  /\ 0 < snd topped
  /\ ~ cargoUsed (fst topped) == cargoUsed warned
  /\ cargoFullWarned (fst topped) = true
  /\ snd (addCargo (fst topped) fringeRelic 1) == 0
  /\ events (fst (addCargo (fst topped) fringeRelic 1)) = events (fst topped).
Proof.
  vm_compute. repeat split; try reflexivity; discriminate.
Qed.

Lemma loadedRuntime_bins : BinsOk (cargoBins loadedRuntime).
Proof.
  apply addCargo_cargo; [exists 1%Z; split; [lia | reflexivity]|].
  apply addCargo_cargo; [exists 2%Z; split; [lia | reflexivity]|].
  apply createRuntime_cargo.
Qed.

Lemma cargo_launch_selection_witness :
  exists key shot,
    0 < bin_units (getBin (cargoBins loadedRuntime) key)
    /\ (forall other,
          0 < bin_units (getBin (cargoBins loadedRuntime) other) ->
          def_value (RESOURCES other) <= def_value (RESOURCES key))
    /\ cargoShots (launchCargoShot refHost loadedRuntime
                     (keys (pressed ["Space"])))
       = cargoShots loadedRuntime ++ [shot]
    /\ shot_resourceId shot = Some key.
Proof.
  destruct (proj1 (cargo_launch_selection refHost loadedRuntime
                     (keys (pressed ["Space"])) loadedRuntime_bins
                     ltac:(vm_compute; reflexivity))
              ltac:(exists waterIce; vm_compute; reflexivity))
    as (key & shot & P & B & _ & _ & S & _ & I & _).
  exists key, shot. repeat split; assumption.
Defined.



(** * More of the runtime: its functions, a frame, a run, the hangar and the
    HUD *)

(** ** The generator and the sampling functions *)

Lemma rngNext_state state :
  (0 <= snd (rngNext state) < 4294967296)%Z
  /\ fst (rngNext state) == inject_Z (snd (rngNext state)) / 4294967296.
Proof.
  unfold rngNext. cbn [fst snd]. split.
  - apply Z.mod_pos_bound. lia.
  - rewrite Qmake_Qdiv. reflexivity.
Qed.

(** X1 (generator range).  Every call of the generator made by
    [seededRandom(seed)], for any seed, returns a number in [0, 1): the state
    divided by 2^32, the state staying within 32 bits. *)
Theorem generator_unit_interval seed n :
  (0 <= seededRandom seed < 4294967296)%Z
  /\ 0 <= fst (drawN n (seededRandom seed))
  /\ fst (drawN n (seededRandom seed)) < 1
  /\ (0 <= snd (drawN n (seededRandom seed)) < 4294967296)%Z
  /\ fst (drawN n (seededRandom seed))
     == inject_Z (snd (drawN n (seededRandom seed))) / 4294967296.
Proof.
  split; [apply Z.mod_pos_bound; lia|].
  generalize (seededRandom seed). induction n as [|n IH]; intros state.
  - cbn [drawN]. pose proof (rngNext_range state) as [? ?].
    pose proof (rngNext_state state) as [? ?]. auto.
  - cbn [drawN]. apply IH.
Qed.









(** ** Input edges *)

Lemma recorded_other (ks : gmap string bool) codes code :
  forall prev : gmap string bool,
  ~ In code codes ->
  fold_left (fun prev c => <[c := isDown ks c]> prev) codes prev !! code
  = prev !! code.
Proof.
  induction codes as [|c codes IH]; intros prev N; [reflexivity|].
  cbn [fold_left]. rewrite IH by (intros I; apply N; right; exact I).
  apply lookup_insert_ne. intros E. apply N. left. exact E.
Qed.

Lemma recorded_code (ks : gmap string bool) codes code :
  forall prev : gmap string bool,
  In code codes ->
  fold_left (fun prev c => <[c := isDown ks c]> prev) codes prev !! code
  = Some (isDown ks code).
Proof.
  induction codes as [|c codes IH]; intros prev I; [destruct I|].
  cbn [fold_left].
  destruct (in_dec string_dec code codes) as [L|L]; [apply IH, L|].
  rewrite recorded_other by exact L.
  destruct I as [->|I]; [|contradiction]. apply lookup_insert_eq.
Qed.

(** ** Flight bounds *)





(** ** The freighter *)

Lemma clamp_unit v : 0 <= clamp v 0 1 /\ clamp v 0 1 <= 1.
Proof.
  unfold clamp.
  destruct (Math_min_cases 1 v) as [[? ->]|[? ->]];
    match goal with
    | |- context [Math_max ?a ?b] =>
        destruct (Math_max_cases a b) as [[? ->]|[? ->]]
    end; split; lra.
Qed.

Lemma clamp_low v : v <= 0 -> clamp v 0 1 == 0.
Proof.
  intros L. unfold clamp.
  destruct (Math_min_cases 1 v) as [[? ->]|[? ->]];
    match goal with
    | |- context [Math_max ?a ?b] =>
        destruct (Math_max_cases a b) as [[? ->]|[? ->]]
    end; lra.
Qed.

Lemma clamp_high v : 1 <= v -> clamp v 0 1 == 1.
Proof.
  intros L. unfold clamp.
  destruct (Math_min_cases 1 v) as [[? ->]|[? ->]];
    match goal with
    | |- context [Math_max ?a ?b] =>
        destruct (Math_max_cases a b) as [[? ->]|[? ->]]
    end; lra.
Qed.

(** X5 (freighter transit).  [updateFreighterTransit] puts the freighter on
    the segment from [FREIGHTER_TRANSIT_START] to [FREIGHTER_TRANSIT_END]: at
    the start while the countdown is at or above its initial value, at the end
    once it is at or below 0; no other field changes. *)
Theorem freighter_on_track r :
  let p := freighterPosition (updateFreighterTransit r) in
  vx p == FREIGHTER_EDGE_X /\ vy p == 0
  /\ minZ ASTEROID_FIELD_BOUNDS <= vz p /\ vz p <= maxZ ASTEROID_FIELD_BOUNDS
  /\ (TOTAL_MISSION_SECONDS <= missionSeconds r ->
      vz p == minZ ASTEROID_FIELD_BOUNDS)
  /\ (missionSeconds r <= 0 -> vz p == maxZ ASTEROID_FIELD_BOUNDS)
  /\ updateFreighterTransit r = set_freighterPosition p r.
Proof.
  unfold updateFreighterTransit.
  cbn [freighterPosition set_freighterPosition].
  set (v := (TOTAL_MISSION_SECONDS - missionSeconds r)
            / TOTAL_MISSION_SECONDS).
  assert (V : v == (320 - missionSeconds r) * (1 # 320)) by reflexivity.
  pose proof (clamp_unit v) as [C0 C1].
  unfold lerpVectors, FREIGHTER_TRANSIT_START, FREIGHTER_TRANSIT_END,
    FREIGHTER_EDGE_X, TOTAL_MISSION_SECONDS.
  cbn [vx vy vz]. unfold ASTEROID_FIELD_BOUNDS. cbn [minX minZ maxZ].
  repeat match goal with |- _ /\ _ => split end; try lra; try reflexivity.
  - intros L. rewrite clamp_low by lra. lra.
  - intros L. rewrite clamp_high by lra. lra.
Qed.

Lemma freighter_on_track_witness :
  vz (freighterPosition (updateFreighterTransit sampleRuntime))
  == minZ ASTEROID_FIELD_BOUNDS.
Proof.
  refine (proj1 (proj2 (proj2 (proj2 (proj2
            (freighter_on_track sampleRuntime))))) _).
  vm_compute. discriminate.
Defined.

Section Actions.
Variable H : Host.

(** ** Docking *)


(** ** Damage to the pirate *)

(** X7 (pirate damage).  [applyPirateDamage] does nothing unless the pirate is
    incoming and the damage positive. Otherwise the pirate hull drops by the
    damage, not below 0; while hull is left the pirate stays incoming, and
    when none is left the pirate is disabled, stopped, and its boarding timer
    cleared. *)
Theorem pirate_damage r damage :
  let r' := fst (applyPirateDamage r damage) in
  let disabledNow := snd (applyPirateDamage r damage) in
  (pirateState r <> incoming \/ damage <= 0 -> r' = r /\ disabledNow = false)
  /\ (pirateState r = incoming -> 0 < damage ->
      pirateHull r' = Math_max 0 (pirateHull r - damage)
      /\ 0 <= pirateHull r'
      /\ (damage < pirateHull r ->
          pirateState r' = incoming /\ disabledNow = false
          /\ pirateBoardTimer r' = pirateBoardTimer r)
      /\ (pirateHull r <= damage ->
          pirateState r' = disabled /\ disabledNow = true
          /\ pirateBoardTimer r' = PosInf
          /\ pirateVelocity r' = mkV 0 0 0)).
Proof.
  intros r' disabledNow. subst r' disabledNow. unfold applyPirateDamage.
  split.
  - intros [N|N].
    + destruct (PirateState_eqb (pirateState r) incoming) eqn:E.
      * apply PirateState_eqb_eq in E. contradiction.
      * split; reflexivity.
    + apply Qleb_le in N. rewrite N, orb_true_r. split; reflexivity.
  - intros I P. apply Qleb_gt in P. rewrite I, P.
    cbv beta iota zeta delta [negb orb PirateState_eqb].
    cbn [pirateHull set_pirateHull].
    destruct (Math_max_cases 0 (pirateHull r - damage)) as [[L M]|[L M]];
      rewrite M.
    + repeat match goal with |- _ /\ _ => split end.
      * destruct (_ >? 0); reflexivity.
      * destruct (_ >? 0); cbn [fst pirateHull set_pirateHull]; exact L.
      * intros D. assert (G : 0 < pirateHull r - damage) by lra.
        apply Qgtb_lt in G. rewrite G.
        repeat split; try reflexivity; exact I.
      * intros D. assert (G : pirateHull r - damage <= 0) by lra.
        apply Qgtb_le in G. rewrite G. repeat split.
    + assert (G : (0 >? 0) = false) by reflexivity. rewrite G.
      cbn [fst snd].
      repeat match goal with |- _ /\ _ => split end.
      * reflexivity.
      * apply Qle_refl.
      * intros D. lra.
      * intros _. repeat split.
Qed.

(** ** The weapon *)

(** X8 (weapon fire).  [launchWeaponShot]: without an edge of the fire key
    nothing changes. With no weapon installed or no ammunition left the shot
    is refused: an alert is logged, and ammunition and projectiles stay as
    they are. Otherwise one round is spent and one weapon projectile is
    appended, carrying the weapon damage and a boarding delay of 1.2 + damage
    * 0.06; no event is logged. *)
Theorem weapon_launch r ks :
  let r' := launchWeaponShot H r ks in
  (justPressed r ks "KeyQ" = false -> r' = r)
  /\ (justPressed r ks "KeyQ" = true ->
      weaponMaxAmmo r <= 0 \/ weaponDamage r <= 0 \/ weaponAmmo r <= 0 ->
      weaponAmmo r' = weaponAmmo r /\ cargoShots r' = cargoShots r
      /\ cargoShotSerial r' = cargoShotSerial r
      /\ eventSerial r' = (eventSerial r + 1)%Z)
  /\ (justPressed r ks "KeyQ" = true -> 0 < weaponMaxAmmo r ->
      0 < weaponDamage r -> 0 < weaponAmmo r ->
      weaponAmmo r' = weaponAmmo r - 1
      /\ events r' = events r
      /\ exists shot,
           cargoShots r' = cargoShots r ++ [shot]
           /\ shot_id shot = (cargoShotSerial r + 1)%Z
           /\ cargoShotSerial r' = shot_id shot
           /\ shot_shotType shot = weaponShot
           /\ shot_resourceId shot = None
           /\ shot_damage shot = weaponDamage r
           /\ shot_delayBonus shot = 1.2 + weaponDamage r * 0.06
           /\ shot_life shot = CARGO_SHOT_LIFETIME).
Proof.
  intros r'. subst r'. unfold launchWeaponShot.
  repeat match goal with |- _ /\ _ => split end.
  - intros J. rewrite J. reflexivity.
  - intros J. rewrite J. cbv beta iota delta [negb].
    intros [N|[N|N]]; apply Qleb_le in N.
    + rewrite N. repeat split.
    + rewrite N, orb_true_r. repeat split.
    + rewrite N. destruct (_ || _); repeat split.
  - intros J M D A. apply Qleb_gt in M, D, A. rewrite J, M, D, A.
    cbv beta iota delta [negb orb]. split; [reflexivity|].
    split; [reflexivity|]. eexists. repeat split.
Qed.

End Actions.


Lemma pirate_damage_witness :
  pirateState (fst (applyPirateDamage boardingRuntime 500)) = disabled.
Proof.
  refine (proj1 (proj2 (proj2 (proj2 (proj2
            (pirate_damage boardingRuntime 500) _ _))) _)).
  - vm_compute. reflexivity.
  - vm_compute. reflexivity.
  - vm_compute. discriminate.
Defined.

Lemma weapon_launch_witness :
  weaponAmmo (launchWeaponShot refHost
                (createRuntime refHost 1 (withWeapon 12 24))
                (keys (pressed ["KeyQ"%string]))) = 12 - 1.
Proof.
  destruct (weapon_launch refHost (createRuntime refHost 1 (withWeapon 12 24))
              (keys (pressed ["KeyQ"%string]))) as (_ & _ & W).
  destruct W as [A _]; [vm_compute; reflexivity .. | exact A].
Defined.

(** ** Docked unloading *)

Lemma unload_density bins e :
  BinsOk bins -> In e (binEntries bins) ->
  def_value (RESOURCES (bin_resourceId (snd e)))
  = def_value (RESOURCES (fst e)).
Proof.
  destruct e as [key bin]. cbn [fst snd]. intros Ok I.
  apply binEntries_in in I. subst bin. destruct (Ok key) as (-> & _).
  reflexivity.
Qed.

Lemma binEntries_all bins key : In (key, getBin bins key) (binEntries bins).
Proof. unfold binEntries, allResources. destruct key; cbn [map In]; tauto. Qed.

(** X9 (unload selection).  [takeCargoUnitForUnload] on bins that satisfy the
    cargo invariant: when some bin holds a unit, one unit leaves a bin whose
    resource has the greatest unit value among the bins that hold units, the
    other bins stay as they were, and the cargo-full latch is cleared; when no
    bin holds a unit, nothing changes. *)
Theorem unload_selection r :
  BinsOk (cargoBins r) ->
  let r' := fst (takeCargoUnitForUnload r) in
  match snd (takeCargoUnitForUnload r) with
  | Some id =>
      0 < bin_units (getBin (cargoBins r) id)
      /\ (forall other, 0 < bin_units (getBin (cargoBins r) other) ->
          def_value (RESOURCES other) <= def_value (RESOURCES id))
      /\ bin_units (getBin (cargoBins r') id)
         = bin_units (getBin (cargoBins r) id) - 1
      /\ (forall other, other <> id ->
          getBin (cargoBins r') other = getBin (cargoBins r) other)
      /\ cargoUsed r'
         = Math_max 0 (cargoUsed r - def_volume (RESOURCES id))
      /\ cargoValue r'
         = Math_max 0 (cargoValue r - def_value (RESOURCES id))
      /\ cargoFullWarned r' = false
  | None =>
      (forall key, ~ 0 < bin_units (getBin (cargoBins r) key)) /\ r' = r
  end.
Proof.
  intros Ok r'. subst r'. unfold takeCargoUnitForUnload.
  destruct (pickCandidate unloadOrder (cargoBins r)) as [[key bin]|] eqn:Pk.
  - pose proof (pickCandidate_in _ _ _ Pk) as [I P]. cbn [snd] in P.
    pose proof (binEntries_in _ _ _ I) as B.
    destruct (Ok key) as (Id & _).
    assert (Best : forall other,
               0 < bin_units (getBin (cargoBins r) other) ->
               def_value (RESOURCES other) <= def_value (RESOURCES key)).
    { intros other Po.
      destruct (sortBy_head unloadOrder
                  (fun e => def_value (RESOURCES (bin_resourceId (snd e))))
                  _ _ ltac:(intros; reflexivity) Pk) as [_ Mx].
      specialize (Mx (other, getBin (cargoBins r) other)).
      rewrite (unload_density _ (other, _) Ok (binEntries_all _ _)) in Mx.
      rewrite (unload_density _ (key, bin) Ok I) in Mx.
      apply Mx. apply filter_In. split; [apply binEntries_all|].
      apply Qgtb_lt. exact Po. }
    subst bin. cbn. rewrite Id.
    repeat match goal with |- _ /\ _ => split end; try reflexivity.
    + exact P.
    + exact Best.
    + rewrite getBin_setBin.
      rewrite (proj2 (ResourceId_eqb_eq key key) eq_refl). reflexivity.
    + intros other Ne. rewrite getBin_setBin.
      destruct (ResourceId_eqb key other) eqn:E; [|reflexivity].
      apply ResourceId_eqb_eq in E. congruence.
  - cbn [fst snd]. split; [|reflexivity].
    apply (pickCandidate_none _ _ Pk).
Qed.

Lemma unload_selection_witness :
  snd (takeCargoUnitForUnload loadedRuntime) = Some xenoCrystal
  /\ bin_units (getBin (cargoBins (fst (takeCargoUnitForUnload loadedRuntime)))
                  xenoCrystal)
     = bin_units (getBin (cargoBins loadedRuntime) xenoCrystal) - 1.
Proof.
  pose proof (unload_selection loadedRuntime loadedRuntime_bins) as U.
  assert (E : snd (takeCargoUnitForUnload loadedRuntime) = Some xenoCrystal)
    by (vm_compute; reflexivity).
  cbv zeta in U. rewrite E in U. split; [reflexivity|]. apply U.
Defined.

Lemma takeUnit_accumulator r c :
  unloadAccumulator (fst (takeUnit r c)) = unloadAccumulator r.
Proof. destruct c. reflexivity. Qed.

Lemma unloadLoop_exit fuel : forall r,
  unloadAccumulator r < inject_Z (Z.of_nat fuel) + 1 ->
  unloadDone (unloadLoop fuel r).
Proof.
  induction fuel as [|fuel IH]; intros r B.
  - left. exact B.
  - assert (S : inject_Z (Z.of_nat (S fuel)) == inject_Z (Z.of_nat fuel) + 1).
    { rewrite Nat2Z.inj_succ. unfold Z.succ. rewrite inject_Z_plus.
      reflexivity. }
    cbn [unloadLoop].
    destruct (unloadAccumulator r >=? 1) eqn:A; cbn [negb];
      [|left; apply Qgeb_lt, A].
    destruct (0 <? powerballCargo r)%Z eqn:Pb.
    + apply IH. cbn. lra.
    + unfold takeCargoUnitForUnload.
      destruct (pickCandidate unloadOrder (cargoBins r)) as [c|] eqn:Pk.
      * pose proof (takeUnit_accumulator r c) as T.
        destruct (takeUnit r c) as [r1 id]. cbn [fst] in T.
        apply IH. cbn. rewrite T. lra.
      * right. split; [apply Z.ltb_ge, Pb|].
        apply (pickCandidate_none _ _ Pk).
Qed.

Lemma loopBound_enough q : q < inject_Z (Z.of_nat (loopBound q)) + 1.
Proof.
  unfold loopBound.
  pose proof (Qlt_floor q) as F.
  assert (L : inject_Z (Qfloor q + 1)
              <= inject_Z (Z.of_nat (Z.to_nat (Qfloor q))) + 1).
  { rewrite inject_Z_plus.
    assert (inject_Z (Qfloor q)
            <= inject_Z (Z.of_nat (Z.to_nat (Qfloor q)))).
    { rewrite <- Zle_Qle. lia. }
    change (inject_Z 1) with 1. lra. }
  lra.
Qed.

Lemma unloadLoop_exhausts r :
  unloadDone (unloadLoop (loopBound (unloadAccumulator r)) r).
Proof. apply unloadLoop_exit, loopBound_enough. Qed.

(** ** The drill loop *)

Lemma addCargo_frame r id n :
  drillAccumulator (fst (addCargo r id n)) = drillAccumulator r
  /\ powerballCargo (fst (addCargo r id n)) = powerballCargo r
  /\ grabbedAsteroidId (fst (addCargo r id n)) = grabbedAsteroidId r
  /\ drillActive (fst (addCargo r id n)) = drillActive r.
Proof.
  unfold addCargo. destruct (_ <=? 0); [destruct (negb _)|]; repeat split.
Qed.

Lemma extractionTick_frame r a :
  drillAccumulator (fst (extractionTick r a)) = drillAccumulator r - 1
  /\ powerballCargo (fst (extractionTick r a)) = powerballCargo r.
Proof.
  unfold extractionTick, sampleAsteroidResource.
  match goal with
  | |- context [rngNext ?s] => destruct (rngNext s) as [roll state]
  end.
  cbv beta iota zeta.
  match goal with
  | |- context [ResourceId_eqb ?i fringeRelic] =>
      destruct (ResourceId_eqb i fringeRelic)
  end.
  - match goal with
    | |- context [addCargo ?s ?i ?n] =>
        destruct (addCargo_frame s i n) as (A & B & _)
    end.
    split; [exact A | exact B].
  - cbn [rng set_rng]. destruct (rngNext state) as [u state'].
    match goal with
    | |- context [addCargo ?s ?i ?n] =>
        destruct (addCargo_frame s i n) as (A & B & _)
    end.
    split; [exact A | exact B].
Qed.

(** One pass of the drill loop, in terms of [extractionTick]. *)
Lemma drillLoop_step fuel r a :
  drillLoop (S fuel) r a
  = if negb (drillAccumulator r >=? 1) then (r, a)
    else
      let r1 := fst (extractionTick r a) in
      if snd (extractionTick r a) <=? 0 then (set_drillActive false r1, a)
      else
        let found := ast_hasPowerball a && negb (ast_powerballRecovered a) in
        let r2 :=
          if found then
            addEvent (set_powerballCargo (powerballCargo r1 + 1)%Z r1)
              "Powerball recovered. Stowed aboard for delivery." good
          else r1 in
        let a2 := if found then set_ast_powerballRecovered true a else a in
        let a3 := set_ast_oreReserve (ast_oreReserve a2 - 1) a2 in
        if ast_oreReserve a3 <=? 0 then
          (addEvent
             (set_grabbedAsteroidId None
                (set_asteroidDepletionSerial
                   (asteroidDepletionSerial r2 + 1)%Z r2))
             "Target asteroid depleted. Grabber auto-released." info,
           set_ast_oreReserve 0 a3)
        else drillLoop fuel r2 a3.
Proof.
  cbn [drillLoop]. unfold extractionTick.
  destruct (negb (drillAccumulator r >=? 1)); [reflexivity|].
  destruct (sampleAsteroidResource _ a) as [r1 id].
  destruct (if ResourceId_eqb id fringeRelic then _ else _) as [n r2].
  destruct (addCargo r2 id n) as [r3 mined]. cbn [fst snd].
  destruct (mined <=? 0); [reflexivity|].
  destruct (ast_hasPowerball a && negb (ast_powerballRecovered a));
    reflexivity.
Qed.

Lemma drillLoop_exit fuel : forall r a,
  drillAccumulator r < inject_Z (Z.of_nat fuel) + 1 ->
  drillDone (drillLoop fuel r a).
Proof.
  induction fuel as [|fuel IH]; intros r a B.
  - left. exact B.
  - assert (S : inject_Z (Z.of_nat (S fuel)) == inject_Z (Z.of_nat fuel) + 1).
    { rewrite Nat2Z.inj_succ. unfold Z.succ. rewrite inject_Z_plus.
      reflexivity. }
    rewrite drillLoop_step.
    destruct (drillAccumulator r >=? 1) eqn:A; cbn [negb];
      [|left; apply Qgeb_lt, A].
    pose proof (extractionTick_frame r a) as [T _].
    cbv zeta.
    destruct (snd (extractionTick r a) <=? 0); [right; left; reflexivity|].
    match goal with
    | |- drillDone (if ?c then _ else _) => destruct c
    end.
    + right. right. split; reflexivity.
    + apply IH.
      destruct (ast_hasPowerball a && negb (ast_powerballRecovered a));
        cbn [drillAccumulator addEvent set_events set_eventSerial
             set_powerballCargo]; rewrite T; lra.
Qed.

Lemma drillLoop_exhausts r a :
  drillDone (drillLoop (loopBound (drillAccumulator r)) r a).
Proof. apply drillLoop_exit, loopBound_enough. Qed.

(** X10 (work loops).  The two work loops run until they have nothing more to
    do, with the iteration bounds [updateDockedSystems] and [updateDrill] give
    them. The unload loop ends with less than one unit of unload progress, or
    with no powerball and no cargo unit left; the drill loop ends with less
    than one unit of drill progress, or with the drill switched off because
    the hold refused the ore, or with the asteroid at 0 ore and released. *)
Theorem work_loops_complete r a :
  unloadDone (unloadLoop (loopBound (unloadAccumulator r)) r)
  /\ drillDone (drillLoop (loopBound (drillAccumulator r)) r a).
Proof.
  split; [apply unloadLoop_exhausts | apply drillLoop_exhausts].
Qed.


Ltac drill_fields :=
  cbn [fst snd ast_oreReserve ast_id ast_radius ast_position ast_velocity
           ast_hasPowerball ast_powerballRecovered set_ast_oreReserve
           set_ast_powerballRecovered powerballCargo addEvent set_events
           set_eventSerial set_grabbedAsteroidId set_asteroidDepletionSerial
           set_powerballCargo set_drillActive] in *.

(** X11 (drilled ore).  Drilling an asteroid with ore left never raises its
    ore reserve and never takes it below 0, and leaves its id, radius,
    position and velocity alone; a recovered powerball stays recovered; and
    one run of the loop stows at most one powerball, only from an asteroid
    that has one not yet recovered. *)
Theorem drill_ore_bounds fuel r a :
  0 <= ast_oreReserve a ->
  let a' := snd (drillLoop fuel r a) in
  let r' := fst (drillLoop fuel r a) in
  0 <= ast_oreReserve a' /\ ast_oreReserve a' <= ast_oreReserve a
  /\ ast_id a' = ast_id a /\ ast_radius a' = ast_radius a
  /\ ast_position a' = ast_position a /\ ast_velocity a' = ast_velocity a
  /\ ast_hasPowerball a' = ast_hasPowerball a
  /\ (ast_powerballRecovered a = true -> ast_powerballRecovered a' = true)
  /\ (powerballCargo r' = powerballCargo r
      \/ (powerballCargo r' = (powerballCargo r + 1)%Z
          /\ ast_hasPowerball a = true /\ ast_powerballRecovered a = false
          /\ ast_powerballRecovered a' = true)).
Proof.
  revert r a. induction fuel as [|fuel IH]; intros r a O.
  - cbn [drillLoop]. drill_fields. repeat split; auto; lra.
  - rewrite drillLoop_step.
    destruct (negb (drillAccumulator r >=? 1)).
    { drill_fields. repeat split; auto; lra. }
    pose proof (extractionTick_frame r a) as [_ T].
    cbv zeta.
    destruct (snd (extractionTick r a) <=? 0).
    { drill_fields. rewrite T.
      repeat split; auto; lra. }
    destruct (ast_hasPowerball a && negb (ast_powerballRecovered a)) eqn:F.
    + apply andb_true_iff in F as [Hp Rc]. apply negb_true_iff in Rc.
      match goal with
      | |- context [if ?c then _ else _] => destruct c eqn:E
      end.
      * drill_fields. rewrite T.
        repeat match goal with |- _ /\ _ => split end;
          try reflexivity; try lra.
        right. repeat split; assumption.
      * apply Qleb_gt in E. drill_fields.
        match goal with
        | |- context [drillLoop _ ?s ?b] =>
            specialize (IH s b); cbv zeta in IH;
            destruct IH as (I1 & I2 & I3 & I4 & I5 & I6 & I7 & I8 & I9);
            [drill_fields; lra|]
        end.
        drill_fields. rewrite T in *.
        repeat match goal with |- _ /\ _ => split end;
          try assumption; try lra.
        -- intros _. apply I8. reflexivity.
        -- right. destruct I9 as [I9|(_ & _ & C & _)]; [|discriminate C].
          repeat split; try assumption. apply I8. reflexivity.
    + match goal with
      | |- context [if ?c then _ else _] => destruct c eqn:E
      end.
      * drill_fields. rewrite T.
        repeat match goal with |- _ /\ _ => split end;
          try reflexivity; try lra; auto.
      * apply Qleb_gt in E. drill_fields.
        match goal with
        | |- context [drillLoop _ ?s ?b] =>
            specialize (IH s b); cbv zeta in IH;
            destruct IH as (I1 & I2 & I3 & I4 & I5 & I6 & I7 & I8 & I9);
            [drill_fields; lra|]
        end.
        drill_fields. rewrite T in *.
        repeat match goal with |- _ /\ _ => split end;
          try assumption; try lra.
Qed.

(** ** Cargo value *)

Lemma holdValue_setBin bins id b :
  BinsOk bins -> bin_resourceId b = id ->
  holdValue (setBin bins id b)
  == holdValue bins
     + (bin_units b - bin_units (getBin bins id)) * def_value (RESOURCES id).
Proof.
  intros Ok Hb.
  pose proof (Ok scrapIron) as (I1 & _). pose proof (Ok waterIce) as (I2 & _).
  pose proof (Ok cobaltDust) as (I3 & _).
  pose proof (Ok xenoCrystal) as (I4 & _).
  pose proof (Ok fringeRelic) as (I5 & _).
  cbn [getBin] in I1, I2, I3, I4, I5.
  destruct id; unfold holdValue, binValues; cbn -[Qplus Qmult Qminus];
    rewrite ?Hb, ?I1, ?I2, ?I3, ?I4, ?I5; cbn -[Qplus Qmult Qminus]; ring.
Qed.

Lemma holdValue_ge bins id :
  BinsOk bins ->
  bin_units (getBin bins id) * def_value (RESOURCES id) <= holdValue bins.
Proof.
  intros Ok.
  pose proof (Ok scrapIron) as (I1 & N1 & _).
  pose proof (Ok waterIce) as (I2 & N2 & _).
  pose proof (Ok cobaltDust) as (I3 & N3 & _).
  pose proof (Ok xenoCrystal) as (I4 & N4 & _).
  pose proof (Ok fringeRelic) as (I5 & N5 & _).
  apply isCount_nonneg in N1, N2, N3, N4, N5.
  cbn [getBin] in *.
  destruct id; unfold holdValue, binValues; cbn -[Qplus Qmult Qminus];
    rewrite ?I1, ?I2, ?I3, ?I4, ?I5; cbn -[Qplus Qmult Qminus]; lra.
Qed.

Lemma takeUnit_value r key bin :
  ValueInv r -> In (key, bin) (binEntries (cargoBins r)) ->
  0 < bin_units bin ->
  ValueInv (fst (takeUnit r (key, bin)))
  /\ snd (takeUnit r (key, bin)) = key
  /\ cargoValue (fst (takeUnit r (key, bin)))
     == cargoValue r - def_value (RESOURCES key)
  /\ deliveredValue (fst (takeUnit r (key, bin))) = deliveredValue r
  /\ unloadAccumulator (fst (takeUnit r (key, bin))) = unloadAccumulator r.
Proof.
  intros (Ok & Val) I P. apply binEntries_in in I. subst bin.
  destruct (Ok key) as (Ik & Nb & Vol & Vl).
  pose proof (isCount_ge1 _ Nb P) as G.
  pose proof (def_volume_pos key) as Vp. pose proof (def_value_pos key) as Wp.
  pose proof (holdValue_ge _ key Ok) as Hg.
  open takeUnit. cbv zeta. cbn [fst snd]. unfold ValueInv.
  cbn [cargoBins cargoValue deliveredValue unloadAccumulator set_cargoValue
       set_cargoUsed set_cargoBins set_cargoFullWarned].
  rewrite Ik.
  rewrite (Math_max_0_nonneg (cargoValue r - _)) by nra.
  repeat match goal with |- _ /\ _ => split end; try reflexivity.
  - apply BinsOk_setBin; [exact Ok|].
    split; [|split; [|split]];
      cbn [bin_resourceId bin_units bin_volume bin_value].
    + reflexivity.
    + apply isCount_pred; assumption.
    + rewrite Math_max_0_nonneg by nra. rewrite Vol. ring.
    + rewrite Math_max_0_nonneg by nra. rewrite Vl. ring.
  - rewrite holdValue_setBin by (exact Ok || reflexivity).
    cbn [bin_units]. rewrite Val. ring.
Qed.

Lemma addCargo_value r id units :
  isCount units -> ValueInv r -> ValueInv (fst (addCargo r id units)).
Proof.
  intros U (Ok & Val). open addCargo. cbv zeta.
  set (accepted :=
         Math_min units
           (Math_floor
              (Math_max 0 (cargoCapacity r - cargoUsed r)
               / def_volume (RESOURCES id)))).
  destruct (accepted <=? 0) eqn:A.
  { cbn [fst]. destruct (negb (cargoFullWarned r)); split; auto. }
  apply Qleb_gt in A. cbn [fst].
  assert (N : isCount accepted).
  { unfold accepted in *.
    destruct (Math_min_cases units
                (Math_floor
                   (Math_max 0 (cargoCapacity r - cargoUsed r)
                    / def_volume (RESOURCES id)))) as [[? Q]|[? Q]];
      rewrite Q in *; [exact U | apply isCount_floor; exact A]. }
  destruct (Ok id) as (I & Nb & Vol & Vl).
  unfold ValueInv.
  cbn [cargoBins cargoValue set_cargoValue set_cargoUsed set_cargoBins].
  split.
  - apply BinsOk_setBin; [exact Ok|].
    split; [|split; [|split]]; cbn [bin_resourceId bin_units bin_volume bin_value].
    + exact I.
    + apply isCount_plus; assumption.
    + rewrite Vol. ring.
    + rewrite Vl. ring.
  - rewrite holdValue_setBin by (exact Ok || exact I).
    cbn [bin_units]. rewrite Val. ring.
Qed.

(** X12 (unload banks value).  The docked unload banks what it removes: on a
    runtime whose [cargoValue] is the value of the units in its bins, the loop
    keeps the sum of [deliveredValue] and [cargoValue], never lowers
    [deliveredValue], and leaves [cargoValue] the value of the units still in
    the bins. *)
Theorem unload_banks_value fuel r :
  ValueInv r ->
  ValueInv (unloadLoop fuel r)
  /\ deliveredValue (unloadLoop fuel r) + cargoValue (unloadLoop fuel r)
     == deliveredValue r + cargoValue r
  /\ deliveredValue r <= deliveredValue (unloadLoop fuel r).
Proof.
  revert r. induction fuel as [|fuel IH]; intros r V.
  - cbn [unloadLoop]. repeat split; try apply V; lra.
  - cbn [unloadLoop].
    destruct (negb (unloadAccumulator r >=? 1));
      [repeat split; try apply V; lra|].
    destruct (0 <? powerballCargo r)%Z.
    + match goal with
      | |- context [unloadLoop fuel ?s] =>
          destruct (IH s V) as (A & B & C)
      end.
      split; [exact A|]. split; [exact B | exact C].
    + unfold takeCargoUnitForUnload.
      destruct (pickCandidate unloadOrder (cargoBins r)) as [[key bin]|] eqn:Pk;
        [|repeat split; try apply V; lra].
      apply pickCandidate_in in Pk as [I P]. cbn [snd] in P.
      destruct (takeUnit_value r key bin V I P) as (V1 & K & C1 & D1 & _).
      destruct (takeUnit r (key, bin)) as [r1 id]. cbn [fst snd] in *.
      subst id. pose proof (def_value_pos key) as Wp.
      match goal with
      | |- context [unloadLoop fuel ?s] =>
          set (s1 := s); destruct (IH s1 V1) as (A & B & C)
      end.
      assert (D2 : deliveredValue s1
                   == deliveredValue r + def_value (RESOURCES key))
        by (subst s1; cbn; rewrite D1; reflexivity).
      assert (C2 : cargoValue s1 == cargoValue r1) by reflexivity.
      split; [exact A|]. split; lra.
Qed.

Section Physics.
Variable H : Host.

(** ** Asteroid collisions *)

Lemma collidePair_conserves a b :
  asteroidBody (fst (collidePair H a b)) = asteroidBody a
  /\ asteroidBody (snd (collidePair H a b)) = asteroidBody b
  /\ veq (vadd (ast_velocity (fst (collidePair H a b)))
            (ast_velocity (snd (collidePair H a b))))
         (vadd (ast_velocity a) (ast_velocity b)).
Proof.
  unfold collidePair.
  destruct (_ >=? _); [repeat split; cbn; lra|].
  cbv zeta. destruct (_ <? 0); repeat split; cbn; lra.
Qed.

Lemma collideWith_conserves rest : forall a,
  asteroidBody (fst (collideWith H a rest)) = asteroidBody a
  /\ map asteroidBody (snd (collideWith H a rest)) = map asteroidBody rest
  /\ veq (vadd (ast_velocity (fst (collideWith H a rest)))
            (totalVelocity (snd (collideWith H a rest))))
         (vadd (ast_velocity a) (totalVelocity rest)).
Proof.
  induction rest as [|b rest IH]; intros a.
  - cbn. repeat split; lra.
  - cbn [collideWith].
    destruct (collidePair_conserves a b) as (A & B & V).
    destruct (collidePair H a b) as [a1 b1]. cbn [fst snd] in *.
    destruct (IH a1) as (A2 & R2 & V2).
    destruct (collideWith H a1 rest) as [a2 rest2]. cbn [fst snd] in *.
    split; [congruence|]. split; [cbn [map]; congruence|].
    unfold veq in *. cbn [totalVelocity fold_right] in *.
    fold (totalVelocity rest) in *. fold (totalVelocity rest2) in *.
    cbn [vadd vx vy vz] in *. repeat split; lra.
Qed.

Lemma collideAll_conserves n : forall l,
  map asteroidBody (collideAll H n l) = map asteroidBody l
  /\ veq (totalVelocity (collideAll H n l)) (totalVelocity l).
Proof.
  induction n as [|n IH]; intros l.
  - destruct l; cbn; repeat split; lra.
  - destruct l as [|a rest]; [cbn; repeat split; lra|].
    cbn [collideAll].
    destruct (collideWith_conserves rest a) as (A & R & V).
    destruct (collideWith H a rest) as [a1 rest1]. cbn [fst snd] in *.
    destruct (IH rest1) as (R2 & V2).
    split; [cbn [map]; congruence|].
    unfold veq in *. cbn [totalVelocity fold_right] in *.
    fold (totalVelocity rest) in *. fold (totalVelocity rest1) in *.
    fold (totalVelocity (collideAll H n rest1)) in *.
    cbn [vadd vx vy vz] in *. repeat split; lra.
Qed.


(** ** Projectiles *)

Lemma cargoShotLoop_survivors dt shots : forall r shot,
  In shot (fst (cargoShotLoop H shots dt r)) ->
  exists old, In old shots /\ shot = advanceShot old dt
              /\ shotAlive shot = true.
Proof.
  induction shots as [|s shots IH]; intros r shot I; [destruct I|].
  cbn [cargoShotLoop] in I. cbv zeta in I.
  destruct ((shot_life (advanceShot s dt) <=? 0)
            || negb (shotInBounds (shot_position (advanceShot s dt))))
    eqn:Dead.
  - destruct (IH r shot I) as (old & O & E & A).
    exists old. split; [right; exact O|]. split; assumption.
  - match type of I with
    | context [let '(_, _) := ?e in _] => destruct e as [hit r1]
    end.
    pose proof (IH r1 shot) as IH1.
    destruct (cargoShotLoop H shots dt r1) as [act r2]. cbn [fst] in *.
    destruct hit.
    + destruct (IH1 I) as (old & O & E & A).
      exists old. split; [right; exact O|]. split; assumption.
    + destruct I as [<-|I].
      * exists s. split; [left; reflexivity|]. split; [reflexivity|].
        unfold shotAlive. rewrite Dead. reflexivity.
      * destruct (IH1 I) as (old & O & E & A).
        exists old. split; [right; exact O|]. split; assumption.
Qed.

Lemma cargoShotLoop_length dt shots : forall r,
  (List.length (fst (cargoShotLoop H shots dt r)) <= List.length shots)%nat.
Proof.
  induction shots as [|s shots IH]; intros r; [apply Nat.le_refl|].
  cbn [cargoShotLoop]. cbv zeta.
  destruct (_ || _).
  - specialize (IH r). cbn [List.length]. lia.
  - match goal with
    | |- context [let '(_, _) := ?e in _] => destruct e as [hit r1]
    end.
    specialize (IH r1).
    destruct (cargoShotLoop H shots dt r1) as [act r2]. cbn [fst] in *.
    destruct hit; cbn [List.length]; lia.
Qed.

Lemma cargoShotLoop_quiet dt shots : forall r,
  pirateState r <> incoming ->
  cargoShotLoop H shots dt r
  = (List.filter shotAlive (map (fun s => advanceShot s dt) shots), r).
Proof.
  induction shots as [|s shots IH]; intros r Q; [reflexivity|].
  cbn [cargoShotLoop map List.filter]. cbv zeta. unfold shotAlive at 1.
  destruct (_ || _); cbn [negb]; [apply IH, Q|].
  destruct (PirateState_eqb (pirateState r) incoming) eqn:E.
  { apply PirateState_eqb_eq in E. contradiction. }
  rewrite (IH r Q). reflexivity.
Qed.

(** X14 (projectiles).  [updateCargoShots]: every projectile it keeps is one
    of the previous projectiles moved by its velocity and aged by [dt], with
    life left and inside the projectile bounds; none is added. While the
    pirate is not incoming nothing but the projectile list changes, and the
    list is exactly the moved projectiles that are still alive. *)
Theorem projectiles_update r dt :
  let r' := updateCargoShots H r dt in
  (forall shot, In shot (cargoShots r') ->
   exists old, In old (cargoShots r) /\ shot = advanceShot old dt
               /\ 0 < shot_life shot
               /\ shotInBounds (shot_position shot) = true)
  /\ (List.length (cargoShots r') <= List.length (cargoShots r))%nat
  /\ (pirateState r <> incoming ->
      r' = set_cargoShots
             (List.filter shotAlive
                (map (fun s => advanceShot s dt) (cargoShots r))) r).
Proof.
  unfold updateCargoShots. split; [|split].
  - intros shot I.
    pose proof (cargoShotLoop_survivors dt (cargoShots r) r shot) as S.
    destruct (cargoShotLoop H (cargoShots r) dt r) as [act r1].
    cbn [fst cargoShots set_cargoShots] in *.
    destruct (S I) as (old & O & E & A). exists old.
    split; [exact O|]. split; [exact E|].
    unfold shotAlive in A. apply negb_true_iff, orb_false_iff in A as [L B].
    apply negb_false_iff in B. apply Qleb_gt in L. split; assumption.
  - pose proof (cargoShotLoop_length dt (cargoShots r) r) as L.
    destruct (cargoShotLoop H (cargoShots r) dt r) as [act r1].
    exact L.
  - intros Q. rewrite (cargoShotLoop_quiet dt _ r Q). reflexivity.
Qed.

(** ** The outcome and the frame step *)

(** X15 (outcome evaluation).  [evaluateMissionOutcome] changes nothing but
    the status, the outcome reason and the event log, and evaluating twice is
    evaluating once: an outcome, once set, is final. *)
Theorem outcome_idempotent r :
  let r' := evaluateMissionOutcome r in
  evaluateMissionOutcome r' = r'
  /\ r' = set_events (events r')
            (set_eventSerial (eventSerial r')
               (set_outcomeReason (outcomeReason r')
                  (set_status (status r') r)))
  /\ (status r <> active -> r' = r)
  /\ (status r' = active -> r' = r).
Proof.
  unfold evaluateMissionOutcome.
  destruct (status r) eqn:S; cbn [GameStatus_eqb negb];
    [destruct (hull r <=? 0) eqn:Hl;
     [|destruct (missionSeconds r <=? 0) eqn:M; [destruct (docked r) eqn:D|]]
    | | ];
    rewrite ?S, ?Hl, ?M, ?D; cbn [GameStatus_eqb negb];
    repeat match goal with |- _ /\ _ => split end;
    try reflexivity;
    try (intros C; first [discriminate C | congruence | reflexivity]);
    destruct r; cbn in *; subst; reflexivity.
Qed.

End Physics.

Section Construction.
Variable H : Host.

(** ** The initial state *)

Lemma createAsteroid_fresh state id bias :
  ast_id (fst (createAsteroid H state id bias)) = id
  /\ freshAsteroid (fst (createAsteroid H state id bias)).
Proof.
  unfold createAsteroid.
  pose proof (clamp_unit bias) as [B0 B1].
  set (q := clamp bias 0 1) in *.
  repeat match goal with
         | |- context [randomRange ?s ?lo ?hi] =>
             let E := fresh "E" in
             destruct (randomRange s lo hi) eqn:E
         | |- context [rngNext ?s] =>
             let E := fresh "E" in
             destruct (rngNext s) eqn:E
         | |- context [weightedPick ?s ?f ?o] =>
             destruct (weightedPick s f o)
         end.
  facts. cbn [fst ast_id]. split; [reflexivity|].
  unfold freshAsteroid.
  cbn [ast_radius ast_oreReserve ast_maxOreReserve ast_powerballRecovered
       ast_position ast_composition ast_baseColor ast_primaryResourceId
       vx vy vz List.length].
  repeat match goal with |- _ /\ _ => split end;
    try assumption; try reflexivity; try lra.
  - match goal with
    | |- context [Math_max 3 ?x] =>
        destruct (Math_max_cases 3 x) as [[? ->]|[? ->]]; lra
    end.
  - match goal with
    | |- context [Math_max 3 ?x] =>
        destruct (Math_max_cases 3 x) as [[? ->]|[? ->]]
    end.
    + apply isCount_floor. lra.
    + exists 3%Z. split; [lia | reflexivity].
  - repeat constructor; cbn [snd]; try lra.
    + destruct (Math_max_cases 0.08 (0.17 - q * 0.09)) as [[? ->]|[? ->]];
        lra.
    + destruct (Math_max_cases 0.09 (0.13 - q * 0.04)) as [[? ->]|[? ->]];
        lra.
  - unfold totalWeight. cbn [fold_right snd].
    destruct (Math_max_cases 0.08 (0.17 - q * 0.09)) as [[? ->]|[? ->]];
      destruct (Math_max_cases 0.09 (0.13 - q * 0.04)) as [[? ->]|[? ->]];
      lra.
Qed.

Lemma createAsteroids_fresh n : forall state id bias,
  map ast_id (fst (createAsteroids H n state id bias))
  = map (fun k => (id + Z.of_nat k)%Z) (seq 0 n)
  /\ Forall freshAsteroid (fst (createAsteroids H n state id bias)).
Proof.
  induction n as [|n IH]; intros state id bias.
  - split; [reflexivity | constructor].
  - cbn [createAsteroids].
    destruct (createAsteroid_fresh state id bias) as [I F].
    destruct (createAsteroid H state id bias) as [a s1]. cbn [fst] in *.
    destruct (IH s1 (id + 1)%Z bias) as [I2 F2].
    destruct (createAsteroids H n s1 (id + 1)%Z bias) as [rest s2].
    cbn [fst] in *. split; [|constructor; assumption].
    cbn [map seq]. rewrite I, I2, <- seq_shift, map_map.
    f_equal; [f_equal; lia|]. apply map_ext. intros k. lia.
Qed.

Lemma createRuntime_start seed modifiers :
  let r := createRuntime H seed modifiers in
  status r = active /\ pirateState r = quiet
  /\ cargoBins r = createCargoBins /\ cargoValue r = 0
  /\ deliveredValue r = 0 /\ deliveredPowerballScore r = 0%Z
  /\ (exists message,
      events r = [{| ev_id := 1; ev_tone := info; ev_message := message |}])
  /\ eventSerial r = 1%Z
  /\ map ast_id (asteroids r) = map Z.of_nat (seq 0 ASTEROID_COUNT).
Proof.
  unfold createRuntime.
  destruct (rngNext (seededRandom seed)) as [spawnRoll s1].
  match goal with
  | |- context [createAsteroids H ?n ?s ?i ?b] =>
      destruct (createAsteroids_fresh n s i b) as [I _];
      destruct (createAsteroids H n s i b) as [asts s2]
  end.
  cbn [fst] in I.
  destruct (randomRange s2 0 (Math_PI H * 2)) as [angle s3].
  match goal with
  | |- context [let '(_, _) := ?e in _] => destruct e as [trig s4]
  end.
  cbn [status pirateState cargoBins cargoValue deliveredValue
       deliveredPowerballScore events eventSerial asteroids
       addEvent set_events set_eventSerial firstn].
  repeat match goal with |- _ /\ _ => split end; try reflexivity.
  - eexists. reflexivity.
  - rewrite I. apply map_ext. intros k. lia.
Qed.



(** X16 (initial state).  [createRuntime], for any seed and modifiers, starts
    the run active and undocked with a quiet pirate, an empty hold, nothing
    banked, a full hull, the clock at 0, the countdown at its total and one
    event, numbered 1 (the freighter's hail); the pirate will either never
    appear or appear between 70 and 160 seconds; and the field holds
    [ASTEROID_COUNT] asteroids with the ids 0, 1, 2, ... in order, each with a
    radius in [1.7, 5.4], a whole ore reserve of at least 3 that is also its
    maximum, no powerball recovered, a position in the spawn box, and a
    composition table of six positive weights that sum to at least 1. *)
Theorem initial_state seed modifiers :
  let r := createRuntime H seed modifiers in
  status r = active /\ docked r = false /\ pirateState r = quiet
  /\ cargoBins r = createCargoBins /\ cargoUsed r = 0 /\ cargoValue r = 0
  /\ deliveredValue r = 0 /\ deliveredPowerballScore r = 0%Z
  /\ hull r = maxHull r /\ elapsed r = 0
  /\ missionSeconds r = TOTAL_MISSION_SECONDS
  /\ (exists message,
      events r = [{| ev_id := 1; ev_tone := info; ev_message := message |}])
  /\ eventSerial r = 1%Z
  /\ (pirateTriggerAt r = PosInf
      \/ exists t, pirateTriggerAt r = Fin t /\ 70 <= t /\ t <= 160)
  /\ List.length (asteroids r) = ASTEROID_COUNT
  /\ map ast_id (asteroids r) = map Z.of_nat (seq 0 ASTEROID_COUNT)
  /\ Forall freshAsteroid (asteroids r).
Proof.
  unfold createRuntime.
  destruct (rngNext (seededRandom seed)) as [spawnRoll s1].
  match goal with
  | |- context [createAsteroids H ?n ?s ?i ?b] =>
      destruct (createAsteroids_fresh n s i b) as [I F];
      destruct (createAsteroids H n s i b) as [asts s2]
  end.
  cbn [fst] in I, F.
  destruct (randomRange s2 0 (Math_PI H * 2)) as [angle s3].
  assert (T : forall p : xnum * Z,
             p = (if spawnRoll <? clampedEncounterChance modifiers
                  then let '(t, state) := randomRange s3 70 160 in
                       (Fin t, state)
                  else (PosInf, s3)) ->
             fst p = PosInf
             \/ exists t, fst p = Fin t /\ 70 <= t /\ t <= 160).
  { intros p ->. destruct (_ <? _); [|left; reflexivity].
    destruct (randomRange s3 70 160) as [t s4] eqn:E. facts.
    right. exists t. cbn [fst]. repeat split; assumption. }
  match goal with
  | |- context [let '(_, _) := ?e in _] =>
      specialize (T e eq_refl); destruct e as [trig s4]
  end.
  cbn [fst] in T.
  cbn [status docked pirateState cargoBins cargoUsed cargoValue hull maxHull
       deliveredValue deliveredPowerballScore
       elapsed missionSeconds events eventSerial pirateTriggerAt asteroids
       addEvent set_events set_eventSerial firstn List.length].
  repeat match goal with |- _ /\ _ => split end; try reflexivity.
  - eexists. reflexivity.
  - exact T.
  - rewrite <- (length_map ast_id), I, length_map, length_seq. reflexivity.
  - rewrite I. apply map_ext. intros k. lia.
  - exact F.
Qed.

End Construction.

(** ** What a frame keeps, continued *)

Section Steadiness.
Variable H : Host.
Variables fr dk pr ky : Prop.
Local Abbreviation St := (Steady fr dk pr ky).
#[local] Hint Resolve isCount_1 isCount_roll : rt.

Lemma Steady_refl r : St r r.
Proof.
  unfold Steady. repeat match goal with |- _ /\ _ => split end;
    try reflexivity; try lia; try lra; auto.
Qed.

Lemma Steady_trans r0 s s' : St r0 s -> St s s' -> St r0 s'.
Proof.
  unfold Steady.
  intros (A1 & B1 & T1 & C1 & D1 & E1 & F1 & G1 & H1 & I1 & J1 & K1 & L1
          & M1 & N1 & S1 & O1)
         (A2 & B2 & T2 & C2 & D2 & E2 & F2 & G2 & H2 & I2 & J2 & K2 & L2
          & M2 & N2 & S2 & O2).
  repeat match goal with |- _ /\ _ => split end;
    try congruence; try lia; try lra; auto.
  - intros m. rewrite J2, J1; auto.
  - intros m. rewrite K2, K1; auto.
  - intros m D. rewrite L2, L1; auto. rewrite K1; auto.
  - intros m D. rewrite M2, M1; auto. rewrite K1; auto.
  - intros m. rewrite S2, S1; auto.
  - intros m. rewrite O2, O1; auto.
Qed.

Ltac st_leaf :=
  first [ reflexivity | apply Z.le_refl | apply Qle_refl | assumption
        | (intros; assumption) | (intros; reflexivity) ].

Ltac st_local :=
  unfold Steady; repeat match goal with |- _ /\ _ => split end;
  try st_leaf.

Ltac st_then := eapply Steady_trans; [ eassumption | ].

Lemma firstn_In {A : Type} n : forall (l : list A) x,
  In x (firstn n l) -> In x l.
Proof.
  induction n as [|n IH]; intros l x I; [destruct I|].
  destruct l as [|b l]; [destruct I|]. cbn [firstn In] in I.
  destruct I as [<-|I]; [left; reflexivity | right; apply IH, I].
Qed.

Lemma StronglySorted_firstn {A : Type} (R : A -> A -> Prop) n : forall l,
  StronglySorted R l -> StronglySorted R (firstn n l).
Proof.
  induction n as [|n IH]; intros l S; [constructor|].
  destruct l as [|a l]; [constructor|].
  apply StronglySorted_inv in S as [S F]. cbn [firstn].
  constructor; [apply IH, S|].
  apply List.Forall_forall. intros x I. apply (proj1 (List.Forall_forall _ _) F).
  apply (firstn_In n), I.
Qed.

Lemma addEvent_log s message tone : LogOk s -> LogOk (addEvent s message tone).
Proof.
  intros (L & S & B). unfold LogOk, addEvent.
  cbn [events eventSerial set_events set_eventSerial]. split; [|split].
  - rewrite length_firstn. lia.
  - apply StronglySorted_firstn. constructor; [exact S|].
    apply List.Forall_forall. intros e I.
    pose proof (proj1 (List.Forall_forall _ _) B e I) as Be.
    cbn in Be |- *. lia.
  - apply List.Forall_forall. intros e I. apply firstn_In in I.
    destruct I as [<-|I]; [cbn; lia|].
    pose proof (proj1 (List.Forall_forall _ _) B e I) as Be.
    cbn in Be |- *. lia.
Qed.

Lemma addEvent_st r0 s message tone : St r0 s -> St r0 (addEvent s message tone).
Proof.
  intros E. st_then. st_local.
  - apply addEvent_log.
  - cbn. lia.
Qed.

#[local] Hint Extern 1 (Steady _ _ _ _ _ (addEvent _ _ _)) =>
  apply addEvent_st; exec : rt.

(** Replacing the asteroid list by one with the same ids. *)
Lemma set_asteroids_st r0 s l :
  St r0 s -> map ast_id l = asteroidIds s -> St r0 (set_asteroids l s).
Proof.
  intros E L. st_then. st_local.
Qed.

Lemma updateAsteroid_ids id f l :
  (forall a, ast_id (f a) = ast_id a) ->
  map ast_id (updateAsteroid id f l) = map ast_id l.
Proof.
  intros F. induction l as [|c l IH]; [reflexivity|].
  cbn [updateAsteroid]. destruct (ast_id c =? id)%Z; cbn [map].
  - rewrite F. reflexivity.
  - rewrite IH. reflexivity.
Qed.

Lemma updateAsteroid_same id b l :
  ast_id b = id ->
  map ast_id (updateAsteroid id (fun _ => b) l) = map ast_id l.
Proof.
  intros B. induction l as [|c l IH]; [reflexivity|].
  cbn [updateAsteroid]. destruct (ast_id c =? id)%Z eqn:E; cbn [map].
  - apply Z.eqb_eq in E. congruence.
  - rewrite IH. reflexivity.
Qed.

Lemma findAsteroid_id id l a : findAsteroid id l = Some a -> ast_id a = id.
Proof.
  unfold findAsteroid. intros F. apply find_some in F as [_ E].
  apply Z.eqb_eq, E.
Qed.

#[local] Hint Extern 1 (Steady _ _ _ _ _ (set_asteroids (updateAsteroid _ _ _) _)) =>
  apply set_asteroids_st;
  [ exec | apply updateAsteroid_ids; intros; subst; reflexivity ] : rt.

Lemma set_cargoShotSerial_st r0 s :
  St r0 s -> St r0 (set_cargoShotSerial (cargoShotSerial s + 1)%Z s).
Proof. intros E. st_then. st_local. cbn. lia. Qed.

#[local] Hint Extern 1 (Steady _ _ _ _ _ (set_cargoShotSerial _ _)) =>
  apply set_cargoShotSerial_st; exec : rt.

Lemma clampPlayerToField_st r0 r : St r0 r -> St r0 (clampPlayerToField r).
Proof. intros. open clampPlayerToField. exec. Qed.
#[local] Hint Resolve clampPlayerToField_st : rt.

Lemma updatePlayerControlWithInput_st r0 r dt i :
  St r0 r -> St r0 (updatePlayerControlWithInput H r dt i).
Proof. intros. open updatePlayerControlWithInput. exec. Qed.

Lemma updateGrabber_st r0 r ks : St r0 r -> St r0 (updateGrabber H r ks).
Proof. intros. open updateGrabber. exec. Qed.

Lemma moveGrabbedAsteroid_st r0 r dt :
  St r0 r -> St r0 (moveGrabbedAsteroid H r dt).
Proof. intros. open moveGrabbedAsteroid. exec. Qed.

#[local] Hint Resolve updatePlayerControlWithInput_st updateGrabber_st
  moveGrabbedAsteroid_st : rt.

Lemma collideAll_ids n l : map ast_id (collideAll H n l) = map ast_id l.
Proof.
  destruct (collideAll_conserves H n l) as [B _].
  assert (F : forall l' : list AsteroidSim,
             map ast_id l' = map (fun p => fst (fst (fst (fst (fst (fst p))))))
                               (map asteroidBody l')).
  { intros l'. rewrite map_map. reflexivity. }
  rewrite (F (collideAll H n l)), (F l), B. reflexivity.
Qed.

Lemma resolveAsteroidCollisions_st r0 r :
  St r0 r -> St r0 (resolveAsteroidCollisions H r).
Proof.
  intros E. open resolveAsteroidCollisions.
  apply set_asteroids_st; [exact E | apply collideAll_ids].
Qed.

Lemma asteroidBodies_st r0 r dt :
  St r0 r ->
  St r0 (set_asteroids
           (map (fun a => updateAsteroidBody H a dt) (asteroids r)) r).
Proof.
  intros E. apply set_asteroids_st; [exact E|].
  unfold asteroidIds. rewrite map_map. apply map_ext. intros a.
  unfold updateAsteroidBody.
  repeat match goal with
         | |- context [bounceAxis ?p ?v ?lo ?hi] =>
             destruct (bounceAxis p v lo hi)
         end.
  reflexivity.
Qed.

(** The pirate state, assigned while the pirate is not quiet. *)
Lemma set_pirateState_st r0 s v :
  St r0 s -> pirateState s <> quiet -> St r0 (set_pirateState v s).
Proof.
  intros E L. st_then. st_local. intros m C. contradiction.
Qed.

Lemma disablePirate_st r0 r :
  St r0 r -> pirateState r = incoming -> St r0 (disablePirate r).
Proof.
  intros E L. open disablePirate. exec.
  apply set_pirateState_st; [assumption|]. rewrite L. discriminate.
Qed.

Lemma applyPirateDamage_st r0 r damage :
  St r0 r -> St r0 (fst (applyPirateDamage r damage)).
Proof.
  intros E. change (onFst (St r0) (applyPirateDamage r damage)).
  open applyPirateDamage.
  destruct (negb (PirateState_eqb (pirateState r) incoming)) eqn:L; [exact E|].
  apply negb_false_iff, PirateState_eqb_eq in L.
  cbn [orb]. exec. apply disablePirate_st; auto.
Qed.
#[local] Hint Resolve applyPirateDamage_st : rt.

Lemma asteroidPirateLoop_st r0 l : forall r,
  St r0 r -> St r0 (snd (asteroidPirateLoop H l r)).
Proof.
  induction l as [|a l IH]; intros r E; [exact E|].
  change (onSnd (St r0) (asteroidPirateLoop H (a :: l) r)).
  cbn beta iota delta [asteroidPirateLoop]. exec.
Qed.
#[local] Hint Resolve asteroidPirateLoop_st : rt.

Lemma asteroidPirateLoop_ids l : forall r,
  map ast_id (fst (asteroidPirateLoop H l r)) = map ast_id l.
Proof.
  induction l as [|a l IH]; intros r; [reflexivity|].
  cbn [asteroidPirateLoop]. cbv zeta.
  destruct (_ >=? _).
  - specialize (IH r). destruct (asteroidPirateLoop H l r) as [rest r1].
    cbn [fst map] in *. rewrite IH. reflexivity.
  - match goal with
    | |- context [if PirateState_eqb ?s incoming then _ else _] =>
        destruct (PirateState_eqb s incoming)
    end; [|reflexivity].
    match goal with
    | |- context [asteroidPirateLoop H l ?s] =>
        specialize (IH s); destruct (asteroidPirateLoop H l s) as [rest r1]
    end.
    cbn [fst map] in *. rewrite IH. reflexivity.
Qed.

Lemma Steady_ids r0 r : St r0 r -> asteroidIds r = asteroidIds r0.
Proof. intros E. apply E. Qed.

Lemma resolveAsteroidPirateImpacts_st r0 r dt :
  St r0 r -> St r0 (resolveAsteroidPirateImpacts H r dt).
Proof.
  intros E. open resolveAsteroidPirateImpacts.
  destruct (negb (PirateState_eqb (pirateState r) incoming)); [exact E|].
  let_step x Hx.
  assert (Px : St r0 x) by (subst x; exec).
  pose proof (asteroidPirateLoop_st r0 (asteroids x) x Px) as S.
  pose proof (asteroidPirateLoop_ids (asteroids x) x) as I.
  destruct (asteroidPirateLoop H (asteroids x) x) as [asts r1].
  cbn [fst snd] in *.
  apply set_asteroids_st; [exact S|].
  rewrite I, (Steady_ids _ _ S). apply (Steady_ids _ _ Px).
Qed.
#[local] Hint Resolve resolveAsteroidCollisions_st
  resolveAsteroidPirateImpacts_st : rt.

Lemma playerAsteroidLoop_st r0 l : forall r,
  St r0 r -> St r0 (playerAsteroidLoop H l r).
Proof.
  induction l as [|a l IH]; intros r E; [exact E|].
  cbn beta iota delta [playerAsteroidLoop]. exec.
Qed.
#[local] Hint Resolve playerAsteroidLoop_st : rt.

Lemma resolvePlayerAsteroidImpacts_st r0 r dt :
  St r0 r -> St r0 (resolvePlayerAsteroidImpacts H r dt).
Proof. intros E. open resolvePlayerAsteroidImpacts. exec. Qed.

Lemma resolvePlayerPirateImpact_st r0 r dt :
  St r0 r -> St r0 (resolvePlayerPirateImpact H r dt).
Proof. intros E. open resolvePlayerPirateImpact. exec. Qed.

Lemma launchWeaponShot_st r0 r ks :
  St r0 r -> St r0 (launchWeaponShot H r ks).
Proof. intros E. open launchWeaponShot. exec. Qed.
#[local] Hint Resolve resolvePlayerAsteroidImpacts_st
  resolvePlayerPirateImpact_st launchWeaponShot_st : rt.

Lemma addCargo_st r0 r id units :
  isCount units -> St r0 r -> St r0 (fst (addCargo r id units)).
Proof.
  intros U E. pose proof (addCargo_value r id units U) as C.
  revert C. open addCargo. cbv zeta.
  destruct (_ <=? 0); cbn [fst]; [destruct (negb _)|]; intros C.
  - change (St r0 (addEvent r cargoFullMessage alert)).
    apply addEvent_st, E.
  - exact E.
  - st_then. st_local.
Qed.

Lemma takeCargoUnitForUnload_value r :
  ValueInv r -> ValueInv (fst (takeCargoUnitForUnload r)).
Proof.
  intros C. open takeCargoUnitForUnload.
  destruct (pickCandidate unloadOrder (cargoBins r)) as [[key bin]|] eqn:E;
    [|exact C].
  apply pickCandidate_in in E as [I P].
  destruct (takeUnit_value r key bin C I P) as [T _].
  destruct (takeUnit r (key, bin)). exact T.
Qed.

Lemma takeCargoUnitForLaunch_value r :
  ValueInv r -> ValueInv (fst (takeCargoUnitForLaunch r)).
Proof.
  intros C. open takeCargoUnitForLaunch.
  destruct (pickCandidate launchOrder (cargoBins r)) as [[key bin]|] eqn:E;
    [|exact C].
  apply pickCandidate_in in E as [I P].
  destruct (takeUnit_value r key bin C I P) as [T _].
  destruct (takeUnit r (key, bin)). exact T.
Qed.

Lemma takeCargoUnitForUnload_st r0 r :
  St r0 r -> St r0 (fst (takeCargoUnitForUnload r)).
Proof.
  intros E. st_then. pose proof (takeCargoUnitForUnload_value r) as C.
  revert C. open takeCargoUnitForUnload.
  destruct (pickCandidate _ _) as [[key bin]|]; cbn [fst]; intros C; st_local.
Qed.

Lemma takeCargoUnitForLaunch_st r0 r :
  St r0 r -> St r0 (fst (takeCargoUnitForLaunch r)).
Proof.
  intros E. st_then. pose proof (takeCargoUnitForLaunch_value r) as C.
  revert C. open takeCargoUnitForLaunch.
  destruct (pickCandidate _ _) as [[key bin]|]; cbn [fst]; intros C; st_local.
Qed.
#[local] Hint Resolve addCargo_st takeCargoUnitForUnload_st
  takeCargoUnitForLaunch_st : rt.

Lemma launchCargoShot_st r0 r ks :
  St r0 r -> St r0 (launchCargoShot H r ks).
Proof. intros E. open launchCargoShot. exec. Qed.
#[local] Hint Resolve launchCargoShot_st : rt.

Lemma sampleAsteroidResource_st r0 r a :
  St r0 r -> St r0 (fst (sampleAsteroidResource r a)).
Proof.
  intros E. change (onFst (St r0) (sampleAsteroidResource r a)).
  open sampleAsteroidResource. exec.
Qed.
#[local] Hint Resolve sampleAsteroidResource_st : rt.

Lemma drillLoop_st r0 fuel : forall r a,
  St r0 r -> St r0 (fst (drillLoop fuel r a)).
Proof.
  induction fuel as [|fuel IH]; intros r a E; [exact E|].
  change (onFst (St r0) (drillLoop (S fuel) r a)).
  cbn beta iota delta [drillLoop]. exec.
Qed.
#[local] Hint Resolve drillLoop_st : rt.

Lemma drillLoop_id fuel : forall r a,
  ast_id (snd (drillLoop fuel r a)) = ast_id a.
Proof.
  induction fuel as [|fuel IH]; intros r a; [reflexivity|].
  rewrite drillLoop_step.
  destruct (negb _); [reflexivity|]. cbv zeta.
  destruct (_ <=? 0); [reflexivity|].
  match goal with
  | |- context [if ast_oreReserve ?x <=? 0 then _ else _] =>
      destruct (ast_oreReserve x <=? 0)
  end.
  - destruct (_ && _); reflexivity.
  - rewrite IH. destruct (_ && _); reflexivity.
Qed.

Lemma updateDrill_st r0 r dt ks : St r0 r -> St r0 (updateDrill r dt ks).
Proof.
  intros E. open updateDrill. exec.
  match goal with
  | F : findAsteroid ?id _ = Some ?a0, D : drillLoop ?f ?s ?a0 = (?r1, ?a1)
    |- _ =>
      pose proof (drillLoop_id f s a0) as I; rewrite D in I; cbn [snd] in I;
      apply findAsteroid_id in F
  end.
  apply set_asteroids_st; [assumption|].
  apply updateAsteroid_same. congruence.
Qed.
#[local] Hint Resolve updateDrill_st : rt.

Lemma cargoShotLoop_st r0 dt l : forall r,
  St r0 r -> St r0 (snd (cargoShotLoop H l dt r)).
Proof.
  induction l as [|a l IH]; intros r E; [exact E|].
  change (onSnd (St r0) (cargoShotLoop H (a :: l) dt r)).
  cbn beta iota delta [cargoShotLoop]. exec.
Qed.
#[local] Hint Resolve cargoShotLoop_st : rt.

Lemma updateCargoShots_st r0 r dt :
  St r0 r -> St r0 (updateCargoShots H r dt).
Proof. intros E. open updateCargoShots. exec. Qed.

#[local] Hint Resolve updateCargoShots_st : rt.



Lemma Steady_docked r0 r : St r0 r -> dk -> docked r = docked r0.
Proof. intros E. apply E. Qed.

(** Banking, while docked. *)
Lemma set_deliveredValue_st r0 s v :
  (dk -> docked r0 = true) -> St r0 s -> deliveredValue s <= v ->
  St r0 (set_deliveredValue v s).
Proof.
  intros Dk E L. pose proof (Steady_docked _ _ E) as D. st_then. st_local.
  intros m C. cbn in C. rewrite (D m), (Dk m) in C. discriminate C.
Qed.

Lemma set_deliveredPowerballScore_st r0 s v :
  (dk -> docked r0 = true) -> St r0 s ->
  (deliveredPowerballScore s <= v)%Z ->
  St r0 (set_deliveredPowerballScore v s).
Proof.
  intros Dk E L. pose proof (Steady_docked _ _ E) as D. st_then. st_local.
  intros m C. cbn in C. rewrite (D m), (Dk m) in C. discriminate C.
Qed.

Lemma unloadLoop_st r0 fuel :
  (dk -> docked r0 = true) ->
  forall r, St r0 r -> St r0 (unloadLoop fuel r).
Proof.
  intros Dk. induction fuel as [|fuel IH]; intros r E; [exact E|].
  cbn beta iota delta [unloadLoop]. exec.
  - apply set_deliveredPowerballScore_st; [exact Dk | assumption | lia].
  - apply set_deliveredValue_st; [exact Dk | assumption |].
    match goal with
    | |- _ <= _ + def_value (RESOURCES ?id) =>
        pose proof (def_value_pos id); lra
    end.
Qed.

Lemma updateDockedSystems_st r0 r dt :
  St r0 r -> St r0 (updateDockedSystems r dt).
Proof.
  intros E. open updateDockedSystems.
  destruct (negb (docked r)) eqn:D; [exact E|].
  apply negb_false_iff in D.
  assert (Dk : dk -> docked r0 = true).
  { intros m. rewrite <- D. symmetry. apply (Steady_docked _ _ E m). }
  pose proof (unloadLoop_st r0) as U.
  exec.
Qed.
#[local] Hint Resolve updateDockedSystems_st : rt.


End Steadiness.

#[local] Hint Resolve isCount_1 isCount_roll : rt.
#[local] Hint Extern 1 (Steady _ _ _ _ _ (addEvent _ _ _)) =>
  apply addEvent_st; exec : rt.
#[local] Hint Extern 1
  (Steady _ _ _ _ _ (set_asteroids (updateAsteroid _ _ _) _)) =>
  apply set_asteroids_st;
  [ exec | apply updateAsteroid_ids; intros; subst; reflexivity ] : rt.
#[local] Hint Extern 1 (Steady _ _ _ _ _ (set_cargoShotSerial _ _)) =>
  apply set_cargoShotSerial_st; exec : rt.
#[local] Hint Resolve
  clampPlayerToField_st
  updatePlayerControlWithInput_st
  updateGrabber_st
  moveGrabbedAsteroid_st
  applyPirateDamage_st
  asteroidPirateLoop_st
  resolveAsteroidCollisions_st
  resolveAsteroidPirateImpacts_st
  playerAsteroidLoop_st
  resolvePlayerAsteroidImpacts_st
  resolvePlayerPirateImpact_st
  launchWeaponShot_st
  addCargo_st
  takeCargoUnitForUnload_st
  takeCargoUnitForLaunch_st
  launchCargoShot_st
  sampleAsteroidResource_st
  drillLoop_st
  updateDrill_st
  cargoShotLoop_st
  updateCargoShots_st
  updateDockedSystems_st
  asteroidBodies_st : rt.

Lemma Steady_weaken (fr dk pr ky fr' dk' pr' ky' : Prop) r0 r :
  (fr' -> fr) -> (dk' -> dk) -> (pr' -> pr) -> (ky' -> ky) ->
  Steady fr dk pr ky r0 r -> Steady fr' dk' pr' ky' r0 r.
Proof.
  unfold Steady. intros F D P K.
  intros (A1 & B1 & T1 & C1 & D1 & E1 & F1 & G1 & H1 & I1 & J1 & K1 & L1
          & M1 & N1 & S1 & O1).
  repeat match goal with |- _ /\ _ => split end; auto.
Qed.

(** An assignment that only touches what a switched-off clause guards. *)
Ltac st_free :=
  let E := fresh "E" in
  intros E; eapply Steady_trans; [exact E|];
  unfold Steady; repeat match goal with |- _ /\ _ => split end;
  first [ reflexivity | apply Z.le_refl | apply Qle_refl
        | (intros; assumption) | (intros; reflexivity) | contradiction ].

Lemma set_freighterPosition_st dk pr ky r0 s v :
  Steady False dk pr ky r0 s ->
  Steady False dk pr ky r0 (set_freighterPosition v s).
Proof. st_free. Qed.

Lemma set_docked_st fr pr ky r0 s v :
  Steady fr False pr ky r0 s -> Steady fr False pr ky r0 (set_docked v s).
Proof. st_free. Qed.

Lemma set_pirateState_free fr dk ky r0 s v :
  Steady fr dk False ky r0 s -> Steady fr dk False ky r0 (set_pirateState v s).
Proof. st_free. Qed.

Lemma set_status_st fr dk ky r0 s v :
  Steady fr dk False ky r0 s -> Steady fr dk False ky r0 (set_status v s).
Proof. st_free. Qed.

Lemma set_prevKeys_st fr dk pr r0 s v :
  Steady fr dk pr False r0 s -> Steady fr dk pr False r0 (set_prevKeys v s).
Proof. st_free. Qed.

#[local] Hint Extern 1 (Steady _ False _ _ _ (set_docked _ _)) =>
  apply set_docked_st; exec : rt.
#[local] Hint Extern 1 (Steady _ _ False _ _ (set_pirateState _ _)) =>
  apply set_pirateState_free; exec : rt.
#[local] Hint Extern 1 (Steady _ _ False _ _ (set_status _ _)) =>
  apply set_status_st; exec : rt.

Lemma updateFreighterTransit_st dk pr ky r0 r :
  Steady False dk pr ky r0 r ->
  Steady False dk pr ky r0 (updateFreighterTransit r).
Proof. intros E. open updateFreighterTransit. cbv zeta.
  apply set_freighterPosition_st, E. Qed.

Lemma applyFreighterDockActions_st H fr pr ky r0 r ks :
  Steady fr False pr ky r0 r ->
  Steady fr False pr ky r0 (applyFreighterDockActions H r ks).
Proof. intros E. open applyFreighterDockActions. exec. Qed.

Lemma triggerPirateEvent_st fr dk ky r0 r :
  Steady fr dk False ky r0 r -> Steady fr dk False ky r0 (triggerPirateEvent r).
Proof. intros E. open triggerPirateEvent. exec. Qed.
#[local] Hint Resolve triggerPirateEvent_st : rt.

Lemma updatePirate_st H fr dk ky r0 r dt :
  Steady fr dk False ky r0 r -> Steady fr dk False ky r0 (updatePirate H r dt).
Proof. intros E. open updatePirate. exec. Qed.

Lemma evaluateMissionOutcome_st fr dk ky r0 r :
  Steady fr dk False ky r0 r ->
  Steady fr dk False ky r0 (evaluateMissionOutcome r).
Proof. intros E. open evaluateMissionOutcome. exec. Qed.

Lemma updatePrevKeys_st fr dk pr r0 r ks :
  Steady fr dk pr False r0 r -> Steady fr dk pr False r0 (updatePrevKeys r ks).
Proof. intros E. open updatePrevKeys. apply set_prevKeys_st, E. Qed.

(** The [let]s of a frame up to the pirate update. *)
Ltac exec_middle I :=
  lazymatch goal with
  | |- ?P (let x := updatePirate _ _ _ in _) => idtac
  | |- ?P (let x := ?e in @?b x) =>
      refine (let_intro P e b _);
      let x := fresh "x" in
      let Hx := fresh "Hx" in
      intros x Hx; cbv beta;
      lazymatch type of x with
      | GameRuntime =>
          let Px := fresh "Px" in
          assert (Px : I x); [ subst x; exec_with I | clear Hx; exec_middle I ]
      | _ => subst x; exec_middle I
      end
  | |- _ => idtac
  end.

Lemma stepRuntime_terminal H r dtRaw input :
  status r <> active ->
  stepRuntime H r dtRaw input = updatePrevKeys r (keys input).
Proof.
  intros A. open stepRuntime.
  destruct (negb (GameStatus_eqb (status r) active)) eqn:G; [reflexivity|].
  apply negb_false_iff, GameStatus_eqb_eq in G. contradiction.
Qed.

Lemma stepRuntime_reaches H r dtRaw input :
  status r = active ->
  reaches H (Math_min dtRaw 0.05) (keys input)
    (afterDocking H r (Math_min dtRaw 0.05) (keys input))
    (stepRuntime H r dtRaw input).
Proof.
  intros A. open stepRuntime.
  destruct (negb (GameStatus_eqb (status r) active)) eqn:G;
    [rewrite A in G; discriminate G | clear G].
  set (d := Math_min dtRaw 0.05).
  let_step ks Hks. subst ks. let_step dt Hdt. subst dt.
  let_step r1 H1. let_step r2 H2. let_step r3 H3. let_step r4 H4.
  let_step r5 H5. subst r1 r2 r3 r4.
  replace (afterDocking H r d (keys input)) with r5
    by (subst r5; reflexivity).
  clear H5.
  pose proof (Steady_refl True True True True r5).
  exec_middle (Steady True True True True r5).
  cbv zeta.
  match goal with
  | S : Steady _ _ _ _ r5 ?s |- _ (updatePrevKeys _ _) =>
      exists s; split; [reflexivity | exact S]
  end.
Qed.

(** *** The parts of a frame *)

Lemma frameEnd_steady H s dt ks :
  Steady True True False False s (frameEnd H s dt ks).
Proof.
  unfold frameEnd.
  apply updatePrevKeys_st, evaluateMissionOutcome_st, updatePirate_st,
    Steady_refl.
Qed.

Lemma afterDocking_steady H r dt ks :
  Steady False False True True (frameStart r dt) (afterDocking H r dt ks).
Proof.
  unfold afterDocking.
  apply applyFreighterDockActions_st, updateFreighterTransit_st, Steady_refl.
Qed.

Lemma afterDocking_freighter H r dt ks :
  freighterPosition (afterDocking H r dt ks)
  = freighterPosition (updateFreighterTransit (frameStart r dt)).
Proof.
  unfold afterDocking.
  apply (applyFreighterDockActions_st H True True True
           (updateFreighterTransit (frameStart r dt))
           (updateFreighterTransit (frameStart r dt)) ks
           (Steady_refl _ _ _ _ _)).
  exact I.
Qed.

(** An active frame, from the runtime after the dock action. *)
Lemma stepRuntime_steady H r dtRaw input :
  status r = active ->
  Steady True True False False
    (afterDocking H r (Math_min dtRaw 0.05) (keys input))
    (stepRuntime H r dtRaw input).
Proof.
  intros A. destruct (stepRuntime_reaches H r dtRaw input A) as (s & -> & S).
  eapply Steady_trans; [|apply frameEnd_steady].
  apply (Steady_weaken True True True True); auto.
Qed.

(** An active frame, from the runtime after the clock has advanced. *)
Lemma stepRuntime_whole H r dtRaw input :
  status r = active ->
  Steady False False False False (frameStart r (Math_min dtRaw 0.05))
    (stepRuntime H r dtRaw input).
Proof.
  intros A. eapply Steady_trans.
  - apply (Steady_weaken False False True True); try tauto.
    apply afterDocking_steady.
  - apply (Steady_weaken True True False False); try tauto.
    apply stepRuntime_steady, A.
Qed.

Lemma GameStatus_active_dec (s : GameStatus) : s = active \/ s <> active.
Proof. destruct s; [left; reflexivity | right; discriminate ..]. Qed.

Section Frame.
Variable H : Host.

(** ** The clock and the freighter *)

(** X17 (frame clock).  An active frame advances [elapsed] by the capped time
    step, takes the capped time step times the countdown rate off
    [missionSeconds], and leaves the freighter where the new countdown puts it
    on its transit line; an inactive frame leaves the three alone. *)
Theorem step_clock r dtRaw input :
  let r' := stepRuntime H r dtRaw input in
  let dt := Math_min dtRaw 0.05 in
  (status r = active ->
   elapsed r' = elapsed r + dt
   /\ missionSeconds r' = missionSeconds r - dt * countdownRate r
   /\ freighterPosition r'
      = lerpVectors FREIGHTER_TRANSIT_START FREIGHTER_TRANSIT_END
          (clamp ((TOTAL_MISSION_SECONDS - missionSeconds r')
                  / TOTAL_MISSION_SECONDS) 0 1))
  /\ (status r <> active ->
      elapsed r' = elapsed r /\ missionSeconds r' = missionSeconds r
      /\ freighterPosition r' = freighterPosition r).
Proof.
  intros r' dt. subst r'. split.
  - intros A. pose proof (stepRuntime_whole H r dtRaw input A) as W.
    pose proof (stepRuntime_steady H r dtRaw input A) as S.
    fold dt in W, S.
    destruct W as (E & M & _).
    destruct S as (_ & _ & _ & _ & _ & _ & _ & _ & _ & _ & F & _).
    rewrite E, M, (F I), afterDocking_freighter. repeat split.
  - intros A. rewrite stepRuntime_terminal by exact A. repeat split.
Qed.


(** ** Docking and banking *)

Lemma justPressed_frameStart r dt ks code :
  justPressed (updateFreighterTransit (frameStart r dt)) ks code
  = justPressed r ks code.
Proof. reflexivity. Qed.

(** X18 (frame docking).  The docking state after a frame is the one the dock
    action leaves; without an edge of the dock key it is the one before the
    frame. *)
Theorem step_docking r dtRaw input :
  let r' := stepRuntime H r dtRaw input in
  (status r = active ->
   docked r' = docked (afterDocking H r (Math_min dtRaw 0.05) (keys input)))
  /\ (justPressed r (keys input) "KeyE" = false -> docked r' = docked r)
  /\ (status r <> active -> docked r' = docked r).
Proof.
  intros r'. subst r'.
  assert (T : status r <> active ->
              docked (stepRuntime H r dtRaw input) = docked r).
  { intros A. rewrite stepRuntime_terminal by exact A. reflexivity. }
  assert (S : status r = active ->
              docked (stepRuntime H r dtRaw input)
              = docked (afterDocking H r (Math_min dtRaw 0.05) (keys input))).
  { intros A. apply (stepRuntime_steady H r dtRaw input A). exact I. }
  split; [exact S|]. split; [|exact T].
  intros J. destruct (GameStatus_active_dec (status r)) as [A|A];
    [|exact (T A)].
  rewrite (S A). unfold afterDocking, applyFreighterDockActions.
  rewrite justPressed_frameStart, J. reflexivity.
Qed.

Lemma afterDocking_banked r dt ks :
  deliveredValue (afterDocking H r dt ks) = deliveredValue r
  /\ deliveredPowerballScore (afterDocking H r dt ks)
     = deliveredPowerballScore r
  /\ status (afterDocking H r dt ks) = status r
  /\ pirateState (afterDocking H r dt ks) = pirateState r
  /\ pirateTriggerAt (afterDocking H r dt ks) = pirateTriggerAt r
  /\ elapsed (afterDocking H r dt ks) = elapsed r + dt.
Proof.
  unfold afterDocking, applyFreighterDockActions.
  destruct (negb _); [repeat split|].
  destruct (docked _); [repeat split|].
  destruct (_ >? DOCK_APPROACH_RADIUS); [repeat split|].
  destruct (_ >? DOCK_RADIUS); repeat split.
Qed.

Lemma frame_banking r dtRaw input :
  let r' := stepRuntime H r dtRaw input in
  deliveredValue r <= deliveredValue r'
  /\ (deliveredPowerballScore r <= deliveredPowerballScore r')%Z
  /\ (status r = active ->
      docked (afterDocking H r (Math_min dtRaw 0.05) (keys input)) = false ->
      deliveredValue r' = deliveredValue r
      /\ deliveredPowerballScore r' = deliveredPowerballScore r).
Proof.
  intros r'. subst r'.
  destruct (GameStatus_active_dec (status r)) as [A|A].
  - pose proof (stepRuntime_whole H r dtRaw input A) as W.
    pose proof (stepRuntime_steady H r dtRaw input A) as S.
    split; [apply W|]. split; [apply W|]. intros _ U.
    destruct S as (_ & _ & _ & _ & _ & _ & _ & _ & _ & _ & _ & _ & V & P & _).
    destruct (afterDocking_banked r (Math_min dtRaw 0.05) (keys input))
      as (B1 & B2 & _).
    rewrite (V I U), (P I U). split; assumption.
  - rewrite stepRuntime_terminal by exact A. cbn.
    split; [apply Qle_refl|]. split; [apply Z.le_refl|]. tauto.
Qed.


(** ** The pirate's appearance *)

Lemma triggerPirateEvent_fields s :
  pirateState (triggerPirateEvent s) = incoming
  /\ status (triggerPirateEvent s) = status s
  /\ exists t, pirateBoardTimer (triggerPirateEvent s) = Fin t
                /\ 40 <= t /\ t <= 68.
Proof.
  unfold triggerPirateEvent. cbn [rng set_pirateState].
  destruct (randomRange (rng s) 40 68) as [t state] eqn:E. facts.
  split; [reflexivity|]. split; [reflexivity|].
  exists t. repeat split; assumption.
Qed.

Lemma updatePirate_quiet s dt :
  pirateState s = quiet -> dt <= 0.05 ->
  (geb_x (elapsed s) (pirateTriggerAt s) = false -> updatePirate H s dt = s)
  /\ (geb_x (elapsed s) (pirateTriggerAt s) = true ->
      pirateState (updatePirate H s dt) = incoming
      /\ status (updatePirate H s dt) = status s
      /\ exists t, pirateBoardTimer (updatePirate H s dt) = Fin t
                    /\ 40 - dt <= t /\ t <= 68 - dt).
Proof.
  intros Q D. split; intros G.
  - symmetry. open updatePirate.
    destruct (PirateState_eqb (pirateState s) quiet
              && geb_x (elapsed s) (pirateTriggerAt s)) eqn:C;
      [rewrite Q, G in C; discriminate C|].
    let_step x Hx. change (x = s) in Hx. subst x.
    destruct (negb (PirateState_eqb (pirateState s) incoming)) eqn:N;
      [reflexivity | rewrite Q in N; discriminate N].
  - destruct (triggerPirateEvent_fields s) as (P & S & t0 & T & Lo & Hi).
    set (armed := fun x : GameRuntime =>
                    pirateState x = incoming /\ status x = status s
                    /\ exists t, pirateBoardTimer x = Fin t
                                  /\ 40 - dt <= t /\ t <= 68 - dt).
    change (armed (updatePirate H s dt)).
    open updatePirate.
    destruct (PirateState_eqb (pirateState s) quiet
              && geb_x (elapsed s) (pirateTriggerAt s)) eqn:C;
      [|rewrite Q, G in C; discriminate C].
    let_step x Hx. change (x = triggerPirateEvent s) in Hx.
    rewrite <- Hx in P, S, T. clear Hx.
    destruct (negb (PirateState_eqb (pirateState x) incoming)) eqn:N;
      [rewrite P in N; discriminate N | clear N].
    assert (M : Math_max 0 (t0 - dt) = t0 - dt).
    { apply Math_max_0_nonneg. lra. }
    exec_lets (armedPirate (status s) (Fin (t0 - dt))).
    + unfold armedPirate.
      cbn [pirateState status pirateBoardTimer set_pirateBoardTimer].
      rewrite T. cbn [xsub xmax0]. rewrite M. repeat split; assumption.
    + match goal with
      | A : armedPirate _ _ ?x |- _ =>
          destruct A as (A1 & A2 & A3); rewrite A3
      end.
      assert (Z : xle0 (Fin (t0 - dt)) = false).
      { cbn [xle0]. apply Qleb_gt. lra. }
      rewrite Z. subst armed. cbv beta.
      repeat match goal with |- _ /\ _ => split end; try assumption.
      exists (t0 - dt). repeat split; try assumption; lra.
Qed.

Lemma evaluateMissionOutcome_pirate u :
  pirateState (evaluateMissionOutcome u) = pirateState u
  /\ pirateBoardTimer (evaluateMissionOutcome u) = pirateBoardTimer u
  /\ docked (evaluateMissionOutcome u) = docked u
  /\ hull (evaluateMissionOutcome u) = hull u
  /\ missionSeconds (evaluateMissionOutcome u) = missionSeconds u.
Proof.
  unfold evaluateMissionOutcome.
  destruct (negb _); [repeat split|].
  destruct (hull u <=? 0); [repeat split|].
  destruct (missionSeconds u <=? 0); [|repeat split].
  destruct (docked u) eqn:D; repeat split; exact D.
Qed.

Lemma frame_pirate r dtRaw input :
  status r = active -> pirateState r = quiet ->
  let dt := Math_min dtRaw 0.05 in
  exists s,
    pirateState s = quiet /\ pirateTriggerAt s = pirateTriggerAt r
    /\ elapsed s = elapsed r + dt /\ dt <= 0.05
    /\ pirateState (stepRuntime H r dtRaw input)
       = pirateState (updatePirate H s dt)
    /\ pirateBoardTimer (stepRuntime H r dtRaw input)
       = pirateBoardTimer (updatePirate H s dt).
Proof.
  intros A Q dt.
  destruct (stepRuntime_reaches H r dtRaw input A) as (s & E & S).
  fold dt in E, S.
  destruct (afterDocking_banked r dt (keys input))
    as (_ & _ & B3 & B4 & B5 & B6).
  exists s.
  split; [apply S; [exact I | rewrite B4; exact Q]|].
  split; [rewrite <- B5; apply S|].
  split; [rewrite <- B6; apply S|].
  split.
  { subst dt. destruct (Math_min_cases dtRaw 0.05) as [[? ->]|[? ->]]; lra. }
  rewrite E. unfold frameEnd.
  destruct (evaluateMissionOutcome_pirate (updatePirate H s dt))
    as (V1 & V2 & _).
  change (pirateState (updatePrevKeys ?x _)) with (pirateState x).
  change (pirateBoardTimer (updatePrevKeys ?x _))
    with (pirateBoardTimer x).
  split; assumption.
Qed.


(** X19 (pirate appearance).  A quiet pirate stays quiet through an active
    frame until the clock reaches [pirateTriggerAt]; in the frame in which the
    clock reaches it the pirate becomes incoming, with a boarding timer
    between 40 and 68 seconds less the time step. An inactive frame leaves the
    pirate alone. *)
Theorem pirate_appearance r dtRaw input :
  let r' := stepRuntime H r dtRaw input in
  let dt := Math_min dtRaw 0.05 in
  (status r = active -> pirateState r = quiet ->
   (geb_x (elapsed r + dt) (pirateTriggerAt r) = false ->
    pirateState r' = quiet)
   /\ (geb_x (elapsed r + dt) (pirateTriggerAt r) = true ->
       pirateState r' = incoming
       /\ exists t, pirateBoardTimer r' = Fin t
                     /\ 40 - dt <= t /\ t <= 68 - dt))
  /\ (status r <> active -> pirateState r' = pirateState r).
Proof.
  intros r' dt. subst r'. split.
  - intros A Q.
    destruct (frame_pirate r dtRaw input A Q) as (s & Qs & Ts & Es & D & P & B).
    fold dt in Es, D, P, B.
    destruct (updatePirate_quiet s dt Qs D) as [U1 U2].
    rewrite Es, Ts in U1, U2. rewrite P, B.
    split; intros G.
    + rewrite (U1 G). exact Qs.
    + destruct (U2 G) as (Pi & _ & T). split; assumption.
  - intros A. rewrite stepRuntime_terminal by exact A. reflexivity.
Qed.

(** ** The outcome of a frame *)

Lemma updatePirate_status s dt : boardedOr (status s) (updatePirate H s dt).
Proof.
  open updatePirate. let_step x Hx.
  assert (Sx : status x = status s).
  { subst x. destruct (_ && _); [apply triggerPirateEvent_fields|].
    reflexivity. }
  clear Hx. rewrite <- Sx.
  destruct (negb (PirateState_eqb (pirateState x) incoming));
    [left; reflexivity|].
  pose proof (eq_refl (status x)) as F.
  change (fieldIs status (status x) x) in F.
  exec_lets (fieldIs status (status x)).
  match goal with
  | |- boardedOr _ (if ?c then _ else ?y) => destruct c
  end.
  - right. cbv zeta. split; reflexivity.
  - left. assumption.
Qed.

Lemma evaluateMissionOutcome_cases u :
  let e := evaluateMissionOutcome u in
  (status u = active ->
   (status e = won -> docked u = true /\ missionSeconds u <= 0 /\ 0 < hull u)
   /\ (status e = lost ->
       hull u <= 0 \/ (missionSeconds u <= 0 /\ docked u = false))
   /\ (status e = active -> 0 < hull u /\ 0 < missionSeconds u))
  /\ (status u <> active -> e = u).
Proof.
  unfold evaluateMissionOutcome. split.
  - intros A. rewrite A. cbn [GameStatus_eqb negb].
    destruct (hull u <=? 0) eqn:Hl;
      [|destruct (missionSeconds u <=? 0) eqn:M;
        [destruct (docked u) eqn:D|]];
      facts; repeat split; try discriminate; auto;
      try (intros C; rewrite A in C; discriminate C);
      try congruence.
  - intros A. destruct (status u); [contradiction | reflexivity ..].
Qed.

(** X20 (frame outcome).  How an active frame can end: won only when docked,
    with the countdown at or below 0 and hull left; lost only when the pirate
    has boarded, or no hull is left, or the countdown is at or below 0 while
    undocked; and still active only with hull and countdown left. *)
Theorem step_outcome r dtRaw input :
  status r = active ->
  let r' := stepRuntime H r dtRaw input in
  (status r' = won ->
   docked r' = true /\ missionSeconds r' <= 0 /\ 0 < hull r')
  /\ (status r' = lost ->
      pirateState r' = boarding \/ hull r' <= 0
      \/ (missionSeconds r' <= 0 /\ docked r' = false))
  /\ (status r' = active -> 0 < hull r' /\ 0 < missionSeconds r').
Proof.
  intros A r'. subst r'.
  destruct (stepRuntime_reaches H r dtRaw input A) as (s & -> & S).
  destruct (afterDocking_banked r (Math_min dtRaw 0.05) (keys input))
    as (_ & _ & B3 & _).
  assert (Ss : status s = active).
  { rewrite <- A, <- B3. apply S. exact I. }
  unfold frameEnd.
  set (u := updatePirate H s (Math_min dtRaw 0.05)).
  pose proof (updatePirate_status s (Math_min dtRaw 0.05)) as U.
  fold u in U. rewrite Ss in U.
  destruct (evaluateMissionOutcome_pirate u) as (V1 & _ & V3 & V4 & V5).
  destruct (evaluateMissionOutcome_cases u) as [C1 C2]. cbv zeta in C1, C2.
  change (status (updatePrevKeys ?x _)) with (status x).
  change (docked (updatePrevKeys ?x _)) with (docked x).
  change (hull (updatePrevKeys ?x _)) with (hull x).
  change (missionSeconds (updatePrevKeys ?x _)) with (missionSeconds x).
  change (pirateState (updatePrevKeys ?x _)) with (pirateState x).
  rewrite V1, V3, V4, V5.
  destruct U as [U|[P L]].
  - destruct (C1 U) as (W & Lo & Ac). repeat split.
    + apply W; assumption.
    + apply W; assumption.
    + apply W; assumption.
    + intros E. right. apply Lo, E.
    + apply Ac; assumption.
    + apply Ac; assumption.
  - rewrite (C2 ltac:(rewrite L; discriminate)). rewrite L.
    repeat split; try discriminate. intros _. left. exact P.
Qed.

(** ** The recorded keys *)

(** X21 (frame keys).  After a frame, whatever the status, every control code
    is recorded with the state it has in the input of the frame, so that an
    input that is held does not fire an edge in the next frame; the record of
    any other code is the one before the frame. *)
Theorem step_keys r dtRaw input code :
  let r' := stepRuntime H r dtRaw input in
  (In code CONTROL_CODES ->
   prevKeys r' !! code = Some (isDown (keys input) code)
   /\ justPressed r' (keys input) code = false)
  /\ (~ In code CONTROL_CODES -> prevKeys r' !! code = prevKeys r !! code).
Proof.
  intros r'.
  assert (X : exists x, r' = updatePrevKeys x (keys input)
                        /\ prevKeys x = prevKeys r).
  { subst r'. destruct (GameStatus_active_dec (status r)) as [A|A].
    - destruct (stepRuntime_reaches H r dtRaw input A) as (s & -> & S).
      eexists. split; [reflexivity|].
      pose proof (evaluateMissionOutcome_st True True True _ _
                    (updatePirate_st H True True True _ _
                       (Math_min dtRaw 0.05)
                       (Steady_refl True True False True s))) as T.
      pose proof (afterDocking_steady H r (Math_min dtRaw 0.05) (keys input))
        as D.
      transitivity (prevKeys s); [apply T; exact I|].
      transitivity (prevKeys (afterDocking H r (Math_min dtRaw 0.05)
                                (keys input)));
        [apply S; exact I | apply D; exact I].
    - exists r. split; [apply stepRuntime_terminal, A | reflexivity]. }
  destruct X as (x & -> & Px). rewrite <- Px.
  unfold justPressed, updatePrevKeys. cbn [prevKeys set_prevKeys]. split.
  - intros C. rewrite recorded_code by exact C. split; [reflexivity|].
    cbn [default]. destruct (isDown (keys input) code); reflexivity.
  - intros N. apply recorded_other, N.
Qed.

End Frame.

(** ** Runs, continued *)

Section RunsMore.
Variable H : Host.

Lemma stepAll_invariant (P : GameRuntime -> Prop) :
  (forall r dt input, P r -> P (stepRuntime H r dt input)) ->
  forall frames r, P r -> P (stepAll H r frames).
Proof.
  intros Step frames. induction frames as [|[dt input] rest IH]; intros r Pr.
  - exact Pr.
  - rewrite stepAll_cons. apply IH, Step, Pr.
Qed.

Lemma stepRuntime_RunInv r dt input :
  RunInv r -> RunInv (stepRuntime H r dt input).
Proof.
  intros (L & S & V & A & D & P).
  destruct (GameStatus_active_dec (status r)) as [Ac|Ac].
  - pose proof (stepRuntime_whole H r dt input Ac) as W.
    destruct W as (_ & _ & _ & W4 & W5 & W6 & _ & W8 & W9 & W10 & _).
    unfold RunInv. repeat match goal with |- _ /\ _ => split end.
    + apply W5, L.
    + cbn in W6. lia.
    + apply W10, V.
    + rewrite W4. exact A.
    + cbn in W8. lra.
    + cbn in W9. lia.
  - rewrite stepRuntime_terminal by exact Ac.
    unfold RunInv. repeat match goal with |- _ /\ _ => split end;
      assumption.
Qed.

Lemma createRuntime_RunInv seed modifiers :
  RunInv (createRuntime H seed modifiers).
Proof.
  destruct (createRuntime_start H seed modifiers)
    as (_ & _ & B & V & D & P & (m & E) & S & I).
  unfold RunInv, LogOk, ValueInv. rewrite E, S, B, V, D, P.
  repeat match goal with |- _ /\ _ => split end.
  - cbn. lia.
  - repeat constructor.
  - repeat constructor. cbn. lia.
  - lia.
  - intros key. destruct key; repeat split; try reflexivity;
      exists 0%Z; split; (lia || reflexivity).
  - reflexivity.
  - exact I.
  - lra.
  - lia.
Qed.

Lemma run_RunInv seed modifiers frames : RunInv (run H seed modifiers frames).
Proof.
  unfold run. apply stepAll_invariant; [apply stepRuntime_RunInv|].
  apply createRuntime_RunInv.
Qed.

(** X22 (event log).  In every state reachable from [createRuntime] by
    [stepRuntime] calls the event log holds at most six events, newest first,
    with strictly decreasing (hence distinct) ids, none above [eventSerial];
    and [eventSerial] is at least 1 and never decreases in a frame. *)
Theorem event_log_shape seed modifiers frames dt input :
  let r := run H seed modifiers frames in
  (List.length (events r) <= 6)%nat
  /\ StronglySorted (fun a b => (ev_id b < ev_id a)%Z) (events r)
  /\ Forall (fun e => (ev_id e <= eventSerial r)%Z) (events r)
  /\ (1 <= eventSerial r)%Z
  /\ (eventSerial r <= eventSerial (stepRuntime H r dt input))%Z.
Proof.
  intros r.
  destruct (run_RunInv seed modifiers frames) as ((L & S & B) & O & _).
  fold r in L, S, B, O.
  repeat match goal with |- _ /\ _ => split end; try assumption.
  destruct (GameStatus_active_dec (status r)) as [Ac|Ac].
  - apply (stepRuntime_whole H r dt input Ac).
  - rewrite stepRuntime_terminal by exact Ac. apply Z.le_refl.
Qed.

(** X23 (asteroid identities).  In every reachable state the asteroids are the
    [ASTEROID_COUNT] asteroids of the initial state, in their order: no
    function of a frame adds, removes or reorders asteroids, and the asteroid
    with id [i] sits at index [i]. *)
Theorem asteroid_ids_stable seed modifiers frames :
  let r := run H seed modifiers frames in
  map ast_id (asteroids r) = map Z.of_nat (seq 0 ASTEROID_COUNT)
  /\ List.length (asteroids r) = ASTEROID_COUNT.
Proof.
  intros r. destruct (run_RunInv seed modifiers frames) as (_ & _ & _ & A & _).
  fold r in A. split; [exact A|].
  rewrite <- (length_map ast_id). unfold asteroidIds in A. rewrite A.
  rewrite length_map, length_seq. reflexivity.
Qed.

(** X24 (cargo value).  In every reachable state [cargoValue] is the value of
    the units in the bins (the sum over the bins of units times unit value),
    and every bin's own [value] is its units times its unit value. *)
Theorem cargo_value_tracked seed modifiers frames :
  let r := run H seed modifiers frames in
  cargoValue r == holdValue (cargoBins r)
  /\ (forall key,
      bin_value (getBin (cargoBins r) key)
      == bin_units (getBin (cargoBins r) key) * def_value (RESOURCES key)).
Proof.
  intros r.
  destruct (run_RunInv seed modifiers frames) as (_ & _ & (B & V) & _).
  fold r in B, V. split; [exact V|]. intros key. apply (B key).
Qed.

Lemma banked_steps r frames :
  deliveredValue r <= deliveredValue (stepAll H r frames)
  /\ (deliveredPowerballScore r
      <= deliveredPowerballScore (stepAll H r frames))%Z.
Proof.
  revert r. induction frames as [|[dt input] rest IH]; intros r.
  - split; [apply Qle_refl | apply Z.le_refl].
  - rewrite stepAll_cons. destruct (IH (stepRuntime H r dt input)) as [A B].
    assert (S : deliveredValue r <= deliveredValue (stepRuntime H r dt input)
                /\ (deliveredPowerballScore r
                    <= deliveredPowerballScore (stepRuntime H r dt input))%Z).
    { destruct (GameStatus_active_dec (status r)) as [Ac|Ac].
      - pose proof (stepRuntime_whole H r dt input Ac) as W.
        split; apply W.
      - rewrite stepRuntime_terminal by exact Ac.
        split; [apply Qle_refl | apply Z.le_refl]. }
    destruct S as [S1 S2]. split; [lra | lia].
Qed.

(** X25 (banking).  Banked value and delivered powerball score never decrease:
    over any frames, from any runtime, they end at or above where they
    started; and an active frame that the dock action leaves undocked banks
    nothing. *)
Theorem banking_monotone r frames dtRaw input :
  (deliveredValue r <= deliveredValue (stepAll H r frames)
   /\ (deliveredPowerballScore r
       <= deliveredPowerballScore (stepAll H r frames))%Z)
  /\ (status r = active ->
      docked (afterDocking H r (Math_min dtRaw 0.05) (keys input)) = false ->
      deliveredValue (stepRuntime H r dtRaw input) = deliveredValue r
      /\ deliveredPowerballScore (stepRuntime H r dtRaw input)
         = deliveredPowerballScore r).
Proof.
  split; [apply banked_steps|].
  apply (frame_banking H r dtRaw input).
Qed.


Lemma stepRuntime_calm r dt input :
  pirateState r = quiet -> pirateTriggerAt r = PosInf ->
  pirateState (stepRuntime H r dt input) = quiet
  /\ pirateTriggerAt (stepRuntime H r dt input) = PosInf.
Proof.
  intros Q T.
  destruct (GameStatus_active_dec (status r)) as [Ac|Ac].
  - destruct (frame_pirate H r dt input Ac Q) as (s & Qs & Ts & _ & D & P & _).
    destruct (updatePirate_quiet H s _ Qs D) as [U _].
    rewrite Ts, T in U. split.
    + rewrite P, (U eq_refl). exact Qs.
    + rewrite <- T. apply (stepRuntime_whole H r dt input Ac).
  - rewrite stepRuntime_terminal by exact Ac. split; assumption.
Qed.


(** X26 (no pirate scheduled).  A run whose initial state has no pirate
    appearance scheduled ([pirateTriggerAt] is [Infinity]) keeps its pirate
    quiet in every reachable state. *)
Theorem pirate_never_appears seed modifiers frames :
  pirateTriggerAt (createRuntime H seed modifiers) = PosInf ->
  pirateState (run H seed modifiers frames) = quiet.
Proof.
  intros T.
  assert (Q : pirateState (createRuntime H seed modifiers) = quiet)
    by apply createRuntime_start.
  unfold run.
  apply (stepAll_invariant
           (fun r => pirateState r = quiet /\ pirateTriggerAt r = PosInf)).
  - intros r dt input [Qr Tr]. apply stepRuntime_calm; assumption.
  - split; assumption.
Qed.

End RunsMore.

(** ** The launch of a run with the hangar's modifiers *)

Section Launch.
Variable H : Host.

Lemma isCount_scaled q k : isCount q -> (0 <= k)%Z -> isCount (q * inject_Z k).
Proof.
  intros (n & N & E) K. exists (n * k)%Z. split; [lia|].
  rewrite E, inject_Z_mult. reflexivity.
Qed.

Lemma launched_ammo levels :
  isCount (lv_weapons levels) ->
  isCount (if lv_weapons levels >? 0 then 6 + lv_weapons levels * 6 else 0).
Proof.
  intros W. destruct (lv_weapons levels >? 0).
  - apply isCount_plus.
    + exists 6%Z. split; [lia|reflexivity].
    + apply (isCount_scaled _ 6 W). lia.
  - exists 0%Z. split; [lia|reflexivity].
Qed.

(** X27 (hangar launch).  A run launched as the hangar launches it, with the
    modifiers [buildRunModifiers] makes of whole upgrade levels and any
    encounter chance, over frames with non-negative time steps: in every
    reachable state the maximum hull and the cargo capacity are the ones the
    levels give (at least 100 and 130), the hull lies between 0 and the
    maximum, the cargo fits the hold, the ammunition is a whole number between
    0 and the magazine the weapon level gives, and, as [buildRunModifiers]
    sets no rammer field, both rammer multipliers are the default, 1. *)
Theorem launch_run_sound seed levels chance frames :
  wholeLevels levels -> nonNegativeSteps frames ->
  let r := run H seed (launchModifiers levels chance) frames in
  (maxHull r = 100 + lv_hull levels * 18 /\ 100 <= maxHull r
   /\ 0 <= hull r /\ hull r <= maxHull r)
  /\ (cargoCapacity r = 130 + lv_cargo levels * 26
      /\ 130 <= cargoCapacity r /\ cargoUsed r <= cargoCapacity r)
  /\ (weaponMaxAmmo r
      = (if lv_weapons levels >? 0 then 6 + lv_weapons levels * 6 else 0)
      /\ weaponDamage r
         = (if lv_weapons levels >? 0 then 14 + lv_weapons levels * 10
            else 0)
      /\ isCount (weaponAmmo r) /\ weaponAmmo r <= weaponMaxAmmo r)
  /\ (grabberRange r = 7.5 + lv_grabber levels * 1.3
      /\ thrusterMultiplier r = 1 + lv_thruster levels * 0.13
      /\ drillMultiplier r = 1 + lv_drill levels * 0.17
      /\ rammerDamageMultiplier r = 1
      /\ rammerSelfDamageMultiplier r = 1).
Proof.
  intros (_ & _ & _ & Lh & Lc & Lw) T r.
  set (modifiers := launchModifiers levels chance) in r.
  pose proof (stepAll_keeps H True frames (createRuntime H seed modifiers)
                (fun _ => T)) as K.
  pose proof (createRuntime_initial H seed modifiers) as Init.
  assert (Mh : 0 <= modifier (mod_maxHull modifiers) BASE_MAX_HULL).
  { change (0 <= 100 + lv_hull levels * 18).
    pose proof (isCount_nonneg _ Lh). nra. }
  pose proof (createRuntime_hull H seed modifiers Mh) as Hull0.
  pose proof (createRuntime_cargo H seed modifiers) as Cargo0.
  change (stepAll H (createRuntime H seed modifiers) frames) with r in K.
  clearbody r. revert K Init Hull0 Cargo0.
  generalize (createRuntime H seed modifiers). intros r0 K Init Hull0 Cargo0.
  destruct K as (F & C & Hl & A & N & _).
  destruct Init
    as (I1 & I2 & I3 & I4 & I5 & I6 & I7 & I8 & I9 & I10 & I11 & _).
  unfold fixedFields in F.
  assert (F1 : cargoCapacity r = cargoCapacity r0) by congruence.
  assert (F2 : maxHull r = maxHull r0) by congruence.
  assert (F3 : weaponMaxAmmo r = weaponMaxAmmo r0) by congruence.
  assert (F4 : weaponDamage r = weaponDamage r0) by congruence.
  assert (F5 : rammerDamageMultiplier r = rammerDamageMultiplier r0)
    by congruence.
  assert (F6 : rammerSelfDamageMultiplier r = rammerSelfDamageMultiplier r0)
    by congruence.
  assert (F7 : grabberRange r = grabberRange r0) by congruence.
  assert (F8 : thrusterMultiplier r = thrusterMultiplier r0) by congruence.
  assert (F9 : drillMultiplier r = drillMultiplier r0) by congruence.
  clear F.
  pose proof (isCount_nonneg _ Lh) as Ph.
  pose proof (isCount_nonneg _ Lc) as Pc.
  assert (M : maxHull r = 100 + lv_hull levels * 18)
    by (rewrite F2, I4; reflexivity).
  assert (Cc : cargoCapacity r = 130 + lv_cargo levels * 26)
    by (rewrite F1, I6; reflexivity).
  destruct (Hl I Hull0) as (H0 & H1 & _).
  destruct (C Cargo0) as (_ & _ & Cap).
  repeat match goal with |- _ /\ _ => split end;
    try assumption.
  - rewrite M. nra.
  - rewrite Cc. nra.
  - apply Cap. rewrite Cc. nra.
  - rewrite F3, I8. reflexivity.
  - rewrite F4, I9. reflexivity.
  - apply N. rewrite I7. apply (launched_ammo levels Lw).
  - rewrite F3, I8, <- I7. exact A.
  - rewrite F7, I1. reflexivity.
  - rewrite F8, I2. reflexivity.
  - rewrite F9, I3. reflexivity.
  - rewrite F5, I10. reflexivity.
  - rewrite F6, I11. reflexivity.
Qed.

End Launch.

(** ** The HUD snapshot *)

Section HudFacts.
Variable H : Host.
Variable Math_atan2 : Q -> Q -> Q.

Lemma progress_done start left :
  0 < start -> left <= 0 -> toProgress ((start - left) / start) == 1.
Proof.
  intros S L. apply clamp_high.
  apply Qle_shift_div_l; [exact S|]. lra.
Qed.

(** X28 (HUD gauges).  The gauges of the HUD snapshot, for any runtime: the
    countdown shown is never negative; the unload and repair progress lie in
    [[0, 1]] and are 1 once nothing is left to unload, or the hull is at its
    maximum; the remaining repair is never negative; and the boarding estimate
    is [Infinity] unless the pirate is incoming, when it is the boarding
    timer, not below 0. *)
Theorem hud_gauges r :
  let hud := createHudSnapshot H Math_atan2 r in
  (0 <= hud_missionSeconds hud
   /\ (0 <= missionSeconds r -> hud_missionSeconds hud = missionSeconds r))
  /\ (0 <= hud_dockUnloadProgress hud /\ hud_dockUnloadProgress hud <= 1
      /\ (hud_dockUnloadRemainingUnits hud <= 0 ->
          hud_dockUnloadProgress hud == 1))
  /\ (0 <= hud_dockRepairProgress hud /\ hud_dockRepairProgress hud <= 1
      /\ 0 <= hud_dockRepairRemainingHull hud
      /\ (maxHull r <= hull r ->
          hud_dockRepairRemainingHull hud == 0
          /\ hud_dockRepairProgress hud == 1))
  /\ (pirateState r <> incoming -> hud_pirateBoardEta hud = PosInf)
  /\ (forall t, pirateState r = incoming -> pirateBoardTimer r = Fin t ->
      hud_pirateBoardEta hud = Fin (Math_max 0 t) /\ 0 <= Math_max 0 t).
Proof.
  intros hud. subst hud. unfold createHudSnapshot.
  cbn [hud_missionSeconds hud_dockUnloadProgress hud_dockRepairProgress
       hud_dockUnloadRemainingUnits hud_dockRepairRemainingHull
       hud_pirateBoardEta].
  set (units := getCargoUnitCount r + inject_Z (powerballCargo r)).
  set (deficit := Math_max 0 (maxHull r - hull r)).
  assert (D0 : 0 <= deficit).
  { subst deficit.
    destruct (Math_max_cases 0 (maxHull r - hull r)) as [[? ->]|[? ->]]; lra. }
  repeat match goal with |- _ /\ _ => split end.
  - destruct (Math_max_cases 0 (missionSeconds r)) as [[? ->]|[? ->]]; lra.
  - intros M. unfold Math_max. apply Qleb_le in M. rewrite M. reflexivity.
  - destruct (dockUnloadStartUnits r <=? 0); [lra|apply clamp_unit].
  - destruct (dockUnloadStartUnits r <=? 0); [lra|apply clamp_unit].
  - intros L. destruct (dockUnloadStartUnits r <=? 0) eqn:S; [reflexivity|].
    apply Qleb_gt in S. apply progress_done; assumption.
  - destruct (dockRepairStartDeficit r <=? 0); [lra|apply clamp_unit].
  - destruct (dockRepairStartDeficit r <=? 0); [lra|apply clamp_unit].
  - exact D0.
  - intros L.
    assert (Z : deficit <= 0).
    { subst deficit.
      destruct (Math_max_cases 0 (maxHull r - hull r)) as [[? ->]|[? ->]];
        lra. }
    split; [lra|].
    destruct (dockRepairStartDeficit r <=? 0) eqn:S; [reflexivity|].
    apply Qleb_gt in S. apply progress_done; assumption.
  - intros P. destruct (PirateState_eqb (pirateState r) incoming) eqn:E;
      [|reflexivity].
    apply PirateState_eqb_eq in E. contradiction.
  - intros t P T. rewrite P, T. split; [reflexivity|].
    destruct (Math_max_cases 0 t) as [[? ->]|[? ->]]; lra.
Qed.

(** *** The resource list *)

Lemma insertBy_perm {A : Type} (compare : A -> A -> Q) x l :
  Permutation (insertBy compare x l) (x :: l).
Proof.
  induction l as [|y l IH]; cbn [insertBy]; [reflexivity|].
  destruct (compare x y <=? 0); [reflexivity|].
  rewrite IH. apply perm_swap.
Qed.

Lemma sortBy_perm {A : Type} (compare : A -> A -> Q) l :
  Permutation (sortBy compare l) l.
Proof.
  induction l as [|y l IH]; cbn [sortBy fold_right]; [reflexivity|].
  fold (sortBy compare l). rewrite insertBy_perm, IH. reflexivity.
Qed.

Lemma insertBy_sorted x l :
  StronglySorted (fun a b => bin_value b <= bin_value a) l ->
  StronglySorted (fun a b => bin_value b <= bin_value a)
    (insertBy hudOrder x l).
Proof.
  induction l as [|y l IH]; intros S; cbn [insertBy].
  - constructor; [constructor|constructor].
  - apply StronglySorted_inv in S as [S F].
    destruct (hudOrder x y <=? 0) eqn:E.
    + apply Qleb_le in E. unfold hudOrder in E.
      constructor; [constructor; assumption|].
      constructor; [lra|].
      eapply List.Forall_impl; [|exact F]. cbn beta. intros z Z. lra.
    + apply Qleb_gt in E. unfold hudOrder in E.
      constructor; [apply IH, S|].
      apply List.Forall_forall. intros z Iz.
      apply insertBy_in in Iz as [->|Iz]; [lra|].
      rewrite List.Forall_forall in F. apply F, Iz.
Qed.

Lemma sortBy_sorted l :
  StronglySorted (fun a b => bin_value b <= bin_value a) (sortBy hudOrder l).
Proof.
  induction l as [|y l IH]; cbn [sortBy fold_right]; [constructor|].
  apply insertBy_sorted, IH.
Qed.

Lemma sorted_hudBins l :
  StronglySorted (fun a b => bin_value b <= bin_value a) l ->
  StronglySorted (fun a b => hb_value b <= hb_value a) (map hudBin l).
Proof.
  induction 1 as [|y l S IH F]; cbn [map]; constructor; [exact IH|].
  apply List.Forall_forall. intros z Iz.
  apply in_map_iff in Iz as (w & <- & Iw).
  rewrite List.Forall_forall in F. exact (F w Iw).
Qed.

(** X29 (HUD resource list).  The resource list of the HUD snapshot holds
    exactly the bins of the hold with units in them, each once, ordered by
    their value from the greatest down, each with the label and colour of its
    resource; it has at most five entries. *)
Theorem hud_resource_bins r :
  let listed := hud_resourceBins (createHudSnapshot H Math_atan2 r) in
  Permutation listed
    (map hudBin
       (List.filter (fun bin => bin_units bin >? 0) (binValues (cargoBins r))))
  /\ StronglySorted (fun a b => hb_value b <= hb_value a) listed
  /\ (forall key,
      In (hudBin (getBin (cargoBins r) key)) listed
      <-> 0 < bin_units (getBin (cargoBins r) key))
  /\ (forall entry, In entry listed ->
      0 < hb_units entry
      /\ hb_label entry = def_label (RESOURCES (hb_resourceId entry))
      /\ hb_color entry = def_color (RESOURCES (hb_resourceId entry)))
  /\ (List.length listed <= 5)%nat.
Proof.
  intros listed. subst listed.
  change (hud_resourceBins (createHudSnapshot H Math_atan2 r))
    with (createHudResourceBins r).
  unfold createHudResourceBins.
  set (held := List.filter (fun bin => bin_units bin >? 0)
                 (binValues (cargoBins r))).
  assert (P : Permutation (map hudBin (sortBy hudOrder held))
                (map hudBin held))
    by (apply Permutation_map, sortBy_perm).
  repeat match goal with |- _ /\ _ => split end.
  - exact P.
  - apply sorted_hudBins, sortBy_sorted.
  - intros key. split.
    + intros I. apply in_map_iff in I as (bin & E & I).
      apply sortBy_in in I. subst held. apply filter_In in I as [I U].
      apply Qgtb_lt in U.
      assert (bin_units (getBin (cargoBins r) key) = bin_units bin)
        by (change (hb_units (hudBin (getBin (cargoBins r) key))
                    = hb_units (hudBin bin)); rewrite E; reflexivity).
      congruence.
    + intros U. apply in_map, sortBy_in. subst held. apply filter_In. split.
      * unfold binValues. apply in_map. destruct key; cbn; tauto.
      * apply Qgtb_lt. exact U.
  - intros entry I. apply in_map_iff in I as (bin & <- & I).
    apply sortBy_in in I. subst held. apply filter_In in I as [_ U].
    apply Qgtb_lt in U. repeat split. exact U.
  - rewrite (Permutation_length P), length_map. subst held.
    etransitivity; [apply filter_length_le|]. reflexivity.
Qed.

End HudFacts.

(** ** The grabber target *)

Section Grabber.
Variable H : Host.
Variable Math_atan2 : Q -> Q -> Q.

(** The loop of [findNearestAsteroidForGrabber] keeps a nearest asteroid
    of those it has seen, with its surface distance. *)
Lemma nearest_loop r l : forall best,
  (forall a d, best = Some (a, d) -> d = surfaceDistanceOf H r a) ->
  match fold_left (nearestStep H (playerPosition r)) l best with
  | None => best = None /\ l = []
  | Some (a, d) =>
      d = surfaceDistanceOf H r a
      /\ (In a l \/ best = Some (a, d))
      /\ (forall b, In b l -> d <= surfaceDistanceOf H r b)
      /\ (forall a0 d0, best = Some (a0, d0) -> d <= d0)
  end.
Proof.
  induction l as [|x l IH]; intros best B; cbn [fold_left].
  - destruct best as [[a d]|]; [|split; reflexivity].
    split; [apply (B a d eq_refl)|]. split; [right; reflexivity|].
    split; [intros b []|].
    intros a0 d0 E. inversion E. lra.
  - set (next := nearestStep H (playerPosition r) best x).
    assert (N : forall a d, next = Some (a, d) ->
                            d = surfaceDistanceOf H r a).
    { subst next. unfold nearestStep. intros a d.
      destruct best as [[a1 d1]|].
      - destruct (_ <? d1).
        + intros E. inversion E. reflexivity.
        + apply B.
      - intros E. inversion E. reflexivity. }
    assert (M : exists a d, next = Some (a, d)
                /\ d <= surfaceDistanceOf H r x
                /\ (a = x \/ best = Some (a, d))
                /\ (forall a0 d0, best = Some (a0, d0) -> d <= d0)).
    { subst next. unfold nearestStep.
      fold (surfaceDistanceOf H r x).
      destruct best as [[a1 d1]|].
      - destruct (surfaceDistanceOf H r x <? d1) eqn:E.
        + apply Qltb_lt in E. exists x, (surfaceDistanceOf H r x).
          split; [reflexivity|]. split; [lra|]. split; [left; reflexivity|].
          intros a0 d0 E0. inversion E0. subst. lra.
        + apply Qltb_ge in E. exists a1, d1.
          split; [reflexivity|]. split; [exact E|].
          split; [right; reflexivity|].
          intros a0 d0 E0. inversion E0. lra.
      - exists x, (surfaceDistanceOf H r x).
        split; [reflexivity|]. split; [lra|]. split; [left; reflexivity|].
        intros a0 d0 E0. discriminate E0. }
    specialize (IH next N).
    destruct (fold_left (nearestStep H (playerPosition r)) l next)
      as [[a d]|].
    + destruct IH as (D & I & Mn & Bn).
      destruct M as (a1 & d1 & E1 & L1 & O1 & B1).
      specialize (Bn a1 d1 E1).
      split; [exact D|]. split; [|split].
      * destruct I as [I|I]; [left; right; exact I|].
        rewrite E1 in I. inversion I. subst a1 d1.
        destruct O1 as [->|O1]; [left; left; reflexivity|right; exact O1].
      * intros b [<-|Ib]; [lra|apply Mn, Ib].
      * intros a0 d0 E0. specialize (B1 a0 d0 E0). lra.
    + destruct IH as [IH _]. destruct M as (a1 & d1 & E1 & _).
      rewrite E1 in IH. discriminate IH.
Qed.

Lemma nearest_target r :
  match findNearestAsteroidForGrabber H r with
  | None => asteroids r = []
  | Some (a, d) =>
      d = surfaceDistanceOf H r a /\ In a (asteroids r)
      /\ forall b, In b (asteroids r) -> d <= surfaceDistanceOf H r b
  end.
Proof.
  unfold findNearestAsteroidForGrabber.
  pose proof (nearest_loop r (asteroids r) None
                ltac:(intros a d E; discriminate E)) as L.
  destruct (fold_left _ _ _) as [[a d]|].
  - destruct L as (D & [I|I] & M & _); [|discriminate I].
    split; [exact D|]. split; [exact I|exact M].
  - apply L.
Qed.

(** X30 (grabber target).  The grabber takes what the HUD shows. The target of
    the HUD snapshot is an asteroid nearest to the player by surface distance
    (none only when there are no asteroids), shown ready exactly when that
    distance is within the grabber range. On an edge of the grab key with
    nothing grabbed, [updateGrabber] latches that target when the HUD shows it
    ready, and resets the drill progress; otherwise it latches nothing and
    logs an alert. *)
Theorem grabber_latch r ks :
  justPressed r ks "KeyG" = true -> grabbedAsteroidId r = None ->
  let hud := createHudSnapshot H Math_atan2 r in
  let r' := updateGrabber H r ks in
  (hud_grabberTargetId hud = None <-> asteroids r = [])
  /\ (forall a, In a (asteroids r) ->
      exists target,
        In target (asteroids r)
        /\ hud_grabberTargetId hud = Some (ast_id target)
        /\ hud_grabberTargetDistance hud
           = Some (Math_max 0 (surfaceDistanceOf H r target))
        /\ surfaceDistanceOf H r target <= surfaceDistanceOf H r a
        /\ (hud_grabberReady hud = true
            <-> surfaceDistanceOf H r target <= grabberRange r))
  /\ (hud_grabberReady hud = true ->
      grabbedAsteroidId r' = hud_grabberTargetId hud
      /\ grabbedAsteroidId r' <> None
      /\ drillAccumulator r' = 0 /\ asteroids r' = asteroids r)
  /\ (hud_grabberReady hud = false ->
      grabbedAsteroidId r' = None /\ asteroids r' = asteroids r
      /\ drillAccumulator r' = drillAccumulator r
      /\ eventSerial r' = (eventSerial r + 1)%Z).
Proof.
  intros J G hud r'. subst hud r'.
  unfold createHudSnapshot, updateGrabber.
  cbn [hud_grabberTargetId hud_grabberTargetDistance hud_grabberReady].
  rewrite J, G. cbn [negb].
  pose proof (nearest_target r) as N.
  destruct (findNearestAsteroidForGrabber H r) as [[target d]|].
  - destruct N as (D & I & M). subst d.
    split; [split; [discriminate|intros E; rewrite E in I; destruct I]|].
    split.
    { intros a Ia. exists target. split; [exact I|].
      split; [reflexivity|]. split; [reflexivity|].
      split; [apply M, Ia|]. apply Qleb_le. }
    destruct (surfaceDistanceOf H r target <=? grabberRange r).
    + split; [|intros E; discriminate E]. intros _.
      split; [reflexivity|]. split; [discriminate|].
      split; reflexivity.
    + split; [intros E; discriminate E|]. intros _.
      split; [exact G|]. repeat split.
  - split; [split; [intros _; exact N|reflexivity]|].
    split; [intros a Ia; rewrite N in Ia; destruct Ia|].
    split; [intros E; discriminate E|]. intros _.
    split; [exact G|]. repeat split.
Qed.

End Grabber.

(** ** The properties above on concrete inputs *)

Lemma drill_ore_bounds_witness :
  0 <= ast_oreReserve (snd (drillLoop 2 drillingRuntime sampleAsteroid))
  /\ ast_oreReserve (snd (drillLoop 2 drillingRuntime sampleAsteroid))
     <= ast_oreReserve sampleAsteroid.
Proof.
  destruct (drill_ore_bounds 2 drillingRuntime sampleAsteroid) as (A & B & _).
  - vm_compute. discriminate.
  - split; [exact A | exact B].
Defined.

Lemma unload_banks_value_witness :
  deliveredValue (unloadLoop 2 unloadingRuntime)
  + cargoValue (unloadLoop 2 unloadingRuntime)
  == deliveredValue unloadingRuntime + cargoValue unloadingRuntime.
Proof.
  refine (proj1 (proj2 (unload_banks_value 2 unloadingRuntime _))).
  split; [|vm_compute; reflexivity].
  replace (cargoBins unloadingRuntime) with (cargoBins loadedRuntime)
    by (vm_compute; reflexivity).
  exact loadedRuntime_bins.
Defined.

Lemma projectiles_update_witness :
  updateCargoShots refHost firedRuntime 0.016
  = set_cargoShots
      (List.filter shotAlive
         (map (fun s => advanceShot s 0.016) (cargoShots firedRuntime)))
      firedRuntime.
Proof.
  refine (proj2 (proj2 (projectiles_update refHost firedRuntime 0.016)) _).
  vm_compute. discriminate.
Defined.

Lemma outcome_idempotent_witness :
  evaluateMissionOutcome wonRuntime = wonRuntime.
Proof.
  refine (proj1 (proj2 (proj2 (outcome_idempotent wonRuntime))) _).
  vm_compute. discriminate.
Defined.

Lemma step_clock_witness :
  elapsed (stepRuntime refHost sampleRuntime 0.016 (pressed ["KeyW"%string]))
  = elapsed sampleRuntime + Math_min 0.016 0.05.
Proof.
  refine (proj1 (proj1 (step_clock refHost sampleRuntime 0.016
                          (pressed ["KeyW"%string])) _)).
  vm_compute. reflexivity.
Defined.

Lemma step_docking_witness :
  docked (stepRuntime refHost sampleRuntime 0.016 (pressed ["KeyW"%string]))
  = docked sampleRuntime.
Proof.
  refine (proj1 (proj2 (step_docking refHost sampleRuntime 0.016
                          (pressed ["KeyW"%string]))) _).
  vm_compute. reflexivity.
Defined.

Lemma banking_monotone_witness :
  deliveredValue
    (stepRuntime refHost sampleRuntime 0.016 (pressed ["KeyW"%string]))
  = deliveredValue sampleRuntime.
Proof.
  refine (proj1 (proj2 (banking_monotone refHost sampleRuntime [] 0.016
                          (pressed ["KeyW"%string])) _ _)).
  - vm_compute. reflexivity.
  - vm_compute. reflexivity.
Defined.

Lemma pirate_appearance_witness :
  pirateState
    (stepRuntime refHost sampleRuntime 0.016 (pressed ["KeyW"%string]))
  = quiet.
Proof.
  refine (proj1 (proj1 (pirate_appearance refHost sampleRuntime 0.016
                          (pressed ["KeyW"%string])) _ _) _).
  - vm_compute. reflexivity.
  - vm_compute. reflexivity.
  - vm_compute. reflexivity.
Defined.

Lemma step_outcome_witness :
  0 < hull (stepRuntime refHost sampleRuntime 0.016 (pressed ["KeyE"%string]))
  /\ 0 < missionSeconds
           (stepRuntime refHost sampleRuntime 0.016 (pressed ["KeyE"%string])).
Proof.
  refine (proj2 (proj2 (step_outcome refHost sampleRuntime 0.016
                          (pressed ["KeyE"%string]) _)) _).
  - vm_compute. reflexivity.
  - with_strategy transparent [gmap_empty] (lazy; reflexivity).
Defined.

Lemma step_keys_witness :
  justPressed
    (stepRuntime refHost sampleRuntime 0.016 (pressed ["KeyW"%string]))
    (keys (pressed ["KeyW"%string])) "KeyW" = false.
Proof.
  refine (proj2 (proj1 (step_keys refHost sampleRuntime 0.016
                          (pressed ["KeyW"%string]) "KeyW") _)).
  left. reflexivity.
Defined.

Lemma pirate_never_appears_witness :
  pirateState (run refHost 1 calmModifiers sampleFrames) = quiet.
Proof.
  refine (pirate_never_appears refHost 1 calmModifiers sampleFrames _).
  vm_compute. reflexivity.
Defined.

Lemma launch_run_sound_witness :
  maxHull (run refHost 1 (launchModifiers sampleLevels 0.5) sampleFrames)
  = 100 + lv_hull sampleLevels * 18
  /\ hull (run refHost 1 (launchModifiers sampleLevels 0.5) sampleFrames)
     <= maxHull (run refHost 1 (launchModifiers sampleLevels 0.5)
                   sampleFrames).
Proof.
  destruct (launch_run_sound refHost 1 sampleLevels 0.5 sampleFrames)
    as ((M & _ & _ & U) & _).
  - unfold wholeLevels, sampleLevels. cbn [lv_grabber lv_thruster lv_drill
      lv_hull lv_cargo lv_weapons].
    repeat match goal with |- _ /\ _ => split end;
      [exists 1%Z | exists 2%Z | exists 0%Z | exists 3%Z | exists 1%Z
      | exists 2%Z]; (split; [lia | reflexivity]).
  - unfold nonNegativeSteps, sampleFrames.
    repeat constructor; vm_compute; discriminate.
  - split; [exact M | exact U].
Defined.

Lemma grabber_latch_witness :
  grabbedAsteroidId
    (updateGrabber refHost besideAsteroid (keys (pressed ["KeyG"%string])))
  = hud_grabberTargetId (createHudSnapshot refHost refAtan2 besideAsteroid)
  /\ grabbedAsteroidId
       (updateGrabber refHost sampleRuntime (keys (pressed ["KeyG"%string])))
     = None.
Proof.
  split.
  - refine (proj1 (proj1 (proj2 (proj2
              (grabber_latch refHost refAtan2 besideAsteroid
                 (keys (pressed ["KeyG"%string])) _ _))) _)).
    + vm_compute. reflexivity.
    + vm_compute. reflexivity.
    + vm_compute. reflexivity.
  - refine (proj1 (proj2 (proj2 (proj2
              (grabber_latch refHost refAtan2 sampleRuntime
                 (keys (pressed ["KeyG"%string])) _ _))) _)).
    + vm_compute. reflexivity.
    + vm_compute. reflexivity.
    + vm_compute. reflexivity.
Defined.

Lemma hud_gauges_witness :
  hud_dockRepairProgress (createHudSnapshot refHost refAtan2 sampleRuntime)
  == 1.
Proof.
  destruct (hud_gauges refHost refAtan2 sampleRuntime)
    as (_ & _ & (_ & _ & _ & R) & _).
  destruct R as [_ P]; [vm_compute; discriminate | exact P].
Defined.

Lemma hud_resource_bins_witness :
  In (hudBin (getBin (cargoBins loadedRuntime) xenoCrystal))
     (hud_resourceBins (createHudSnapshot refHost refAtan2 loadedRuntime)).
Proof.
  destruct (hud_resource_bins refHost refAtan2 loadedRuntime)
    as (_ & _ & K & _).
  destruct (K xenoCrystal) as [_ P]. apply P. vm_compute. reflexivity.
Defined.

